(** * Blockwright: island terrain, block world and blueprints

    A shallow embedding of [js/terrain.js] and of the block-building part of
    [js/app.js], with the properties of the design document proved or
    refuted on it.

    Numbers.  JavaScript has one number type, the IEEE double.  Three
    idealisations are used, each where the code needs it:
    - 32-bit integer code ([|0], [<<], [>>>], [^], [Math.imul]) is written
      over [Z] with the wrap-around spelled out (module [Int32]);
    - [terrain.js] takes square roots and fractional powers: its numbers are
      real numbers [R] (rounding, infinities and NaN are not represented);
    - [app.js] only adds, negates, rounds and compares: its numbers are exact
      rationals [Q], so that every definition there evaluates; where the
      rounding of a sum, difference or product decides what the code does
      (the test of the mouse handler, the step of the camera), the
      operation is a field of the class [Float64].

    Host functions that are not part of the repository (the simplex-noise
    library, [JSON.parse], number-to-string conversion, ray casting) are
    fields of the classes [NoiseLib] and [Host]; the theorems hold for every
    instance. *)

From Stdlib Require Import ZArith QArith Qround Qabs Reals Lra Lia List String Ascii.
From Stdlib Require Lqa.
From stdpp Require Import gmap strings pretty.
Import ListNotations.

(* ===================================================================== *)
(** * 32-bit integer operations *)
(* ===================================================================== *)

Module Int32.
Local Open Scope Z_scope.

(** [ToInt32]: the signed 32-bit value with the same low 32 bits. *)
Definition toInt32 (z : Z) : Z := (z + 2 ^ 31) mod 2 ^ 32 - 2 ^ 31.

(** [ToUint32]: the unsigned 32-bit value with the same low 32 bits. *)
Definition toUint32 (z : Z) : Z := z mod 2 ^ 32.

(** [a | b] *)
Definition or32 (a b : Z) : Z := toInt32 (Z.lor (toInt32 a) (toInt32 b)).

(** [a ^ b] *)
Definition xor32 (a b : Z) : Z := toInt32 (Z.lxor (toInt32 a) (toInt32 b)).

(** [a << n] *)
Definition shl32 (a n : Z) : Z := toInt32 (Z.shiftl (toInt32 a) (n mod 32)).

(** [a >>> n] *)
Definition ushr32 (a n : Z) : Z := Z.shiftr (toUint32 a) (n mod 32).

(** [Math.imul(a, b)] *)
Definition imul (a b : Z) : Z := toInt32 (toInt32 a * toInt32 b).

End Int32.

(* ===================================================================== *)
(** * Seed input ([applySeedInput], app.js) *)
(* ===================================================================== *)

Module Seed.
Import Int32.
Local Open Scope Z_scope.

(** The text of the seed field, as [charCodeAt] sees it: UTF-16 code units. *)
Definition jsstring := list Z.

Definition codes (s : string) : jsstring :=
  map (fun a => Z.of_nat (nat_of_ascii a)) (list_ascii_of_string s).

(** White space and line terminators, the characters [trim] and [parseInt]
    strip. *)
Definition isWhiteSpace (c : Z) : bool :=
  ((9 <=? c) && (c <=? 13)) || (c =? 32) || (c =? 160) || (c =? 5760)
  || ((8192 <=? c) && (c <=? 8202)) || (c =? 8232) || (c =? 8233)
  || (c =? 8239) || (c =? 8287) || (c =? 12288) || (c =? 65279).

Fixpoint trimStart (s : jsstring) : jsstring :=
  match s with
  | c :: s' => if isWhiteSpace c then trimStart s' else s
  | [] => []
  end.

Definition trim (s : jsstring) : jsstring :=
  rev (trimStart (rev (trimStart s))).

Definition isDigit (c : Z) : bool := (48 <=? c) && (c <=? 57).

(** The value of the longest prefix of decimal digits, [acc] being the value
    of the digits already read. *)
Fixpoint digitsValue (acc : Z) (s : jsstring) : Z :=
  match s with
  | c :: s' => if isDigit c then digitsValue (10 * acc + (c - 48)) s' else acc
  | [] => acc
  end.

Definition startsWithDigit (s : jsstring) : bool :=
  match s with
  | c :: _ => isDigit c
  | [] => false
  end.

(** [parseInt(s, 10)]; [None] is NaN.  The exact integer is returned,
    which is the number [parseInt] gives up to 2^53 in absolute value (a
    double rounds it beyond 2^53). *)
Definition parseInt10 (s : jsstring) : option Z :=
  match trimStart s with
  | 45 :: s' =>
      if startsWithDigit s' then Some (- digitsValue 0 s') else None
  | 43 :: s' =>
      if startsWithDigit s' then Some (digitsValue 0 s') else None
  | s' =>
      if startsWithDigit s' then Some (digitsValue 0 s') else None
  end.

(** One turn of the loop:
    [hash = ((hash << 5) - hash + val.charCodeAt(i)) | 0]. *)
Definition hashStep (hash c : Z) : Z := or32 (shl32 hash 5 - hash + c) 0.

(** The loop over [i = 0 .. val.length - 1], from [hash = 0]. *)
Definition hashLoop (val : jsstring) : Z := fold_left hashStep val 0.

(** The seed [applySeedInput] hands to [generate]; [None] when the trimmed
    field is empty and nothing is generated. *)
Definition applySeedInput_seed (input : jsstring) : option Z :=
  let val := trim input in
  match val with
  | [] => None
  | _ =>
      match parseInt10 val with
      | None => Some (Z.abs (hashLoop val))
      | Some parsed => Some parsed
      end
  end.

(** The hash as the design document words it: [hash = hash*31 + charCode]
    in 32-bit wrapping arithmetic. *)
Definition rollingHash31 (val : jsstring) : Z :=
  fold_left (fun hash c => toInt32 (hash * 31 + c)) val 0.

End Seed.

(* ===================================================================== *)
(** * Terrain generation ([js/terrain.js]) *)
(* ===================================================================== *)

Module Terrain.
Import Int32.
Local Open Scope R_scope.

(** ** Seeded PRNG (Mulberry32) *)

(** [mulberry32(seed)] returns a closure over the mutable variable [seed];
    the closure is represented by the current value of that variable. *)
Definition mulberry32 (seed : Z) : Z := seed.

(** The integer part of one call of the closure: the unsigned 32-bit value
    [(t ^ (t >>> 14)) >>> 0] and the variable [seed] afterwards. *)
Definition rng_u32 (seed : Z) : Z * Z :=
  let seed := or32 seed 0 in
  let seed := or32 (seed + 0x6d2b79f5)%Z 0 in
  let t := imul (xor32 seed (ushr32 seed 15)) (or32 1 seed) in
  let t := xor32 (t + imul (xor32 t (ushr32 t 7)) (or32 61 t))%Z t in
  (ushr32 (xor32 t (ushr32 t 14)) 0, seed).

(** One call [rng()]: the number returned, in [0, 1), and the closure
    afterwards. *)
Definition rng (seed : Z) : R * Z :=
  (IZR (fst (rng_u32 seed)) / 4294967296, snd (rng_u32 seed)).

(** ** Arithmetic of the host *)

Definition Rltb (x y : R) : bool := if Rlt_dec x y then true else false.

(** [Math.pow(x, y)] for a base [x >= 0] and an exponent [y > 0], the case
    the height sampler reaches when the noise is in its range [-1, 1]
    (a negative base with a fractional exponent is NaN in JavaScript and is
    not represented). *)
Definition Math_pow (x y : R) : R := if Rle_dec x 0 then 0 else Rpower x y.

(** [Math.floor] *)
Definition Math_floor (x : R) : Z := Zfloor x.

(** The 2D noise function of the simplex-noise library, documented to
    return values in [-1, 1]. *)
Definition noise_in_range (noise2D : R -> R -> R) : Prop :=
  forall u v, -1 <= noise2D u v <= 1.

(** ** fBm noise with octaves *)

(** The [for] loop of [fbm], [octaves] turns left, on the loop variables
    [value], [amplitude], [frequency], [max]. *)
Fixpoint fbm_loop (noise2D : R -> R -> R) (x z lacunarity gain : R)
    (octaves : nat) (value amplitude frequency max : R) : R * R :=
  match octaves with
  | O => (value, max)
  | S octaves' =>
      fbm_loop noise2D x z lacunarity gain octaves'
        (value + amplitude * noise2D (x * frequency) (z * frequency))
        (amplitude * gain) (frequency * lacunarity) (max + amplitude)
  end.

Definition fbm (noise2D : R -> R -> R) (x z : R) (octaves : nat)
    (lacunarity gain : R) : R :=
  let '(value, max) := fbm_loop noise2D x z lacunarity gain octaves 0 1 1 0 in
  value / max.

(** ** Shared terrain height sampler *)

(** Distance from the map centre, normalised by the half extent. *)
Definition normDist (x z halfSize : R) : R :=
  let dx := x / halfSize in
  let dz := z / halfSize in
  sqrt (dx * dx + dz * dz).

Definition islandFalloff (x z halfSize : R) : R :=
  Rmax 0 (1 - Math_pow (normDist x z halfSize) 3).

Definition sampleHeight (noise2D : R -> R -> R) (x z halfSize : R) : R :=
  let scale := 0.015 in
  let falloff := islandFalloff x z halfSize in
  let h := fbm noise2D (x * scale) (z * scale) 3 2.0 0.5 in
  let h := (h + 1) / 2 in
  let h := Math_pow h 1.8 in
  let h := h * falloff in
  h.

(** ** Scatter passes *)

Definition vec3 : Type := R * R * R.

(** A tree: its trunk mesh and its foliage mesh. *)
Record Tree := {
  trunk_position : vec3;
  foliage_position : vec3;
  tree_scale : R;
  foliage_rotation_y : R
}.

Definition treeCount (rng0 : Z) : Z := Math_floor (150 + fst (rng rng0) * 100).

(** One turn of the loop of [createTrees]; [continue] leaves the group as it
    is, with the two coordinates drawn. *)
Definition treeStep (noise2D : R -> R -> R) (size : R) (acc : list Tree * Z)
    : list Tree * Z :=
  let '(treeGroup, g) := acc in
  let halfSize := size / 2 in
  let '(r, g) := rng g in
  let x := (r - 0.5) * size * 0.85 in
  let '(r, g) := rng g in
  let z := (r - 0.5) * size * 0.85 in
  let h := sampleHeight noise2D x z halfSize in
  if Rltb h 0.12 || Rltb 0.48 h then (treeGroup, g) else
  let elevation := h * 30 in
  let '(r, g) := rng g in
  let treeScale := 0.7 + r * 0.8 in
  let '(r, g) := rng g in
  (treeGroup ++ [ {| trunk_position := (x, elevation + 0.75 * treeScale, z);
                     foliage_position := (x, elevation + 2.2 * treeScale, z);
                     tree_scale := treeScale;
                     foliage_rotation_y := r * PI * 2 |} ], g).

Definition createTrees (noise2D : R -> R -> R) (rng0 : Z) (size : R)
    : list Tree * Z :=
  let count := treeCount rng0 in
  Nat.iter (Z.to_nat count) (treeStep noise2D size) ([], snd (rng rng0)).

Record Rock := {
  rock_position : vec3;
  rock_scale : vec3;
  rock_rotation : vec3
}.

Definition rockCount (rng0 : Z) : Z := Math_floor (80 + fst (rng rng0) * 60).

Definition rockStep (noise2D : R -> R -> R) (size : R) (acc : list Rock * Z)
    : list Rock * Z :=
  let '(rockGroup, g) := acc in
  let halfSize := size / 2 in
  let '(r, g) := rng g in
  let x := (r - 0.5) * size * 0.85 in
  let '(r, g) := rng g in
  let z := (r - 0.5) * size * 0.85 in
  let h := sampleHeight noise2D x z halfSize in
  if Rltb h 0.42 || Rltb 0.88 h then (rockGroup, g) else
  let elevation := h * 30 in
  let '(r, g) := rng g in
  let s := 0.3 + r * 1.0 in
  let '(r1, g) := rng g in
  let '(r2, g) := rng g in
  let '(r3, g) := rng g in
  let '(r4, g) := rng g in
  let '(r5, g) := rng g in
  let '(r6, g) := rng g in
  (rockGroup ++ [ {| rock_position := (x, elevation + s * 0.3, z);
                     rock_scale := (s * (0.8 + r1 * 0.4), s * (0.5 + r2 * 0.5),
                                    s * (0.8 + r3 * 0.4));
                     rock_rotation := (r4 * 0.5, r5 * PI * 2, r6 * 0.5) |} ], g).

Definition createRocks (noise2D : R -> R -> R) (rng0 : Z) (size : R)
    : list Rock * Z :=
  let count := rockCount rng0 in
  Nat.iter (Z.to_nat count) (rockStep noise2D size) ([], snd (rng rng0)).

(** A flower: its stem and the petal spheres of its head. *)
Record Flower := {
  stem_position : vec3;
  flower_scale : R;
  petal_color : Z;
  petal_positions : list vec3
}.

Definition flowerCount (rng0 : Z) : Z := Math_floor (200 + fst (rng rng0) * 150).

(** The inner loop [for (p = 0; p < petals; p++)], for the values [ps] of
    [p]. *)
Definition petalRing (x elevation z flowerScale : R) (petals : Z)
    (ps : list Z) : list vec3 :=
  map (fun p =>
         let angle := (IZR p / IZR petals) * PI * 2 in
         let r := 0.06 * flowerScale in
         (x + cos angle * r, elevation + 0.42 * flowerScale, z + sin angle * r))
      ps.

Definition flowerStep (noise2D : R -> R -> R) (size : R)
    (acc : list Flower * Z) : list Flower * Z :=
  let '(flowerGroup, g) := acc in
  let halfSize := size / 2 in
  let '(r, g) := rng g in
  let x := (r - 0.5) * size * 0.85 in
  let '(r, g) := rng g in
  let z := (r - 0.5) * size * 0.85 in
  let h := sampleHeight noise2D x z halfSize in
  if Rltb h 0.13 || Rltb 0.43 h then (flowerGroup, g) else
  let elevation := h * 30 in
  let '(r, g) := rng g in
  let flowerScale := 0.6 + r * 0.8 in
  let '(r, g) := rng g in
  let colorIdx := Math_floor (r * 6) in
  let '(r, g) := rng g in
  let petals := (3 + Math_floor (r * 3))%Z in
  (flowerGroup ++ [ {| stem_position := (x, elevation + 0.2 * flowerScale, z);
                       flower_scale := flowerScale;
                       petal_color := colorIdx;
                       petal_positions :=
                         petalRing x elevation z flowerScale petals
                           (map Z.of_nat (seq 0 (Z.to_nat petals))) |} ], g).

Definition createFlowers (noise2D : R -> R -> R) (rng0 : Z) (size : R)
    : list Flower * Z :=
  let count := flowerCount rng0 in
  Nat.iter (Z.to_nat count) (flowerStep noise2D size) ([], snd (rng rng0)).

(** ** Blockify: the smooth terrain as voxel blocks *)









(** ** What a scatter pass promises of an instance *)

(** [(x, z)] lies within 0.85 of the map extent [[-size/2, size/2]]. *)
Definition inScatterArea (size x z : R) : Prop :=
  Rabs x <= 0.85 * (size / 2) /\ Rabs z <= 0.85 * (size / 2).

Definition treePlaced (noise2D : R -> R -> R) (size : R) (t : Tree) : Prop :=
  exists x z,
    inScatterArea size x z /\
    let h := sampleHeight noise2D x z (size / 2) in
    0.12 <= h <= 0.48 /\
    0.7 <= tree_scale t < 1.5 /\
    trunk_position t = (x, h * 30 + 0.75 * tree_scale t, z) /\
    foliage_position t = (x, h * 30 + 2.2 * tree_scale t, z).

Definition rockPlaced (noise2D : R -> R -> R) (size : R) (k : Rock) : Prop :=
  exists x z s,
    inScatterArea size x z /\
    let h := sampleHeight noise2D x z (size / 2) in
    0.42 <= h <= 0.88 /\
    0.3 <= s < 1.3 /\
    rock_position k = (x, h * 30 + s * 0.3, z).

Definition flowerPlaced (noise2D : R -> R -> R) (size : R) (f : Flower)
    : Prop :=
  exists x z,
    inScatterArea size x z /\
    let h := sampleHeight noise2D x z (size / 2) in
    0.13 <= h <= 0.43 /\
    0.6 <= flower_scale f < 1.4 /\
    stem_position f = (x, h * 30 + 0.2 * flower_scale f, z).

(** ** Terrain mesh *)

(** [lerpColor(c1, c2, t)]: [lerpColors] of the three channels with [t]
    clamped to [0, 1]. *)
Definition Color : Type := R * R * R.

Definition clamp01 (t : R) : R := Rmax 0 (Rmin 1 t).

Definition lerpColor (c1 c2 : Color) (t : R) : Color :=
  let '(r1, g1, b1) := c1 in
  let '(r2, g2, b2) := c2 in
  let a := clamp01 t in
  (r1 + (r2 - r1) * a, g1 + (g2 - g1) * a, b1 + (b2 - b1) * a).

(** The four colours [new THREE.Color(0x...)] of [getTerrainColor]. *)
Record Palette := { sand : Color; grass : Color; rock : Color; snow : Color }.

Definition getTerrainColor (p : Palette) (height : R) : Color :=
  if Rltb height 0.08 then sand p
  else if Rltb height 0.15 then
    lerpColor (sand p) (grass p) ((height - 0.08) / 0.07)
  else if Rltb height 0.45 then grass p
  else if Rltb height 0.55 then
    lerpColor (grass p) (rock p) ((height - 0.45) / 0.10)
  else if Rltb height 0.75 then rock p
  else if Rltb height 0.85 then
    lerpColor (rock p) (snow p) ((height - 0.75) / 0.10)
  else snow p.

(** The loop of [createTerrain] over the vertices of the plane geometry,
    given by their [(x, z)]: the vertex with its elevation, and its
    colour. *)
Definition createTerrain (p : Palette) (noise2D : R -> R -> R) (size : R)
    (vertices : list (R * R)) : list (vec3 * Color) :=
  let halfSize := size / 2 in
  map (fun v =>
         let '(x, z) := v in
         let h := sampleHeight noise2D x z halfSize in
         let elevation := h * 30 in
         ((x, elevation, z), getTerrainColor p h))
      vertices.

(** ** Chickens *)

Inductive ChickenState := idle | walking | pecking.

(** A chicken: the position of its group, the index of its body colour, its
    facing, and the animation state of [userData]. *)
Record Chicken := {
  chicken_position : vec3;
  chicken_color : Z;
  chicken_rotation_y : R;
  state : ChickenState;
  stateTimer : R;
  phase : R;
  targetX : R;
  targetZ : R;
  baseY : R
}.

Definition chickenCount (rng0 : Z) : Z := Math_floor (15 + fst (rng rng0) * 16).

Definition chickenStep (noise2D : R -> R -> R) (size : R)
    (acc : list Chicken * Z) : list Chicken * Z :=
  let '(chickenGroup, g) := acc in
  let halfSize := size / 2 in
  let '(r, g) := rng g in
  let x := (r - 0.5) * size * 0.8 in
  let '(r, g) := rng g in
  let z := (r - 0.5) * size * 0.8 in
  let h := sampleHeight noise2D x z halfSize in
  if Rltb h 0.13 || Rltb 0.43 h then (chickenGroup, g) else
  let elevation := h * 30 in
  let '(r, g) := rng g in
  let colorIdx := Math_floor (r * 5) in
  let '(r, g) := rng g in
  let facing := r * PI * 2 in
  let '(r1, g) := rng g in
  let '(r2, g) := rng g in
  (chickenGroup ++ [ {| chicken_position := (x, elevation, z);
                        chicken_color := colorIdx;
                        chicken_rotation_y := facing;
                        state := idle;
                        stateTimer := r1 * 3;
                        phase := r2 * PI * 2;
                        targetX := x;
                        targetZ := z;
                        baseY := elevation |} ], g).

Definition createChickens (noise2D : R -> R -> R) (rng0 : Z) (size : R)
    : list Chicken * Z :=
  let count := chickenCount rng0 in
  Nat.iter (Z.to_nat count) (chickenStep noise2D size) ([], snd (rng rng0)).


(** ** Clouds *)

Record Puff := {
  puff_radius : R;
  puff_position : vec3;
  puff_scale_y : R
}.

(** The inner loop of [createClouds]: [puffs] turns left. *)
Fixpoint puffLoop (cx cy cz : R) (puffs : nat) (g : Z) : list Puff * Z :=
  match puffs with
  | O => ([], g)
  | S puffs' =>
      let '(r, g) := rng g in
      let radius := 2 + r * 3 in
      let '(r1, g) := rng g in
      let '(r2, g) := rng g in
      let '(r3, g) := rng g in
      let '(r4, g) := rng g in
      let puff := {| puff_radius := radius;
                     puff_position := (cx + (r1 - 0.5) * 6,
                                       cy + (r2 - 0.5) * 1.5,
                                       cz + (r3 - 0.5) * 6);
                     puff_scale_y := 0.4 + r4 * 0.3 |} in
      let '(rest, g) := puffLoop cx cy cz puffs' g in
      (puff :: rest, g)
  end.

(** The outer loop: [clusters] turns left; the puffs of a cluster are kept
    together. *)
Fixpoint clusterLoop (size : R) (clusters : nat) (g : Z)
    : list (list Puff) * Z :=
  match clusters with
  | O => ([], g)
  | S clusters' =>
      let '(r, g) := rng g in
      let cx := (r - 0.5) * size * 1.2 in
      let '(r, g) := rng g in
      let cy := 28 + r * 15 in
      let '(r, g) := rng g in
      let cz := (r - 0.5) * size * 1.2 in
      let '(r, g) := rng g in
      let puffs := (3 + Math_floor (r * 5))%Z in
      let '(cluster, g) := puffLoop cx cy cz (Z.to_nat puffs) g in
      let '(rest, g) := clusterLoop size clusters' g in
      (cluster :: rest, g)
  end.

Definition clusterCount (rng0 : Z) : Z := Math_floor (15 + fst (rng rng0) * 10).

(** The children of the cloud group, cluster after cluster. *)
Definition createClouds (rng0 : Z) (size : R) : list Puff * Z :=
  let '(clusters, g) :=
    clusterLoop size (Z.to_nat (clusterCount rng0)) (snd (rng rng0)) in
  (concat clusters, g).

(** ** Water waves *)

(** The displacement [animateWater] adds to the base height of the vertex
    at [(x, z)] at time [time]. *)
Definition waveStrength (x z : R) : R :=
  let halfExtent := 120 in
  let dist := sqrt (x * x + z * z) / halfExtent in
  let terrainFalloff := Rmax 0 (1 - Math_pow (dist * 1.2) 3) in
  1 - terrainFalloff.

Definition wave (x z time : R) : R :=
  (sin (x * 0.08 + time * 1.2) * 0.15
   + sin (z * 0.06 + time * 0.9) * 0.12
   + sin ((x + z) * 0.05 + time * 1.5) * 0.08) * waveStrength x z.

(** [animateWater]: the new heights of the vertices [(x, z)], [baseY]
    being the stored base heights ([None]: no base heights, nothing is
    done). *)
Definition animateWater (vertices : list (R * R)) (baseY : option (list R))
    (time : R) : option (list R) :=
  match baseY with
  | None => None
  | Some base =>
      Some (map (fun vb => let '((x, z), y0) := vb in y0 + wave x z time)
                (combine vertices base))
  end.

(** ** What the other passes promise *)

Definition chickenPlaced (noise2D : R -> R -> R) (size : R) (c : Chicken)
    : Prop :=
  exists x z,
    (Rabs x <= 0.8 * (size / 2) /\ Rabs z <= 0.8 * (size / 2)) /\
    let h := sampleHeight noise2D x z (size / 2) in
    0.13 <= h <= 0.43 /\
    chicken_position c = (x, h * 30, z) /\ baseY c = h * 30 /\
    targetX c = x /\ targetZ c = z /\ state c = idle /\
    0 <= stateTimer c < 3 /\ (0 <= chicken_color c <= 4)%Z.

Definition puffPlaced (size : R) (p : Puff) : Prop :=
  let '(x, y, z) := puff_position p in
  2 <= puff_radius p < 5 /\ 0.4 <= puff_scale_y p < 0.7 /\
  27.25 <= y < 43.75 /\
  Rabs x <= 0.6 * size + 3 /\ Rabs z <= 0.6 * size + 3.

(** [x] lies between [a] and [b], whichever is the larger; a colour lies
    between two colours when each channel does. *)
Definition between (a b x : R) : Prop := Rmin a b <= x <= Rmax a b.

Definition colorBetween (c1 c2 c : Color) : Prop :=
  let '(r1, g1, b1) := c1 in
  let '(r2, g2, b2) := c2 in
  let '(r, g, b) := c in
  between r1 r2 r /\ between g1 g2 g /\ between b1 b2 b.



End Terrain.

(* ===================================================================== *)
(** * The landscape as the application holds it *)
(* ===================================================================== *)

Module Landscape.
Import Terrain.
Local Open Scope R_scope.

(** [createNoise2D(rng)] of the simplex-noise library: the noise function it
    builds and the closure [rng] after the calls it made. *)
Class NoiseLib := { createNoise2D : Z -> (R -> R -> R) * Z }.

(** The group [generateLandscape] returns: the data of [userData] and the
    decoration groups.  The terrain mesh, the water, the sky dome and what is
    scattered after the flowers are rendering objects no property below
    reads; they live and die with this record. *)
Record Landscape := {
  noise2D : R -> R -> R;
  size : R;
  trees : list Tree;
  rocks : list Rock;
  flowers : list Flower
}.

Definition generateLandscape `{NoiseLib} (seed : Z) : Landscape :=
  let g := mulberry32 seed in
  let '(noise2D, g) := createNoise2D g in
  let size := 200 in
  let '(trees, g) := createTrees noise2D g size in
  let '(rocks, g) := createRocks noise2D g size in
  let '(flowers, g) := createFlowers noise2D g size in
  {| noise2D := noise2D; size := size;
     trees := trees; rocks := rocks; flowers := flowers |}.

(** The chickens and the cloud puffs [generateLandscape] adds to the group
    after the flowers, drawn from the same generator ([createSkyDome],
    between the two, draws nothing). *)
Definition generateScenery `{NoiseLib} (seed : Z) : list Chicken * list Puff :=
  let g := mulberry32 seed in
  let '(noise2D, g) := createNoise2D g in
  let size := 200 in
  let '(_, g) := createTrees noise2D g size in
  let '(_, g) := createRocks noise2D g size in
  let '(_, g) := createFlowers noise2D g size in
  let '(chickens, g) := createChickens noise2D g size in
  let '(clouds, _) := createClouds g size in
  (chickens, clouds).

End Landscape.

(* ===================================================================== *)
(** * Block building and blueprints ([js/app.js]) *)
(* ===================================================================== *)

Module App.
Import Landscape.
Local Open Scope Q_scope.

(** ** Values of the host *)

(** What [JSON.parse] returns, for texts whose number literals lie within
    the range of a double (a literal beyond it is read as an infinity,
    which these values do not hold). *)
#[local] Set Warnings "-register-all".
Inductive json :=
| JNull
| JBool (b : bool)
| JNum (q : Q)
| JStr (s : string)
| JArr (items : list json)
| JObj (fields : list (string * json)).
#[local] Set Warnings "register-all".

(** The host functions [app.js] calls: the conversion of a number to a
    string inside a template literal, [JSON.parse] ([None] when it throws),
    and the downward ray cast of [getTerrainHeight] onto the terrain mesh
    (the height of the first hit, if any). *)
Class Host := {
  Number_toString : Q -> string;
  JSON_parse : string -> option json;
  terrainHit : Landscape -> Q -> Q -> option Q
}.

(** [Math.round]: the nearest integer, a tie going up. *)
Definition Math_round (q : Q) : Q := inject_Z (Qfloor (q + (1 # 2))).

Definition Math_max (a b : Q) : Q := if Qlt_le_dec a b then b else a.
Definition Math_min (a b : Q) : Q := if Qlt_le_dec b a then b else a.

(** ** State of the application *)

Definition vec3 : Type := Q * Q * Q.

(** A placed block: a mesh with its [userData].  [material] is the index
    into [blockMaterials] the mesh was built with. *)
Record Mesh := {
  position : vec3;
  material : Q;
  isBlock : bool;
  mesh_blockKey : string
}.

(** A blueprint entry [{x, y, z, type}]. *)
Record Block := { b_x : Q; b_y : Q; b_z : Q; b_type : Q }.

(** The ghost group of the active blueprint: its position and, per child,
    the position and the block type. *)
Record Group := { group_position : vec3; ghosts : list (vec3 * Q) }.

Record State := {
  selectedSlot : Q;
  blockGroup : list Mesh;
  placedBlocks : gmap string Mesh;
  blueprintBlocks : list Block;
  blueprintGroup : option Group;
  blueprintRotation : nat;
  blueprintActive : bool;
  fpMode : bool;
  cameraPosition : vec3;
  currentLandscape : option Landscape;
  currentSeed : option Z
}.

Definition set_selectedSlot (v : Q) (s : State) : State :=
  {| selectedSlot := v; blockGroup := blockGroup s;
     placedBlocks := placedBlocks s; blueprintBlocks := blueprintBlocks s;
     blueprintGroup := blueprintGroup s;
     blueprintRotation := blueprintRotation s;
     blueprintActive := blueprintActive s; fpMode := fpMode s;
     cameraPosition := cameraPosition s;
     currentLandscape := currentLandscape s; currentSeed := currentSeed s |}.

Definition set_blocks (g : list Mesh) (m : gmap string Mesh) (s : State)
    : State :=
  {| selectedSlot := selectedSlot s; blockGroup := g; placedBlocks := m;
     blueprintBlocks := blueprintBlocks s;
     blueprintGroup := blueprintGroup s;
     blueprintRotation := blueprintRotation s;
     blueprintActive := blueprintActive s; fpMode := fpMode s;
     cameraPosition := cameraPosition s;
     currentLandscape := currentLandscape s; currentSeed := currentSeed s |}.

Definition set_blueprint (bs : list Block) (g : option Group) (r : nat)
    (active : bool) (s : State) : State :=
  {| selectedSlot := selectedSlot s; blockGroup := blockGroup s;
     placedBlocks := placedBlocks s; blueprintBlocks := bs;
     blueprintGroup := g; blueprintRotation := r; blueprintActive := active;
     fpMode := fpMode s; cameraPosition := cameraPosition s;
     currentLandscape := currentLandscape s; currentSeed := currentSeed s |}.

Definition set_camera (fp : bool) (p : vec3) (s : State) : State :=
  {| selectedSlot := selectedSlot s; blockGroup := blockGroup s;
     placedBlocks := placedBlocks s; blueprintBlocks := blueprintBlocks s;
     blueprintGroup := blueprintGroup s;
     blueprintRotation := blueprintRotation s;
     blueprintActive := blueprintActive s; fpMode := fp;
     cameraPosition := p;
     currentLandscape := currentLandscape s; currentSeed := currentSeed s |}.

Definition set_landscape (l : option Landscape) (seed : option Z) (s : State)
    : State :=
  {| selectedSlot := selectedSlot s; blockGroup := blockGroup s;
     placedBlocks := placedBlocks s; blueprintBlocks := blueprintBlocks s;
     blueprintGroup := blueprintGroup s;
     blueprintRotation := blueprintRotation s;
     blueprintActive := blueprintActive s; fpMode := fpMode s;
     cameraPosition := cameraPosition s;
     currentLandscape := l; currentSeed := seed |}.

(** The state when the script has run its declarations, before the first
    [generate()]. *)
Definition initialState : State :=
  {| selectedSlot := 0; blockGroup := []; placedBlocks := ∅;
     blueprintBlocks := []; blueprintGroup := None; blueprintRotation := 0;
     blueprintActive := false; fpMode := false;
     cameraPosition := (60, 40, 60);
     currentLandscape := None; currentSeed := None |}.

(** ** Block world *)

Section BlockWorld.
Context `{Host}.

Definition blockKey (x y z : Q) : string :=
  Number_toString x +:+ "," +:+ Number_toString y +:+ "," +:+ Number_toString z.

Definition placeBlock (gx gy gz : Q) (s : State) : State :=
  let key := blockKey gx gy gz in
  match placedBlocks s !! key with
  | Some _ => s
  | None =>
      let mesh := {| position := (gx, gy, gz); material := selectedSlot s;
                     isBlock := true; mesh_blockKey := key |} in
      set_blocks (blockGroup s ++ [mesh]) (<[key := mesh]> (placedBlocks s)) s
  end.

(** [removeBlock(mesh)] for a mesh that is not null, as the mouse handler
    calls it: on a child of the group, which [getAimTarget] found by a ray
    cast at the children.  The group holds one mesh per key, so the child
    that is this mesh is the child with its key.  (For a mesh that is not
    a child the source leaves the group as it is.) *)
Definition removeBlock (mesh : Mesh) (s : State) : State :=
  if negb (isBlock mesh) then s else
  let key := mesh_blockKey mesh in
  set_blocks
    (filter (fun m => negb (String.eqb (mesh_blockKey m) key)) (blockGroup s))
    (delete key (placedBlocks s)) s.

Definition clearAllBlocks (s : State) : State := set_blocks [] ∅ s.

Definition getTerrainHeight (s : State) (x z : Q) : Q :=
  match currentLandscape s with
  | None => 0
  | Some l => match terrainHit l x z with Some y => y | None => 0 end
  end.

End BlockWorld.

(** ** Blueprints *)

(** 90 degrees clockwise around the Y axis: [(x, z) -> (-z, x)]. *)
Definition rotateBlocksCW (blocks : list Block) : list Block :=
  map (fun b => {| b_x := - b_z b; b_y := b_y b; b_z := b_x b;
                   b_type := b_type b |}) blocks.

Definition getRotatedBlocks (s : State) : list Block :=
  Nat.iter (blueprintRotation s) rotateBlocksCW (blueprintBlocks s).

(** A new group sits at the origin; [updateBlueprint] moves it every frame
    to the grid column ahead of the camera. *)
Definition createBlueprintGroup (blocks : list Block) : Group :=
  {| group_position := (0, 0, 0);
     ghosts := map (fun b => ((b_x b + (1 # 2), b_y b + (1 # 2),
                               b_z b + (1 # 2)), b_type b)) blocks |}.

Definition rebuildBlueprintGroup (s : State) : State :=
  if negb (blueprintActive s) then s else
  let pos := match blueprintGroup s with
             | Some g => group_position g
             | None => (0, 0, 0)
             end in
  let rotated := getRotatedBlocks s in
  set_blueprint (blueprintBlocks s)
    (Some {| group_position := pos;
             ghosts := ghosts (createBlueprintGroup rotated) |})
    (blueprintRotation s) (blueprintActive s) s.

(** The keys Q (counter-clockwise) and E (clockwise) while a blueprint is
    active. *)
Definition onKeyRotate (clockwise : bool) (s : State) : State :=
  if negb (fpMode s && blueprintActive s) then s else
  let r := ((blueprintRotation s + (if clockwise then 1 else 3)) mod 4)%nat in
  rebuildBlueprintGroup
    (set_blueprint (blueprintBlocks s) (blueprintGroup s) r
                   (blueprintActive s) s).

Definition cancelBlueprint (s : State) : State :=
  if negb (blueprintActive s) then s else
  set_blueprint [] None 0 false s.

Definition EYE_HEIGHT : Q := 5 # 2.

Section Modes.
Context `{Host}.

Definition enterFPMode (s : State) : State :=
  let startX := 20 in
  let startZ := 20 in
  let groundY := getTerrainHeight s startX startZ in
  set_camera true (startX, Math_max groundY (5 # 2) + EYE_HEIGHT, startZ) s.

Definition exitFPMode (s : State) : State :=
  set_camera false (60, 40, 60) (cancelBlueprint (set_camera false (cameraPosition s) s)).

Definition activateBlueprint (blocks : list Block) (s : State) : State :=
  let s := set_blueprint blocks (blueprintGroup s) 0 true s in
  let s := if negb (fpMode s) then enterFPMode s else s in
  let rotated := getRotatedBlocks s in
  set_blueprint (blueprintBlocks s) (Some (createBlueprintGroup rotated))
                (blueprintRotation s) (blueprintActive s) s.

(** One turn of the loop of [placeBlueprint]. *)
Definition stampBlock (origin : vec3) (s : State) (b : Block) : State :=
  let '(ox, oy, oz) := origin in
  let wx := ox + b_x b + (1 # 2) in
  let wy := oy + b_y b + (1 # 2) in
  let wz := oz + b_z b + (1 # 2) in
  placeBlock wx wy wz (set_selectedSlot (b_type b) s).

Definition placeBlueprint (s : State) : State :=
  if negb (blueprintActive s) then s else
  match blueprintGroup s with
  | None => s
  | Some g =>
      let rotated := getRotatedBlocks s in
      let origin := group_position g in
      let savedSlot := selectedSlot s in
      let s := fold_left (stampBlock origin) rotated s in
      cancelBlueprint (set_selectedSlot savedSlot s)
  end.

End Modes.

(** ** Ingestion of a generated structure ([generateStructure]) *)

(** *** String operations of the host, on ASCII text *)

Definition isSpace (c : ascii) : bool :=
  let n := nat_of_ascii c in
  (((9 <=? n) && (n <=? 13)) || (n =? 32))%nat.

Fixpoint trimStart (s : string) : string :=
  match s with
  | String c s' => if isSpace c then trimStart s' else s
  | EmptyString => EmptyString
  end.

Definition reverse (s : string) : string :=
  string_of_list_ascii (rev (list_ascii_of_string s)).

Definition trim (s : string) : string :=
  reverse (trimStart (reverse (trimStart s))).

(** [text.indexOf(pat)]; [None] is [-1]. *)
Fixpoint indexOf (pat text : string) : option nat :=
  if String.prefix pat text then Some 0%nat
  else match text with
       | EmptyString => None
       | String _ rest => option_map S (indexOf pat rest)
       end.

(** [text.lastIndexOf(pat)]; [None] is [-1]. *)
Fixpoint lastIndexOf (pat text : string) : option nat :=
  match text with
  | EmptyString => if String.prefix pat text then Some 0%nat else None
  | String _ rest =>
      match lastIndexOf pat rest with
      | Some i => Some (S i)
      | None => if String.prefix pat text then Some 0%nat else None
      end
  end.

(** [text.slice(from, to)] for [0 <= from <= to]. *)
Definition slice (from to : nat) (text : string) : string :=
  substring from (to - from) text.

Fixpoint allSpace (s : string) : bool :=
  match s with
  | EmptyString => true
  | String c s' => isSpace c && allSpace s'
  end.

(** [s.replace(/,\s*$/, '')]: the first comma with only white space after
    it is cut off with what follows. *)
Fixpoint stripTrailingComma (s : string) : string :=
  match s with
  | EmptyString => EmptyString
  | String c rest =>
      if Ascii.eqb c "," && allSpace rest then EmptyString
      else String c (stripTrailingComma rest)
  end.

Definition toLower (c : ascii) : ascii :=
  let n := nat_of_ascii c in
  if ((65 <=? n) && (n <=? 90))%nat then ascii_of_nat (n + 32) else c.

Fixpoint lowerCase (s : string) : string :=
  match s with
  | EmptyString => EmptyString
  | String c s' => String (toLower c) (lowerCase s')
  end.

(** The first capture group of [text.match(/```(?:json)?\s*([\s\S]*?)```/i)]:
    after the first fence, an optional "json" in any case and all the white
    space that follows are skipped, and the group runs up to the next
    fence.  (A fence cannot start inside what is skipped, so backtracking
    finds no other match.) *)
Definition fenceMatch (text : string) : option string :=
  match indexOf "```" text with
  | None => None
  | Some i =>
      let rest := substring (i + 3) (String.length text) text in
      let rest := if String.prefix "json" (lowerCase (substring 0 4 rest))
                  then substring 4 (String.length rest) rest else rest in
      let rest := trimStart rest in
      match indexOf "```" rest with
      | None => None
      | Some j => Some (substring 0 j rest)
      end
  end.

(** *** Parsing and validation *)

(** Values that count as true in a condition; [None] is [undefined]. *)
Definition truthy (v : option json) : bool :=
  match v with
  | None | Some JNull => false
  | Some (JBool b) => b
  | Some (JNum q) => negb (Qeq_bool q 0)
  | Some (JStr s) => negb (String.eqb s EmptyString)
  | Some (JArr _) | Some (JObj _) => true
  end.

Fixpoint lookupField (k : string) (fields : list (string * json))
    : option json :=
  match fields with
  | [] => None
  | (k', v) :: rest => if String.eqb k k' then Some v else lookupField k rest
  end.

(** [b.k] for a value [b] that is not null ([None] is [undefined]): only an
    object has a property named x, y, z or type. *)
Definition prop (b : json) (k : string) : option json :=
  match b with
  | JObj fields => lookupField k fields
  | _ => None
  end.

(** The reasons [generateStructure] returns null for, one per call of
    [showAiError]; [Exception] is the outer [catch]. *)
Inductive AiError :=
| MissingApiKey
| ApiError
| NoResponse
| ParseFailure
| NoBlocksGenerated
| NoValidBlocks
| Exception.

Inductive Outcome :=
| Rejected (e : AiError)
| Accepted (blocks : list Block).

(** The type of an entry: [b.type] rounded and clamped when it is a number,
    Stone otherwise. *)
Definition entryType (t : option json) : Q :=
  match t with
  | Some (JNum q) => Math_max 0 (Math_min 5 (Math_round q))
  | _ => 2
  end.

(** The loop [for (const b of blocks)] on the entries left, [validated]
    being the array built so far.  [None]: reading [b.x] of null threw a
    TypeError. *)
Fixpoint validateLoop (blocks : list json) (validated : list Block)
    : option (list Block) :=
  match blocks with
  | [] => Some validated
  | JNull :: _ => None
  | b :: rest =>
      match prop b "x", prop b "y", prop b "z" with
      | Some (JNum x), Some (JNum y), Some (JNum z) =>
          let validated :=
            validated ++ [ {| b_x := Math_round x; b_y := Math_round y;
                              b_z := Math_round z;
                              b_type := entryType (prop b "type") |} ] in
          if (500 <=? length validated)%nat then Some validated
          else validateLoop rest validated
      | _, _, _ => validateLoop rest validated
      end
  end.

(** From [if (!Array.isArray(blocks) || blocks.length === 0)] to
    [return validated], inside the outer [try]. *)
Definition validateBlocks (blocks : json) : Outcome :=
  match blocks with
  | JArr (b :: rest) =>
      match validateLoop (b :: rest) [] with
      | None => Rejected Exception
      | Some [] => Rejected NoValidBlocks
      | Some validated => Accepted validated
      end
  | _ => Rejected NoBlocksGenerated
  end.

(** The reply of the service: the request failed, the status was not ok, or
    [data] arrived with [data.content?.[0]?.text] and [data.stop_reason]. *)
Inductive ApiReply :=
| FetchFailed
| NotOk
| Data (text : option string) (stop_reason : string).

Section Ingestion.
Context `{Host}.

(** The salvage of a reply cut at [max_tokens]. *)
Definition salvage (text : string) : string :=
  match lastIndexOf "}" text with
  | Some lastBrace =>
      stripTrailingComma (substring 0 (lastBrace + 1) text) +:+ "]"
  | None => text
  end.

(** The permissive parse: the whole text, then a fenced block, then the
    outermost brackets.  [None]: 'Failed to parse structure JSON'. *)
Definition parseBlocks (text : string) : option json :=
  match JSON_parse (trim text) with
  | Some blocks => Some blocks
  | None =>
      let blocks : option json := None in
      let blocks :=
        match fenceMatch text with
        | Some body =>
            match JSON_parse (trim body) with
            | Some v => Some v
            | None => blocks
            end
        | None => blocks
        end in
      let blocks :=
        if truthy blocks then blocks else
        match indexOf "[" text, lastIndexOf "]" text with
        | Some bracketStart, Some bracketEnd =>
            if (bracketStart <? bracketEnd)%nat then
              match JSON_parse (slice bracketStart (bracketEnd + 1) text) with
              | Some v => Some v
              | None => blocks
              end
            else blocks
        | _, _ => blocks
        end in
      if truthy blocks then blocks else None
  end.

Definition generateStructure (apiKey : option string) (reply : ApiReply)
    : Outcome :=
  match apiKey with
  | None | Some EmptyString => Rejected MissingApiKey
  | Some _ =>
      match reply with
      | FetchFailed => Rejected Exception
      | NotOk => Rejected ApiError
      | Data None _ | Data (Some EmptyString) _ => Rejected NoResponse
      | Data (Some text) stop_reason =>
          let text := if String.eqb stop_reason "max_tokens"
                      then salvage text else text in
          match parseBlocks text with
          | None => Rejected ParseFailure
          | Some blocks => validateBlocks blocks
          end
      end
  end.

(** The click on Build, once the reply is there. *)
Definition onBuildClick (prompt : string) (apiKey : option string)
    (reply : ApiReply) (s : State) : State :=
  match trim prompt with
  | EmptyString => s
  | _ =>
      match generateStructure apiKey reply with
      | Accepted blocks => activateBlueprint blocks s
      | Rejected _ => s
      end
  end.

End Ingestion.

(** ** Regeneration *)

Definition disposeLandscape (s : State) : State :=
  match currentLandscape s with
  | None => s
  | Some _ => set_landscape None (currentSeed s) s
  end.

Section Regeneration.
Context `{Host} `{NoiseLib}.

(** [generate(seed)]; [seed] is [None] when the argument is left out, and
    [random] is then what [Math.random()] returns. *)
Definition generate (seed : option Z) (random : Q) (s : State) : State :=
  let seed := match seed with
              | Some v => v
              | None => Qfloor (random * 2147483647)
              end in
  let s := set_landscape (currentLandscape s) (Some seed) s in
  let s := if fpMode s then exitFPMode s else s in
  let s := disposeLandscape s in
  let s := clearAllBlocks s in
  set_landscape (Some (generateLandscape seed)) (currentSeed s) s.

Definition applySeedInput (input : Seed.jsstring) (s : State) : State :=
  match Seed.applySeedInput_seed input with
  | None => s
  | Some seed => generate (Some seed) 0 s
  end.

End Regeneration.

(** ** Aiming, the hotbar and the mouse *)

Definition Qltb (a b : Q) : bool := if Qlt_le_dec a b then true else false.

Definition snapToGrid (v : Q) : Q := inject_Z (Qfloor v) + (1 # 2).

(** What the aim ray hit first: a placed block ([hit_block] is the mesh) or
    the terrain; the normal of the face hit, in world space (after
    [transformDirection]); the point hit. *)
Record Hit := {
  hit_block : option Mesh;
  hit_normal : vec3;
  hit_point : vec3
}.

Definition getPlacementPos (hit : Hit) : vec3 :=
  match hit_block hit with
  | Some object =>
      let '(ox, oy, oz) := position object in
      let '(nx, ny, nz) := hit_normal hit in
      (inject_Z (Qfloor ox) + (1 # 2) + Math_round nx,
       inject_Z (Qfloor oy) + (1 # 2) + Math_round ny,
       inject_Z (Qfloor oz) + (1 # 2) + Math_round nz)
  | None =>
      let '(px, py, pz) := hit_point hit in
      (snapToGrid px, snapToGrid py, snapToGrid pz)
  end.

(** [THREE.MathUtils.clamp(value, min, max)] *)
Definition clamp (value lo hi : Q) : Q := Math_max lo (Math_min hi value).

(** Number of entries of [BLOCK_TYPES]. *)
Definition BLOCK_TYPES_length : Q := 6.

Definition selectSlot (idx : Q) (s : State) : State :=
  set_selectedSlot (clamp idx 0 (BLOCK_TYPES_length - 1)) s.

(** The integer part, rounding towards zero. *)
Definition Qtrunc (q : Q) : Z :=
  if Qlt_le_dec q 0 then Qceiling q else Qfloor q.

(** [a % b] for [b] not zero: the remainder has the sign of [a]. *)
Definition js_rem (a b : Q) : Q := a - b * inject_Z (Qtrunc (a / b)).

(** The wheel handler: one slot forward when [deltaY > 0], one back
    otherwise, around the hotbar. *)
Definition onWheel (deltaY : Q) (s : State) : State :=
  if negb (fpMode s) then s else
  let dir := if Qltb 0 deltaY then 1 else - (1) in
  selectSlot (js_rem (selectedSlot s + dir + BLOCK_TYPES_length)
                     BLOCK_TYPES_length) s.

(** The arithmetic of doubles where a result is rounded: the sum, the
    difference and the product of two numbers as the host computes them. *)
Class Float64 := {
  Number_add : Q -> Q -> Q;
  Number_sub : Q -> Q -> Q;
  Number_mul : Q -> Q -> Q
}.

Section Pointer.
Context `{Host} `{Float64}.

(** [updateBlueprint()], [forward] being the horizontal unit vector of the
    camera direction ([getWorldDirection], [y = 0], [normalize]). *)
Definition updateBlueprint (forward : Q * Q) (s : State) : State :=
  if negb (blueprintActive s) then s else
  match blueprintGroup s with
  | None => s
  | Some g =>
      let '(cx, cy, cz) := cameraPosition s in
      let targetX := Math_round (cx + fst forward * 8) in
      let targetZ := Math_round (cz + snd forward * 8) in
      let groundY := getTerrainHeight s targetX targetZ in
      let waterLevel := 2 in
      let baseY := Math_max groundY waterLevel in
      let targetY := Math_round baseY in
      set_blueprint (blueprintBlocks s)
        (Some {| group_position := (targetX, targetY, targetZ);
                 ghosts := ghosts g |})
        (blueprintRotation s) (blueprintActive s) s
  end.

(** The [mousedown] handler: [locked] is [fpControls.isLocked], [button]
    the mouse button, [aim] the result of [getAimTarget()]. *)
Definition onMouseDown (locked : bool) (button : Z) (aim : option Hit)
    (s : State) : State :=
  if negb (fpMode s && locked) then s else
  if blueprintActive s then
    if (button =? 0)%Z then placeBlueprint s
    else if (button =? 2)%Z then cancelBlueprint s
    else s
  else
    match aim with
    | None => s
    | Some hit =>
        if (button =? 0)%Z then
          let '(px, py, pz) := getPlacementPos hit in
          let '(cx, cy, cz) := cameraPosition s in
          let dx := Number_sub px cx in
          let dy := Number_sub py cy in
          let dz := Number_sub pz cz in
          if Qltb (Qabs dx) (4 # 5) && Qltb (Qabs dz) (4 # 5)
             && Qltb (- (2)) dy && Qltb dy (1 # 2)
          then s
          else placeBlock px py pz s
        else if (button =? 2)%Z then
          match hit_block hit with
          | Some object => if isBlock object then removeBlock object s else s
          | None => s
          end
        else s
    end.

End Pointer.

(** ** The first-person camera, frame by frame *)

Section Frame.
Context `{Host} `{Float64}.

(** One frame of [animate()], as far as the state goes.  In first-person
    mode with the pointer locked ([locked] is [fpControls.isLocked]) the
    camera walks: [velocity] holds the horizontal components of
    [fpVelocity] when a movement key is held (its vertical component is 0,
    [forward] and [right] being horizontal), [forward] is the direction
    [updateBlueprint] reads, [delta] the time since the last frame.
    Otherwise [orbitControls.update()] runs, and [orbit] is where it leaves
    the camera. *)
Definition animateCamera (locked : bool) (velocity : option (Q * Q))
    (forward : Q * Q) (delta : Q) (orbit : vec3) (s : State) : State :=
  if fpMode s && locked then
    let '(x, y, z) := cameraPosition s in
    let '(x, z) := match velocity with
                   | Some (vx, vz) => (Number_add x vx, Number_add z vz)
                   | None => (x, z)
                   end in
    let halfBound := 95 in
    let x := clamp x (- halfBound) halfBound in
    let z := clamp z (- halfBound) halfBound in
    let groundY := getTerrainHeight s x z in
    let waterLevel := 2 in
    let floorY := Math_max groundY waterLevel in
    let targetY := Number_add floorY EYE_HEIGHT in
    let y := Number_add y (Number_mul (Number_sub targetY y)
                                      (Math_min 1 (Number_mul delta 8))) in
    updateBlueprint forward (set_camera (fpMode s) (x, y, z) s)
  else set_camera (fpMode s) orbit s.

End Frame.

(** ** Invariants of the state *)

(** The map and the group of meshes hold the same blocks: the keys of the
    meshes of the group are distinct, and a key is bound to a mesh exactly
    when that mesh is in the group and carries the key. *)
Definition consistent (s : State) : Prop :=
  NoDup (mesh_blockKey <$> blockGroup s)
  /\ forall (k : string) (m : Mesh),
       placedBlocks s !! k = Some m <-> m ∈ blockGroup s /\ mesh_blockKey m = k.

(** The rotation step is one of 0..3, and a blueprint is only active in
    first-person mode, with its ghost group in the scene. *)
Definition blueprintModeOk (s : State) : Prop :=
  (blueprintRotation s < 4)%nat
  /\ (blueprintActive s = true ->
      fpMode s = true /\ is_Some (blueprintGroup s)).

(** The world position [placeBlueprint] gives the block [b] of a blueprint
    anchored at [origin], and the key of a position. *)
Definition blueprintCell (origin : vec3) (b : Block) : vec3 :=
  let '(ox, oy, oz) := origin in
  (ox + b_x b + (1 # 2), oy + b_y b + (1 # 2), oz + b_z b + (1 # 2)).


(** What the validation makes of one entry that is not null: [None] when
    x, y or z is not a number. *)
Definition acceptedEntry (b : json) : option Block :=
  match prop b "x", prop b "y", prop b "z" with
  | Some (JNum x), Some (JNum y), Some (JNum z) =>
      Some {| b_x := Math_round x; b_y := Math_round y; b_z := Math_round z;
              b_type := entryType (prop b "type") |}
  | _, _, _ => None
  end.

(** A block that the validation made of one of the entries [items]. *)
Definition fromEntry (items : list json) (e : Block) : Prop :=
  exists b : json, b ∈ items /\ acceptedEntry b = Some e.

(** The exclusion box around the viewer, shrunk by the factor 1/(1+u):
    for [u = 0], [p] is closer than 0.8 to the camera along x and z, and
    between 2 below and 0.5 above it. *)
Definition insideViewerBox (u : Q) (camera p : vec3) : Prop :=
  let '(cx, cy, cz) := camera in
  let '(px, py, pz) := p in
  (1 + u) * Qabs (px - cx) < 4 # 5 /\ (1 + u) * Qabs (pz - cz) < 4 # 5
  /\ - (2) < (1 + u) * (py - cy) /\ (1 + u) * (py - cy) < 1 # 2.

(** The three differences the mouse handler takes between [p] and the
    camera are within the relative error [u] of the exact ones (for
    doubles, [u] is 2^-53). *)
Definition roundsWithin `{Float64} (u : Q) (camera p : vec3) : Prop :=
  let '(cx, cy, cz) := camera in
  let '(px, py, pz) := p in
  Qabs (Number_sub px cx - (px - cx)) <= u * Qabs (px - cx)
  /\ Qabs (Number_sub py cy - (py - cy)) <= u * Qabs (py - cy)
  /\ Qabs (Number_sub pz cz - (pz - cz)) <= u * Qabs (pz - cz).

(** What [getAimTarget] returns is a hit of the ray on a child of the block
    group or on the terrain: a block it reports is a mesh of the group. *)
Definition aimInGroup (s : State) (aim : option Hit) : Prop :=
  forall (hit : Hit) (m : Mesh),
    aim = Some hit -> hit_block hit = Some m -> m ∈ blockGroup s.

(** A block type among 0..5. *)
Definition typeInRange (b : Block) : Prop :=
  exists t : Z, b_type b = inject_Z t /\ (0 <= t <= 5)%Z.

End App.

(* ===================================================================== *)
(** * Time of day ([js/app.js]) *)
(* ===================================================================== *)

Module DayCycle.
Import Terrain.
Local Open Scope R_scope.

(** [THREE.MathUtils.clamp(value, min, max)] *)
Definition clamp (value min max : R) : R := Rmax min (Rmin max value).

(** [color.lerpColors(c1, c2, alpha)]: no clamping of [alpha]. *)
Definition lerpColors (c1 c2 : Color) (alpha : R) : Color :=
  let '(r1, g1, b1) := c1 in
  let '(r2, g2, b2) := c2 in
  (r1 + (r2 - r1) * alpha, g1 + (g2 - g1) * alpha, b1 + (b2 - b1) * alpha).

(** The five colours [new THREE.Color(0x...)] of [updateTimeOfDay]. *)
Record SkyPalette := {
  lowSunColor : Color;
  highSunColor : Color;
  dayFog : Color;
  sunsetFog : Color;
  nightFog : Color
}.

(** What [updateTimeOfDay] sets: the sun light, the hemisphere and ambient
    lights, the fog, the bloom pass and the renderer's exposure. *)
Record Lighting := {
  sunPosition : vec3;
  sunIntensity : R;
  sunColor : Color;
  hemiIntensity : R;
  ambientIntensity : R;
  fogColor : Color;
  bloomStrength : R;
  toneMappingExposure : R
}.

Definition sunY (t : R) : R :=
  let sunAngle := (t - 0.25) * PI in
  sin sunAngle * 80.

Definition dayFactor (t : R) : R := clamp (sunY t / 80) 0 1.

(** [updateTimeOfDay(t)]; the repainting of the sky dome of the current
    landscape, which touches none of these, is left out. *)
Definition updateTimeOfDay (p : SkyPalette) (t : R) : Lighting :=
  let sunAngle := (t - 0.25) * PI in
  let sunXZ := cos sunAngle * 80 in
  let dayFactor := dayFactor t in
  let fog :=
    if Rltb t 0.2 || Rltb 0.9 t then nightFog p
    else if Rltb t 0.3 then
      lerpColors (nightFog p) (sunsetFog p) ((t - 0.2) / 0.1)
    else if Rltb t 0.45 then
      lerpColors (sunsetFog p) (dayFog p) ((t - 0.3) / 0.15)
    else if Rltb t 0.7 then dayFog p
    else if Rltb t 0.8 then
      lerpColors (dayFog p) (sunsetFog p) ((t - 0.7) / 0.1)
    else lerpColors (sunsetFog p) (nightFog p) ((t - 0.8) / 0.1) in
  let isLowSun :=
    (Rltb 0.2 t && Rltb t 0.35) || (Rltb 0.7 t && Rltb t 0.85) in
  {| sunPosition := (sunXZ, Rmax (sunY t) (-10), 40);
     sunIntensity := 0.1 + dayFactor * 1.7;
     sunColor := lerpColors (lowSunColor p) (highSunColor p) dayFactor;
     hemiIntensity := 0.05 + dayFactor * 0.5;
     ambientIntensity := 0.15 + (1 - dayFactor) * 0.15;
     fogColor := fog;
     bloomStrength :=
       if isLowSun then 0.6 else if Rltb dayFactor 0.2 then 0.15 else 0.25;
     toneMappingExposure := 0.4 + dayFactor * 0.8 |}.


End DayCycle.

(* ===================================================================== *)
(** * Concrete hosts and inputs for the examples *)
(* ===================================================================== *)

Module Sample.
Import Terrain Landscape App.

(** A noise function that is 0 everywhere, and a library that builds it
    without drawing from the generator. *)
Definition flatNoise : R -> R -> R := fun _ _ => 0%R.

Definition flatNoiseLib : NoiseLib :=
  {| createNoise2D := fun g => (flatNoise, g) |}.

(** Decimal text of an integer or of a half; any other rational is written
    as a fraction. *)
Definition showNumber (q : Q) : string :=
  let n := Qnum q in
  let d := Qden q in
  if (d =? 1)%positive then pretty n
  else if (d =? 2)%positive && Z.odd n then
    (if (n <? 0)%Z then "-" else EmptyString)
      +:+ pretty (Z.abs n / 2)%Z +:+ ".5"
  else pretty n +:+ "/" +:+ pretty (Zpos d).

(** A host whose parser accepts no text and whose ray cast hits nothing. *)
Definition sampleHost : Host :=
  {| Number_toString := showNumber;
     JSON_parse := fun _ => None;
     terrainHit := fun _ _ _ => None |}.

(** Arithmetic without rounding. *)
Definition exactArithmetic : Float64 :=
  {| Number_add := Qplus; Number_sub := Qminus; Number_mul := Qmult |}.




(** A world with one Grass block at the cell centre (5.5, 3.5, 5.5). *)
Definition oneBlockWorld : State :=
  @placeBlock sampleHost (11 # 2) (7 # 2) (11 # 2)
    (set_selectedSlot 1 initialState).

(** The mesh of that block, and the same world entered in first-person
    mode. *)
Definition grassBlock : Mesh :=
  {| position := (11 # 2, 7 # 2, 11 # 2)%Q; material := 1; isBlock := true;
     mesh_blockKey := "5.5,3.5,5.5" |}.

Definition walkingBlockWorld : State := @enterFPMode sampleHost oneBlockWorld.

(** The parsed reply [[{"x":0,"y":0,"z":0,"type":1}, null]]. *)
Definition replyWithNull : json :=
  JArr [ JObj [("x", JNum 0); ("y", JNum 0); ("z", JNum 0); ("type", JNum 1)];
         JNull ].

(** A state in first-person mode with a two-block blueprint active, and a
    state in first-person mode with the last hotbar slot selected. *)
Definition blueprintWorld : State :=
  @activateBlueprint sampleHost
    [ {| b_x := 0; b_y := 0; b_z := 0; b_type := 2 |};
      {| b_x := 1; b_y := 0; b_z := 0; b_type := 3 |} ]
    initialState.

Definition walkingWorld : State :=
  set_selectedSlot 5 (@enterFPMode sampleHost initialState).

(** The aim ray on the east face of the block of [oneBlockWorld]. *)
Definition eastFaceHit : Hit :=
  {| hit_block := Some {| position := (11 # 2, 7 # 2, 11 # 2)%Q;
                          material := 1;
                          isBlock := true;
                          mesh_blockKey := "5.5,3.5,5.5" |};
     hit_normal := (1, 0, 0)%Q;
     hit_point := (6, 15 # 4, 21 # 4)%Q |}.

(** A parsed reply with one entry that is not a block and one that is. *)
Definition mixedReply : list json :=
  [ JNum 7;
    JObj [("x", JNum (5 # 2)); ("y", JNum 0); ("z", JNum (- (1))%Q);
          ("type", JNum 9)] ].

(** Stand-ins for the colours of [getTerrainColor] and [updateTimeOfDay]
    (the channels THREE.js derives from the hexadecimal codes). *)
Definition terrainPalette : Palette :=
  {| sand := (0.76, 0.70, 0.50)%R; grass := (0.29, 0.49, 0.25)%R;
     rock := (0.42, 0.42, 0.42)%R; snow := (0.94, 0.94, 0.94)%R |}.

Definition skyPalette : DayCycle.SkyPalette :=
  {| DayCycle.lowSunColor := (1, 0.53, 0.27)%R;
     DayCycle.highSunColor := (1, 0.96, 0.88)%R;
     DayCycle.dayFog := (0.53, 0.81, 0.92)%R;
     DayCycle.sunsetFog := (1, 0.6, 0.4)%R;
     DayCycle.nightFog := (0.04, 0.04, 0.09)%R |}.



End Sample.

(* ===================================================================== *)
(** * Properties of the seed hash *)
(* ===================================================================== *)

Module SeedProps.
Import Int32 Seed.
Local Open Scope Z_scope.

Lemma toInt32_mod (z : Z) : toInt32 z mod 2 ^ 32 = z mod 2 ^ 32.
Proof.
  unfold toInt32.
  rewrite Zminus_mod, Z.mod_mod by lia.
  rewrite <- Zminus_mod. f_equal. lia.
Qed.

Lemma toInt32_congr (a b : Z) :
  a mod 2 ^ 32 = b mod 2 ^ 32 -> toInt32 a = toInt32 b.
Proof.
  intros E. unfold toInt32.
  rewrite (Zplus_mod a), (Zplus_mod b), E. reflexivity.
Qed.

Lemma toInt32_range (z : Z) : - 2 ^ 31 <= toInt32 z < 2 ^ 31.
Proof.
  unfold toInt32. pose proof (Z.mod_pos_bound (z + 2 ^ 31) (2 ^ 32)). lia.
Qed.

Lemma toInt32_small (z : Z) : - 2 ^ 31 <= z < 2 ^ 31 -> toInt32 z = z.
Proof. intros Hz. unfold toInt32. rewrite Z.mod_small; lia. Qed.

Lemma toInt32_idem (z : Z) : toInt32 (toInt32 z) = toInt32 z.
Proof. apply toInt32_small, toInt32_range. Qed.

Lemma or32_zero (a : Z) : or32 a 0 = toInt32 a.
Proof.
  unfold or32. replace (toInt32 0) with 0 by reflexivity.
  rewrite Z.lor_0_r. apply toInt32_idem.
Qed.

Lemma shl32_5 (a : Z) : shl32 a 5 = toInt32 (toInt32 a * 32).
Proof.
  unfold shl32. replace (5 mod 32) with 5 by reflexivity.
  rewrite Z.shiftl_mul_pow2 by lia. reflexivity.
Qed.

(** The shift-and-subtract of the code is the multiplication by 31 of the
    design document. *)
Lemma hashStep_spec (hash c : Z) : hashStep hash c = toInt32 (hash * 31 + c).
Proof.
  unfold hashStep. rewrite or32_zero, shl32_5.
  apply toInt32_congr.
  rewrite Zplus_mod, Zminus_mod, toInt32_mod.
  rewrite <- (Zmult_mod_idemp_l (toInt32 hash)), toInt32_mod, Zmult_mod_idemp_l.
  rewrite <- Zminus_mod, <- Zplus_mod. f_equal. lia.
Qed.

Lemma fold_left_pointwise {A B : Type} (f g : A -> B -> A) (l : list B)
    (a : A) :
  (forall x y, f x y = g x y) -> fold_left f l a = fold_left g l a.
Proof.
  intros E. revert a.
  induction l as [|b l IH]; intros a; cbn [fold_left]; [reflexivity|].
  rewrite E. apply IH.
Qed.

Lemma hashLoop_from (val : jsstring) (h : Z) :
  fold_left hashStep val h
  = fold_left (fun hash c => toInt32 (hash * 31 + c)) val h.
Proof. apply fold_left_pointwise. exact hashStep_spec. Qed.

Lemma rolling_fold_range (val : jsstring) (h : Z) :
  - 2 ^ 31 <= h < 2 ^ 31 ->
  - 2 ^ 31 <= fold_left (fun hash c => toInt32 (hash * 31 + c)) val h < 2 ^ 31.
Proof.
  revert h. induction val as [|c val IH]; intros h Hh; cbn [fold_left];
    [exact Hh|].
  apply IH, toInt32_range.
Qed.

Lemma rollingHash31_range (val : jsstring) :
  - 2 ^ 31 <= rollingHash31 val < 2 ^ 31.
Proof. apply rolling_fold_range. lia. Qed.

Example hash_of_island :
  applySeedInput_seed (codes " island ") = Some 1179387371.
Proof. reflexivity. Qed.

Example seed_of_digits : applySeedInput_seed (codes "-12abc") = Some (-12).
Proof. reflexivity. Qed.

(** C8.  When the trimmed seed text is not empty and [parseInt] gives NaN,
    the seed handed to [generate] is the absolute value of the rolling hash
    [hash = hash*31 + charCode] taken in wrapping 32-bit arithmetic over the
    code units of the text, and it is a non-negative integer (at most
    2^31). *)
Theorem seed_hash_rolling31_nonneg (input : jsstring) :
  trim input <> [] ->
  parseInt10 (trim input) = None ->
  applySeedInput_seed input = Some (Z.abs (rollingHash31 (trim input)))
  /\ 0 <= Z.abs (rollingHash31 (trim input)) <= 2 ^ 31.
Proof.
  intros Hne Hnan. unfold applySeedInput_seed.
  destruct (trim input) as [|c val] eqn:E; [congruence|].
  rewrite Hnan. unfold hashLoop, rollingHash31 at 1. rewrite hashLoop_from.
  split; [reflexivity|].
  pose proof (rollingHash31_range (c :: val)). lia.
Qed.

Lemma seed_hash_rolling31_nonneg_witness :
  applySeedInput_seed (codes " island ")
  = Some (Z.abs (rollingHash31 (trim (codes " island "))))
  /\ 0 <= Z.abs (rollingHash31 (trim (codes " island "))) <= 2 ^ 31.
Proof.
  apply (seed_hash_rolling31_nonneg (codes " island "));
    [discriminate | reflexivity].
Defined.

End SeedProps.

(* ===================================================================== *)
(** * Properties of the terrain *)
(* ===================================================================== *)

Module TerrainProps.
Import Int32 Terrain Sample.
Local Open Scope R_scope.

(** ** Host arithmetic *)


Lemma Rltb_false (x y : R) : Rltb x y = false -> y <= x.
Proof. unfold Rltb. destruct (Rlt_dec x y); [discriminate | intros _; lra]. Qed.

Lemma Rltb_lt (x y : R) : x < y -> Rltb x y = true.
Proof. intros Hlt. unfold Rltb. destruct (Rlt_dec x y); [reflexivity | lra]. Qed.

Lemma Rltb_ge (x y : R) : y <= x -> Rltb x y = false.
Proof. intros Hge. unfold Rltb. destruct (Rlt_dec x y); [lra | reflexivity]. Qed.

Lemma ln_nonneg (x : R) : 1 <= x -> 0 <= ln x.
Proof.
  intros Hx. rewrite <- ln_1. destruct (Req_dec x 1) as [->|Hne]; [lra|].
  left. apply ln_increasing; lra.
Qed.

Lemma ln_nonpos (x : R) : 0 < x <= 1 -> ln x <= 0.
Proof.
  intros Hx. rewrite <- ln_1. destruct (Req_dec x 1) as [->|Hne]; [lra|].
  left. apply ln_increasing; lra.
Qed.

Lemma exp_ge_1 (t : R) : 0 <= t -> 1 <= exp t.
Proof.
  intros Ht. rewrite <- exp_0. destruct (Req_dec t 0) as [->|Hne]; [lra|].
  left. apply exp_increasing. lra.
Qed.

Lemma exp_le_1 (t : R) : t <= 0 -> exp t <= 1.
Proof.
  intros Ht. rewrite <- exp_0. destruct (Req_dec t 0) as [->|Hne]; [lra|].
  left. apply exp_increasing. lra.
Qed.

Lemma Math_pow_nonneg (x y : R) : 0 <= Math_pow x y.
Proof.
  unfold Math_pow. destruct (Rle_dec x 0); [lra|].
  unfold Rpower. left. apply exp_pos.
Qed.

Lemma Math_pow_le_1 (x y : R) : 0 <= x <= 1 -> 0 <= y -> Math_pow x y <= 1.
Proof.
  intros [Hx0 Hx1] Hy. unfold Math_pow. destruct (Rle_dec x 0); [lra|].
  unfold Rpower. apply exp_le_1.
  pose proof (ln_nonpos x ltac:(lra)).
  assert (0 <= y * - ln x) by (apply Rmult_le_pos; lra). lra.
Qed.

Lemma Math_pow_ge_1 (x y : R) : 1 <= x -> 0 <= y -> 1 <= Math_pow x y.
Proof.
  intros Hx Hy. unfold Math_pow. destruct (Rle_dec x 0); [lra|].
  unfold Rpower. apply exp_ge_1, Rmult_le_pos; [lra | apply ln_nonneg, Hx].
Qed.

(** ** The generator *)

Lemma rng_range (g : Z) : 0 <= fst (rng g) < 1.
Proof.
  unfold rng, rng_u32. cbv zeta. simpl fst.
  set (t := xor32 _ _). unfold ushr32, toUint32.
  change (0 mod 32)%Z with 0%Z. rewrite Z.shiftr_0_r.
  pose proof (Z.mod_pos_bound t (2 ^ 32) ltac:(lia)) as [H0 H1].
  apply IZR_le in H0. apply IZR_lt in H1.
  change (IZR (2 ^ 32)) with 4294967296 in H1.
  set (u := IZR (t mod 2 ^ 32)) in *.
  split.
  - apply Rmult_le_reg_r with 4294967296; [lra|].
    unfold Rdiv. rewrite Rmult_assoc, Rinv_l by lra. lra.
  - apply Rmult_lt_reg_r with 4294967296; [lra|].
    unfold Rdiv. rewrite Rmult_assoc, Rinv_l by lra. lra.
Qed.

Lemma rng_at (g u g' : Z) :
  rng_u32 g = (u, g') -> rng g = (IZR u / 4294967296, g').
Proof. intros E. unfold rng. rewrite E. reflexivity. Qed.

(** The first three draws of the generator in state 708. *)
Example rng_708 :
  rng_u32 708 = (19545506, 1831566521)%Z
  /\ rng_u32 1831566521 = (4173558589, -631834962)%Z
  /\ rng_u32 (-631834962) = (243477437, 1199730851)%Z.
Proof. repeat split; vm_compute; reflexivity. Qed.

Lemma floor_affine_range (a b : Z) (r : R) :
  (0 < b)%Z -> 0 <= r < 1 ->
  (a <= Math_floor (IZR a + r * IZR b) <= a + b - 1)%Z.
Proof.
  intros Hb [Hr0 Hr1]. unfold Math_floor.
  assert (Hb' : 0 < IZR b) by (apply IZR_lt in Hb; exact Hb).
  assert (0 <= r * IZR b) by (apply Rmult_le_pos; lra).
  assert (r * IZR b < IZR b).
  { rewrite <- (Rmult_1_l (IZR b)) at 2. apply Rmult_lt_compat_r; lra. }
  split.
  - apply Zfloor_lub. lra.
  - pose proof (Zfloor_bound (IZR a + r * IZR b)) as [Hl _].
    assert (Hlt : IZR (Zfloor (IZR a + r * IZR b)) < IZR (a + b)).
    { rewrite plus_IZR. lra. }
    apply lt_IZR in Hlt. lia.
Qed.

(** ** The height sampler *)

Lemma islandFalloff_range (x z halfSize : R) :
  0 <= islandFalloff x z halfSize <= 1.
Proof.
  unfold islandFalloff.
  pose proof (Math_pow_nonneg (normDist x z halfSize) 3).
  unfold Rmax. destruct (Rle_dec _ _); lra.
Qed.

Lemma islandFalloff_boundary (x z halfSize : R) :
  1 <= normDist x z halfSize -> islandFalloff x z halfSize = 0.
Proof.
  intros Hd. unfold islandFalloff.
  pose proof (Math_pow_ge_1 (normDist x z halfSize) 3 Hd ltac:(lra)).
  unfold Rmax. destruct (Rle_dec _ _); lra.
Qed.

Lemma sampleHeight_outside (noise2D : R -> R -> R) (x z halfSize : R) :
  1 <= normDist x z halfSize -> sampleHeight noise2D x z halfSize = 0.
Proof.
  intros Hd. unfold sampleHeight.
  rewrite (islandFalloff_boundary x z halfSize Hd). lra.
Qed.

Lemma fbm3_range (noise2D : R -> R -> R) (x z : R) :
  noise_in_range noise2D -> -1 <= fbm noise2D x z 3 2.0 0.5 <= 1.
Proof.
  intros Hn. unfold fbm. simpl.
  pose proof (Hn (x * 1) (z * 1)).
  pose proof (Hn (x * (1 * 2.0)) (z * (1 * 2.0))).
  pose proof (Hn (x * (1 * 2.0 * 2.0)) (z * (1 * 2.0 * 2.0))).
  set (d := 0 + 1 + 1 * 0.5 + 1 * 0.5 * 0.5).
  replace d with (7 / 4) by (unfold d; lra).
  unfold Rdiv. rewrite Rinv_mult, Rinv_inv. lra.
Qed.

Lemma sampleHeight_range (noise2D : R -> R -> R) (x z halfSize : R) :
  noise_in_range noise2D -> 0 <= sampleHeight noise2D x z halfSize <= 1.
Proof.
  intros Hn. unfold sampleHeight.
  pose proof (fbm3_range noise2D (x * 0.015) (z * 0.015) Hn) as Hf.
  set (f := fbm _ _ _ _ _ _) in *.
  pose proof (Math_pow_nonneg ((f + 1) / 2) 1.8) as Hp0.
  pose proof (Math_pow_le_1 ((f + 1) / 2) 1.8 ltac:(lra) ltac:(lra)) as Hp1.
  pose proof (islandFalloff_range x z halfSize) as Hfo.
  set (p := Math_pow _ _) in *. set (fo := islandFalloff _ _ _) in *.
  split; [apply Rmult_le_pos; lra|].
  replace 1 with (1 * 1) by lra. apply Rmult_le_compat; lra.
Qed.

Lemma fbm_loop_ext (n1 n2 : R -> R -> R) (x z l g : R) (octaves : nat)
    (v a f m : R) :
  (forall u w, n1 u w = n2 u w) ->
  fbm_loop n1 x z l g octaves v a f m = fbm_loop n2 x z l g octaves v a f m.
Proof.
  intros E. revert v a f m.
  induction octaves as [|k IH]; intros; simpl; [reflexivity|].
  rewrite E. apply IH.
Qed.

Lemma sampleHeight_ext (n1 n2 : R -> R -> R) (x z halfSize : R) :
  (forall u w, n1 u w = n2 u w) ->
  sampleHeight n1 x z halfSize = sampleHeight n2 x z halfSize.
Proof.
  intros E. unfold sampleHeight, fbm.
  rewrite (fbm_loop_ext n1 n2) by exact E. reflexivity.
Qed.

Lemma flatNoise_in_range : noise_in_range flatNoise.
Proof. intros u v. unfold flatNoise. lra. Defined.

(** C4.  With a noise function that stays in [-1, 1], the height of every
    point is in [0, 1]; and the height is a function of the noise values
    (which the seed fixes) and of the point alone: two noise functions that
    agree everywhere give the same height. *)
Theorem sampleHeight_unit_interval (noise2D : R -> R -> R) (x z halfSize : R) :
  noise_in_range noise2D ->
  0 <= sampleHeight noise2D x z halfSize <= 1
  /\ forall noise2D' : R -> R -> R,
       (forall u v, noise2D' u v = noise2D u v) ->
       sampleHeight noise2D' x z halfSize = sampleHeight noise2D x z halfSize.
Proof.
  intros Hn. split; [apply sampleHeight_range, Hn|].
  intros n' E. apply sampleHeight_ext, E.
Qed.

Lemma sampleHeight_unit_interval_witness :
  0 <= sampleHeight flatNoise 10 (-20) 100 <= 1
  /\ forall noise2D' : R -> R -> R,
       (forall u v, noise2D' u v = flatNoise u v) ->
       sampleHeight noise2D' 10 (-20) 100 = sampleHeight flatNoise 10 (-20) 100.
Proof.
  apply (sampleHeight_unit_interval flatNoise 10 (-20) 100).
  apply flatNoise_in_range.
Defined.

Lemma normDist_corner : 1 <= normDist 80 (-80) 100.
Proof.
  unfold normDist. rewrite <- sqrt_1 at 1. apply sqrt_le_1_alt. lra.
Defined.

(** C9.  Where the distance from the map centre, normalised by the half
    extent, is at least 1, the falloff term is 0 and the height is exactly 0,
    whatever the noise function (within its range [-1, 1], outside of which
    [Math.pow] may produce NaN). *)
Theorem sampleHeight_zero_at_boundary (noise2D : R -> R -> R)
    (x z halfSize : R) :
  noise_in_range noise2D ->
  1 <= normDist x z halfSize ->
  islandFalloff x z halfSize = Rmax 0 (1 - Math_pow (normDist x z halfSize) 3)
  /\ islandFalloff x z halfSize = 0
  /\ sampleHeight noise2D x z halfSize = 0.
Proof.
  intros _ Hd. split; [reflexivity|]. split.
  - apply islandFalloff_boundary, Hd.
  - apply sampleHeight_outside, Hd.
Qed.

Lemma sampleHeight_zero_at_boundary_witness :
  islandFalloff 80 (-80) 100 = Rmax 0 (1 - Math_pow (normDist 80 (-80) 100) 3)
  /\ islandFalloff 80 (-80) 100 = 0
  /\ sampleHeight flatNoise 80 (-80) 100 = 0.
Proof.
  apply (sampleHeight_zero_at_boundary flatNoise 80 (-80) 100).
  - apply flatNoise_in_range.
  - apply normDist_corner.
Defined.

(** ** The scatter passes *)

Lemma scatter_coord_range (size r : R) :
  0 <= size -> 0 <= r < 1 ->
  Rabs ((r - 0.5) * size * 0.85) <= 0.85 * (size / 2).
Proof.
  intros Hs [H0 H1]. apply Rabs_le.
  assert (0 <= r * size) by (apply Rmult_le_pos; lra).
  assert (r * size <= 1 * size) by (apply Rmult_le_compat_r; lra).
  split; lra.
Qed.

(** A loop whose every turn either leaves the group as it is or appends one
    instance satisfying [ok]: after [n] turns the group holds at most [n]
    instances, all satisfying [ok]. *)
Lemma scatter_loop_inv {A S : Type} (step : list A * S -> list A * S)
    (ok : A -> Prop) :
  (forall l s, exists s',
      step (l, s) = (l, s')
      \/ exists a, ok a /\ step (l, s) = (l ++ [a], s')) ->
  forall (n : nat) (l0 : list A) (s0 : S),
    Forall ok l0 ->
    Forall ok (fst (Nat.iter n step (l0, s0)))
    /\ (length (fst (Nat.iter n step (l0, s0))) <= length l0 + n)%nat.
Proof.
  intros Hstep n l0 s0 Hl0.
  induction n as [|n [IHok IHlen]]; simpl.
  - split; [assumption | lia].
  - destruct (Nat.iter n step (l0, s0)) as [l s] eqn:E. simpl in *.
    destruct (Hstep l s) as [s' [Hs | [a [Ha Hs]]]]; rewrite Hs; simpl.
    + split; [assumption | lia].
    + split.
      * apply Forall_app. split; [assumption|].
        constructor; [assumption | constructor].
      * rewrite length_app. simpl. lia.
Qed.

Lemma treeStep_spec (noise2D : R -> R -> R) (size : R) :
  0 <= size ->
  forall l s, exists s',
    treeStep noise2D size (l, s) = (l, s')
    \/ exists a, treePlaced noise2D size a
                 /\ treeStep noise2D size (l, s) = (l ++ [a], s').
Proof.
  intros Hs l s. unfold treeStep.
  pose proof (rng_range s) as Hr1.
  destruct (rng s) as [r1 g1]. simpl in Hr1.
  pose proof (rng_range g1) as Hr2.
  destruct (rng g1) as [r2 g2]. simpl in Hr2.
  destruct (Rltb _ 0.12 || Rltb 0.48 _)%bool eqn:Eb.
  - exists g2. left. reflexivity.
  - apply Bool.orb_false_iff in Eb. destruct Eb as [E1 E2].
    apply Rltb_false in E1, E2.
    pose proof (rng_range g2) as Hr3.
    destruct (rng g2) as [r3 g3]. simpl in Hr3.
    destruct (rng g3) as [r4 g4].
    exists g4. right. eexists. split; [|reflexivity].
    exists ((r1 - 0.5) * size * 0.85), ((r2 - 0.5) * size * 0.85).
    split; [split; apply scatter_coord_range; assumption|].
    simpl. split; [lra|]. split; [lra|]. split; reflexivity.
Qed.

Lemma rockStep_spec (noise2D : R -> R -> R) (size : R) :
  0 <= size ->
  forall l s, exists s',
    rockStep noise2D size (l, s) = (l, s')
    \/ exists a, rockPlaced noise2D size a
                 /\ rockStep noise2D size (l, s) = (l ++ [a], s').
Proof.
  intros Hs l s. unfold rockStep.
  pose proof (rng_range s) as Hr1.
  destruct (rng s) as [r1 g1]. simpl in Hr1.
  pose proof (rng_range g1) as Hr2.
  destruct (rng g1) as [r2 g2]. simpl in Hr2.
  destruct (Rltb _ 0.42 || Rltb 0.88 _)%bool eqn:Eb.
  - exists g2. left. reflexivity.
  - apply Bool.orb_false_iff in Eb. destruct Eb as [E1 E2].
    apply Rltb_false in E1, E2.
    pose proof (rng_range g2) as Hr3.
    destruct (rng g2) as [r3 g3]. simpl in Hr3.
    destruct (rng g3) as [r4 g4]. destruct (rng g4) as [r5 g5].
    destruct (rng g5) as [r6 g6]. destruct (rng g6) as [r7 g7].
    destruct (rng g7) as [r8 g8]. destruct (rng g8) as [r9 g9].
    exists g9. right. eexists. split; [|reflexivity].
    exists ((r1 - 0.5) * size * 0.85), ((r2 - 0.5) * size * 0.85),
           (0.3 + r3 * 1.0).
    split; [split; apply scatter_coord_range; assumption|].
    simpl. split; [lra|]. split; [lra | reflexivity].
Qed.

Lemma flowerStep_spec (noise2D : R -> R -> R) (size : R) :
  0 <= size ->
  forall l s, exists s',
    flowerStep noise2D size (l, s) = (l, s')
    \/ exists a, flowerPlaced noise2D size a
                 /\ flowerStep noise2D size (l, s) = (l ++ [a], s').
Proof.
  intros Hs l s. unfold flowerStep.
  pose proof (rng_range s) as Hr1.
  destruct (rng s) as [r1 g1]. simpl in Hr1.
  pose proof (rng_range g1) as Hr2.
  destruct (rng g1) as [r2 g2]. simpl in Hr2.
  destruct (Rltb _ 0.13 || Rltb 0.43 _)%bool eqn:Eb.
  - exists g2. left. reflexivity.
  - apply Bool.orb_false_iff in Eb. destruct Eb as [E1 E2].
    apply Rltb_false in E1, E2.
    pose proof (rng_range g2) as Hr3.
    destruct (rng g2) as [r3 g3]. simpl in Hr3.
    destruct (rng g3) as [r4 g4]. destruct (rng g4) as [r5 g5].
    exists g5. right. eexists. split; [|reflexivity].
    exists ((r1 - 0.5) * size * 0.85), ((r2 - 0.5) * size * 0.85).
    split; [split; apply scatter_coord_range; assumption|].
    simpl. split; [lra|]. split; [lra | reflexivity].
Qed.

Lemma createTrees_spec (noise2D : R -> R -> R) (g : Z) (size : R) :
  0 <= size ->
  (150 <= treeCount g <= 249)%Z
  /\ (length (fst (createTrees noise2D g size)) <= Z.to_nat (treeCount g))%nat
  /\ Forall (treePlaced noise2D size) (fst (createTrees noise2D g size)).
Proof.
  intros Hs. split.
  - unfold treeCount. apply (floor_affine_range 150 100); [lia | apply rng_range].
  - unfold createTrees.
    destruct (scatter_loop_inv _ _ (treeStep_spec noise2D size Hs)
                (Z.to_nat (treeCount g)) [] (snd (rng g)) (List.Forall_nil _))
      as [Hok Hlen].
    split; assumption.
Qed.

Lemma createRocks_spec (noise2D : R -> R -> R) (g : Z) (size : R) :
  0 <= size ->
  (80 <= rockCount g <= 139)%Z
  /\ (length (fst (createRocks noise2D g size)) <= Z.to_nat (rockCount g))%nat
  /\ Forall (rockPlaced noise2D size) (fst (createRocks noise2D g size)).
Proof.
  intros Hs. split.
  - unfold rockCount. apply (floor_affine_range 80 60); [lia | apply rng_range].
  - unfold createRocks.
    destruct (scatter_loop_inv _ _ (rockStep_spec noise2D size Hs)
                (Z.to_nat (rockCount g)) [] (snd (rng g)) (List.Forall_nil _))
      as [Hok Hlen].
    split; assumption.
Qed.

Lemma createFlowers_spec (noise2D : R -> R -> R) (g : Z) (size : R) :
  0 <= size ->
  (200 <= flowerCount g <= 349)%Z
  /\ (length (fst (createFlowers noise2D g size))
      <= Z.to_nat (flowerCount g))%nat
  /\ Forall (flowerPlaced noise2D size) (fst (createFlowers noise2D g size)).
Proof.
  intros Hs. split.
  - unfold flowerCount.
    apply (floor_affine_range 200 150); [lia | apply rng_range].
  - unfold createFlowers.
    destruct (scatter_loop_inv _ _ (flowerStep_spec noise2D size Hs)
                (Z.to_nat (flowerCount g)) [] (snd (rng g)) (List.Forall_nil _))
      as [Hok Hlen].
    split; assumption.
Qed.

(** In generator state 708 the tree pass draws 150 candidates, and the first
    candidate, about (80.19, -75.36), lies beyond the island: its height is
    0 and it is skipped. *)
Lemma treeCount_708 : treeCount 708 = 150%Z.
Proof.
  destruct rng_708 as [E0 _]. unfold treeCount.
  rewrite (rng_at _ _ _ E0). simpl fst.
  apply Zfloor_eq. lra.
Qed.

Lemma treeStep_708 (noise2D : R -> R -> R) :
  treeStep noise2D 200 ([], 1831566521%Z) = ([], 1199730851%Z).
Proof.
  destruct rng_708 as [_ [E1 E2]]. unfold treeStep.
  rewrite (rng_at _ _ _ E1), (rng_at _ _ _ E2).
  rewrite sampleHeight_outside.
  - rewrite (Rltb_lt 0 0.12) by lra. reflexivity.
  - unfold normDist. rewrite <- sqrt_1 at 1. apply sqrt_le_1_alt. lra.
Qed.

(** C3, where the code departs from it: the tree pass that starts in
    generator state 708 on the 200-unit map draws the count 150, within the
    range 150..249, and yields fewer than 150 trees, whatever the noise
    function: its first candidate lies beyond the island, is skipped, and
    no other is drawn in its place. *)
Theorem createTrees_below_count_range (noise2D : R -> R -> R) :
  treeCount 708 = 150%Z
  /\ (length (fst (createTrees noise2D 708 200)) < 150)%nat.
Proof.
  split; [apply treeCount_708|].
  unfold createTrees. rewrite treeCount_708.
  destruct rng_708 as [E0 _]. rewrite (rng_at _ _ _ E0). simpl snd.
  change (Z.to_nat 150) with (S 149).
  rewrite Nat.iter_succ_r, treeStep_708.
  destruct (scatter_loop_inv _ _
              (treeStep_spec noise2D 200 ltac:(lra))
              149%nat [] 1199730851%Z (List.Forall_nil _)) as [_ Hlen].
  rewrite Nat.add_0_l in Hlen. lia.
Qed.

(** What the scatter passes do keep, for every state of the generator and
    every noise function in range: each pass draws a number [count] of
    candidates within the range of its kind (trees 150..249, rocks 80..139,
    flowers 200..349) and yields at most [count] instances; each instance
    stands at a sampled (x, z) within 0.85 of the map extent whose height
    lies in the band of the kind, at elevation height*30 plus an offset of
    the kind (a multiple of the instance's scale). *)
Theorem scatter_pass_counts_and_placement (noise2D : R -> R -> R) (g : Z)
    (size : R) :
  noise_in_range noise2D ->
  0 <= size ->
  ((150 <= treeCount g <= 249)%Z
   /\ (length (fst (createTrees noise2D g size)) <= Z.to_nat (treeCount g))%nat
   /\ Forall (treePlaced noise2D size) (fst (createTrees noise2D g size)))
  /\ ((80 <= rockCount g <= 139)%Z
      /\ (length (fst (createRocks noise2D g size))
          <= Z.to_nat (rockCount g))%nat
      /\ Forall (rockPlaced noise2D size) (fst (createRocks noise2D g size)))
  /\ ((200 <= flowerCount g <= 349)%Z
      /\ (length (fst (createFlowers noise2D g size))
          <= Z.to_nat (flowerCount g))%nat
      /\ Forall (flowerPlaced noise2D size)
                (fst (createFlowers noise2D g size))).
Proof.
  intros _ Hs. split; [|split].
  - apply createTrees_spec, Hs.
  - apply createRocks_spec, Hs.
  - apply createFlowers_spec, Hs.
Qed.

Lemma scatter_pass_counts_and_placement_witness :
  ((150 <= treeCount 708 <= 249)%Z
   /\ (length (fst (createTrees flatNoise 708 200))
       <= Z.to_nat (treeCount 708))%nat
   /\ Forall (treePlaced flatNoise 200) (fst (createTrees flatNoise 708 200)))
  /\ ((80 <= rockCount 708 <= 139)%Z
      /\ (length (fst (createRocks flatNoise 708 200))
          <= Z.to_nat (rockCount 708))%nat
      /\ Forall (rockPlaced flatNoise 200) (fst (createRocks flatNoise 708 200)))
  /\ ((200 <= flowerCount 708 <= 349)%Z
      /\ (length (fst (createFlowers flatNoise 708 200))
          <= Z.to_nat (flowerCount 708))%nat
      /\ Forall (flowerPlaced flatNoise 200)
                (fst (createFlowers flatNoise 708 200))).
Proof.
  apply (scatter_pass_counts_and_placement flatNoise 708 200).
  - apply flatNoise_in_range.
  - lra.
Defined.

(** ** Blockify *)






End TerrainProps.

(* ===================================================================== *)
(** * Properties of the block world and of blueprints *)
(* ===================================================================== *)

Module AppProps.
Import Landscape App Sample.
Local Open Scope Q_scope.

(** ** Rotation *)

Lemma Qopp_opp_eq (q : Q) : - - q = q.
Proof. destruct q as [n d]. unfold Qopp. simpl. f_equal. lia. Qed.

Lemma rotateBlocksCW_four (blocks : list Block) :
  rotateBlocksCW (rotateBlocksCW (rotateBlocksCW (rotateBlocksCW blocks)))
  = blocks.
Proof.
  unfold rotateBlocksCW. rewrite !map_map.
  induction blocks as [|b blocks IH]; [reflexivity|].
  cbn [map]. rewrite IH. f_equal.
  destruct b as [x y z t]. cbn. rewrite !Qopp_opp_eq. reflexivity.
Qed.

(** C2.  One clockwise step sends the offset (dx, dy, dz) of every block to
    (-dz, dy, dx) and keeps its type; four steps give back the list, block
    by block and coordinate by coordinate. *)
Theorem rotate_four_times_identity (blocks : list Block) :
  map (fun b => (b_x b, b_y b, b_z b, b_type b)) (rotateBlocksCW blocks)
  = map (fun b => (- b_z b, b_y b, b_x b, b_type b)) blocks
  /\ rotateBlocksCW
       (rotateBlocksCW (rotateBlocksCW (rotateBlocksCW blocks))) = blocks.
Proof.
  split; [|apply rotateBlocksCW_four].
  unfold rotateBlocksCW. rewrite map_map. reflexivity.
Qed.

(** ** Placing blocks *)

Section Placing.
Context `{Host}.

Lemma placeBlock_occupied (gx gy gz : Q) (s : State) (m : Mesh) :
  placedBlocks s !! blockKey gx gy gz = Some m -> placeBlock gx gy gz s = s.
Proof. intros E. unfold placeBlock. rewrite E. reflexivity. Qed.

Lemma placeBlock_lookup (gx gy gz : Q) (s : State) :
  is_Some (placedBlocks (placeBlock gx gy gz s) !! blockKey gx gy gz).
Proof.
  unfold placeBlock.
  destruct (placedBlocks s !! blockKey gx gy gz) as [m|] eqn:E.
  - rewrite E. eauto.
  - cbn. rewrite lookup_insert_eq. eauto.
Qed.

Lemma placeBlock_selectedSlot (gx gy gz : Q) (s : State) :
  selectedSlot (placeBlock gx gy gz s) = selectedSlot s.
Proof.
  unfold placeBlock. destruct (placedBlocks s !! blockKey gx gy gz);
    reflexivity.
Qed.

(** C7.  After [place(c, m1)] and then [place(c, m2)], the block world (the
    map and the group of meshes) is what it was after the first call: the
    second call changes no cell; and when [c] was free at the start, it
    holds the material [m1]. *)
Theorem place_twice_first_wins (s : State) (gx gy gz m1 m2 : Q) :
  let s1 := placeBlock gx gy gz (set_selectedSlot m1 s) in
  let s2 := placeBlock gx gy gz (set_selectedSlot m2 s1) in
  placedBlocks s2 = placedBlocks s1
  /\ blockGroup s2 = blockGroup s1
  /\ (placedBlocks s !! blockKey gx gy gz = None ->
      material <$> (placedBlocks s2 !! blockKey gx gy gz) = Some m1).
Proof.
  intros s1 s2.
  destruct (placeBlock_lookup gx gy gz (set_selectedSlot m1 s)) as [m Hm].
  fold s1 in Hm.
  assert (E : s2 = set_selectedSlot m2 s1).
  { unfold s2. apply (placeBlock_occupied _ _ _ _ m). exact Hm. }
  rewrite E. split; [reflexivity|]. split; [reflexivity|].
  intros Hfree. cbn. unfold s1, placeBlock. cbn. rewrite Hfree. cbn.
  rewrite lookup_insert_eq. reflexivity.
Qed.

(** ** Committing a blueprint *)

Lemma cancelBlueprint_selectedSlot (s : State) :
  selectedSlot (cancelBlueprint s) = selectedSlot s.
Proof. unfold cancelBlueprint. destruct (blueprintActive s); reflexivity. Qed.

(** C10.  [placeBlueprint] leaves the hotbar selection as it found it,
    whatever the blueprint and the selection. *)
Theorem placeBlueprint_keeps_selectedSlot (s : State) :
  selectedSlot (placeBlueprint s) = selectedSlot s.
Proof.
  unfold placeBlueprint.
  destruct (blueprintActive s); cbn [negb]; [|reflexivity].
  destruct (blueprintGroup s) as [g|]; [|reflexivity].
  rewrite cancelBlueprint_selectedSlot. reflexivity.
Qed.

End Placing.

Lemma place_twice_first_wins_witness :
  let s1 := @placeBlock sampleHost (11 # 2) (7 # 2) (11 # 2)
              (set_selectedSlot 1 initialState) in
  let s2 := @placeBlock sampleHost (11 # 2) (7 # 2) (11 # 2)
              (set_selectedSlot 2 s1) in
  material <$> (placedBlocks s2 !! @blockKey sampleHost (11 # 2) (7 # 2) (11 # 2))
  = Some 1.
Proof.
  apply (@place_twice_first_wins sampleHost initialState
           (11 # 2) (7 # 2) (11 # 2) 1 2).
  reflexivity.
Defined.

(** ** Regeneration *)

Lemma generate_blocks `{NoiseLib} (seed : option Z) (random : Q) (s : State) :
  placedBlocks (generate seed random s) = ∅
  /\ blockGroup (generate seed random s) = [].
Proof. split; reflexivity. Qed.

Example oneBlockWorld_key :
  @blockKey sampleHost (11 # 2) (7 # 2) (11 # 2) = "5.5,3.5,5.5".
Proof. vm_compute. reflexivity. Qed.

(** C1, refuted as stated: the world with one Grass block at
    (5.5, 3.5, 5.5) has lost that block after [generate(42)]. *)
Lemma generate_discards_placed_block :
  material <$> (placedBlocks oneBlockWorld !! "5.5,3.5,5.5") = Some 1
  /\ placedBlocks (@generate flatNoiseLib (Some 42%Z) 0 oneBlockWorld)
       !! "5.5,3.5,5.5" = None.
Proof.
  split.
  - vm_compute. reflexivity.
  - destruct (@generate_blocks flatNoiseLib (Some 42%Z) 0 oneBlockWorld)
      as [E _].
    rewrite E. apply lookup_empty.
Qed.

(** C1, amended.  Regeneration clears the block world: after [generate],
    with any seed or none, no placed block is left, neither in the map nor
    in the group of meshes; the landscape is the one generated from the
    seed, the previous one being dropped, and the seed is recorded. *)
Theorem generate_clears_block_world `{NoiseLib} (seed : option Z) (random : Q)
    (s : State) :
  let seed' := match seed with
               | Some v => v
               | None => Qfloor (random * 2147483647)
               end in
  placedBlocks (generate seed random s) = ∅
  /\ blockGroup (generate seed random s) = []
  /\ currentLandscape (generate seed random s) = Some (generateLandscape seed')
  /\ currentSeed (generate seed random s) = Some seed'.
Proof.
  intros seed'. split; [reflexivity|]. split; [reflexivity|].
  unfold generate. fold seed'.
  destruct (fpMode (set_landscape (currentLandscape s) (Some seed') s)).
  - unfold exitFPMode, cancelBlueprint, disposeLandscape.
    destruct (blueprintActive _); cbn; destruct (currentLandscape s);
      split; reflexivity.
  - unfold disposeLandscape. cbn. destruct (currentLandscape s);
      split; reflexivity.
Qed.

(** ** Ingestion *)

(** C5, where the code departs from it: the reply
    [[{"x":0,"y":0,"z":0,"type":1}, null]] is rejected as a whole, by the
    exception that reading [b.x] of null raises, although its first entry
    is valid and is accepted when it stands alone. *)
Theorem null_entry_rejects_valid_blocks :
  validateBlocks replyWithNull = Rejected Exception
  /\ validateBlocks
       (JArr [ JObj [("x", JNum 0); ("y", JNum 0); ("z", JNum 0);
                     ("type", JNum 1)] ])
     = Accepted [ {| b_x := 0; b_y := 0; b_z := 0; b_type := 1 |} ].
Proof. split; reflexivity. Qed.

End AppProps.

(* ===================================================================== *)
(** * The block world: consistency, placing, removing, blueprints *)
(* ===================================================================== *)

Module BlockWorldProps.
Import Landscape App Sample AppProps.
Local Open Scope Q_scope.

Lemma filter_all {A : Type} (P : A -> Prop) `{forall x, Decision (P x)}
    (l : list A) :
  Forall P l -> filter P l = l.
Proof.
  induction 1 as [|x l Hx Hl IH]; [reflexivity|].
  rewrite filter_cons_True by exact Hx. rewrite IH. reflexivity.
Qed.

Lemma eqb_key_false (k k' : string) :
  Is_true (negb (String.eqb k k')) <-> k <> k'.
Proof.
  destruct (String.eqb_spec k k') as [->|Hne]; cbn; split; intros; 
    try contradiction; try exact I; tauto.
Qed.

Lemma consistent_initial : consistent initialState.
Proof.
  split; [constructor|]. intros k m. cbn. rewrite lookup_empty.
  split; [discriminate|]. intros [Hin _]. inversion Hin.
Defined.

Lemma consistent_set_selectedSlot (v : Q) (s : State) :
  consistent s -> consistent (set_selectedSlot v s).
Proof. intros Hc. exact Hc. Qed.

Lemma consistent_set_blueprint bs g r a (s : State) :
  consistent s -> consistent (set_blueprint bs g r a s).
Proof. intros Hc. exact Hc. Qed.

Lemma consistent_cancelBlueprint (s : State) :
  consistent s -> consistent (cancelBlueprint s).
Proof.
  intros Hc. unfold cancelBlueprint. destruct (blueprintActive s); exact Hc.
Qed.

Section WithHost.
Context `{Host} `{Float64}.

Lemma consistent_free_key (s : State) (k : string) :
  consistent s -> placedBlocks s !! k = None ->
  forall m, m ∈ blockGroup s -> mesh_blockKey m <> k.
Proof.
  intros [_ Hc] Hfree m Hin Hk.
  assert (E : placedBlocks s !! k = Some m) by (apply Hc; auto).
  congruence.
Qed.

Lemma consistent_placeBlock (gx gy gz : Q) (s : State) :
  consistent s -> consistent (placeBlock gx gy gz s).
Proof.
  intros Hc. unfold placeBlock.
  destruct (placedBlocks s !! blockKey gx gy gz) as [m0|] eqn:E; [exact Hc|].
  pose proof (consistent_free_key s _ Hc E) as Hfresh.
  destruct Hc as [Hnd Hc]. split; cbn.
  - rewrite fmap_app. apply NoDup_app. split; [exact Hnd|]. split.
    + intros k Hk Hk'. cbn in Hk'. apply list_elem_of_singleton in Hk'.
      apply list_elem_of_fmap in Hk. destruct Hk as [m [-> Hm]].
      exact (Hfresh m Hm Hk').
    + cbn. apply NoDup_singleton.
  - intros k m. rewrite elem_of_app, list_elem_of_singleton.
    destruct (decide (blockKey gx gy gz = k)) as [<-|Hne].
    + rewrite lookup_insert_eq. split.
      * intros [= <-]. split; [right|]; reflexivity.
      * intros [[Hin | ->] Hk]; [|reflexivity].
        exfalso. exact (Hfresh m Hin Hk).
    + rewrite lookup_insert_ne by exact Hne. rewrite Hc. split.
      * intros [Hin Hk]. split; [left|]; assumption.
      * intros [[Hin | ->] Hk]; [split; assumption|].
        cbn in Hk. contradiction.
Qed.

Lemma consistent_removeBlock (mesh : Mesh) (s : State) :
  consistent s -> consistent (removeBlock mesh s).
Proof.
  intros [Hnd Hc]. unfold removeBlock.
  destruct (isBlock mesh); cbn [negb]; [|split; assumption].
  split; cbn.
  - clear Hc. induction (blockGroup s) as [|m l IH]; [constructor|].
    cbn in Hnd. apply NoDup_cons in Hnd. destruct Hnd as [Hm Hl].
    destruct (decide (Is_true (negb (String.eqb (mesh_blockKey m) (mesh_blockKey mesh))))) as [Hp|Hp].
    + rewrite filter_cons_True by exact Hp. cbn. apply NoDup_cons. split; [|auto].
      intros Hin. apply Hm. apply list_elem_of_fmap in Hin.
      destruct Hin as [m' [E Hm']]. apply list_elem_of_filter in Hm'.
      apply list_elem_of_fmap. exists m'. tauto.
    + rewrite filter_cons_False by exact Hp. auto.
  - intros k m. rewrite list_elem_of_filter, eqb_key_false.
    destruct (decide (mesh_blockKey mesh = k)) as [<-|Hne].
    + rewrite lookup_delete_eq. split; [discriminate|]. intros [[Hk _] Hk']. contradiction.
    + rewrite lookup_delete_ne by exact Hne. rewrite Hc. split.
      * intros [Hin Hk]. split; [split|]; try assumption. congruence.
      * intros [[_ Hin] Hk]. split; assumption.
Qed.

Lemma consistent_clearAllBlocks (s : State) : consistent (clearAllBlocks s).
Proof.
  split; [constructor|]. intros k m. cbn. rewrite lookup_empty.
  split; [discriminate|]. intros [Hin _]. inversion Hin.
Qed.

Lemma consistent_stamp (origin : vec3) (bs : list Block) (s : State) :
  consistent s -> consistent (fold_left (stampBlock origin) bs s).
Proof.
  revert s. induction bs as [|b bs IH]; intros s Hc; [exact Hc|].
  cbn [fold_left]. apply IH. unfold stampBlock. destruct origin as [[ox oy] oz].
  apply consistent_placeBlock. exact Hc.
Qed.

Lemma consistent_placeBlueprint (s : State) :
  consistent s -> consistent (placeBlueprint s).
Proof.
  intros Hc. unfold placeBlueprint.
  destruct (blueprintActive s); cbn [negb]; [|exact Hc].
  destruct (blueprintGroup s) as [g|]; [|exact Hc].
  apply consistent_cancelBlueprint.
  apply (consistent_set_selectedSlot _ _ (consistent_stamp _ _ _ Hc)).
Qed.

Lemma consistent_onMouseDown (locked : bool) (button : Z) (aim : option Hit) (s : State) :
  consistent s -> consistent (onMouseDown locked button aim s).
Proof.
  intros Hc. unfold onMouseDown.
  destruct (negb (fpMode s && locked)); [exact Hc|].
  destruct (blueprintActive s).
  - destruct (button =? 0)%Z; [apply consistent_placeBlueprint, Hc|].
    destruct (button =? 2)%Z; [apply consistent_cancelBlueprint, Hc|exact Hc].
  - destruct aim as [hit|]; [|exact Hc].
    destruct (button =? 0)%Z.
    + destruct (getPlacementPos hit) as [[px py] pz].
      destruct (cameraPosition s) as [[cx cy] cz].
      destruct (_ && _); [exact Hc | apply consistent_placeBlock, Hc].
    + destruct (button =? 2)%Z; [|exact Hc].
      destruct (hit_block hit) as [object|]; [|exact Hc].
      destruct (isBlock object); [apply consistent_removeBlock, Hc | exact Hc].
Qed.


(** *** Placing *)

Lemma placeBlock_mono (gx gy gz : Q) (s : State) :
  placedBlocks s ⊆ placedBlocks (placeBlock gx gy gz s).
Proof.
  unfold placeBlock.
  destruct (placedBlocks s !! blockKey gx gy gz) eqn:E; [reflexivity|].
  cbn. apply insert_subseteq, E.
Qed.

Lemma placeBlock_other (gx gy gz : Q) (s : State) (k : string) :
  k <> blockKey gx gy gz ->
  placedBlocks (placeBlock gx gy gz s) !! k = placedBlocks s !! k.
Proof.
  intros Hne. unfold placeBlock.
  destruct (placedBlocks s !! blockKey gx gy gz) eqn:E; [reflexivity|].
  cbn. apply lookup_insert_ne. congruence.
Qed.

(** X2.  [placeBlock] never removes or changes a block: the old map is
    contained in the new one and every other cell is as before.  On a free
    cell it binds the key to a new block mesh at the given position with the
    selected material, and map and group grow by one; on an occupied cell
    the whole state is unchanged. *)
Theorem placeBlock_adds_one_cell (gx gy gz : Q) (s : State) :
  let key := blockKey gx gy gz in
  let s' := placeBlock gx gy gz s in
  placedBlocks s ⊆ placedBlocks s'
  /\ (forall k, k <> key -> placedBlocks s' !! k = placedBlocks s !! k)
  /\ (placedBlocks s !! key = None ->
      placedBlocks s' !! key
      = Some {| position := (gx, gy, gz); material := selectedSlot s;
                isBlock := true; mesh_blockKey := key |}
      /\ base.size (placedBlocks s') = S (base.size (placedBlocks s))
      /\ length (blockGroup s') = S (length (blockGroup s)))
  /\ (is_Some (placedBlocks s !! key) -> s' = s).
Proof.
  intros key s'. split; [apply placeBlock_mono|].
  split; [intros k Hk; apply placeBlock_other, Hk|]. split.
  - intros Hfree. unfold s', placeBlock. fold key. rewrite Hfree. cbn.
    rewrite lookup_insert_eq. split; [reflexivity|]. split.
    + apply map_size_insert_None, Hfree.
    + rewrite length_app. cbn. lia.
  - intros [m Hm]. apply (placeBlock_occupied _ _ _ _ m). exact Hm.
Qed.

(** *** Removing *)

Lemma filter_other_keys (key : string) (l : list Mesh) :
  key ∉ (mesh_blockKey <$> l) ->
  filter (fun m => negb (String.eqb (mesh_blockKey m) key)) l = l.
Proof.
  intros Hk. apply filter_all. apply Forall_forall. intros m Hm.
  apply eqb_key_false. intros E. apply Hk. rewrite <- E.
  apply list_elem_of_fmap. exists m. auto.
Qed.

(** In a group with distinct keys, taking out the meshes with the key of a
    child takes out that child and nothing else. *)
Lemma filter_key_of_child (mesh : Mesh) (l : list Mesh) :
  NoDup (mesh_blockKey <$> l) -> mesh ∈ l ->
  exists before after,
    l = before ++ mesh :: after
    /\ filter (fun m => negb (String.eqb (mesh_blockKey m)
                                         (mesh_blockKey mesh))) l
       = before ++ after
    /\ mesh ∉ before ++ after.
Proof.
  intros Hnd Hin. apply list_elem_of_split in Hin.
  destruct Hin as (before & after & ->). exists before, after.
  rewrite fmap_app, fmap_cons in Hnd. apply NoDup_app in Hnd.
  destruct Hnd as (_ & Hdisj & Hnd). apply NoDup_cons in Hnd.
  destruct Hnd as [Hafter _].
  assert (Hbefore : mesh_blockKey mesh ∉ (mesh_blockKey <$> before)).
  { intros Hb. apply (Hdisj _ Hb). left. }
  split; [reflexivity|]. split.
  - rewrite filter_app, filter_cons_False.
    + rewrite (filter_other_keys _ _ Hbefore), (filter_other_keys _ _ Hafter).
      reflexivity.
    + rewrite eqb_key_false. tauto.
  - intros Hm. apply elem_of_app in Hm. destruct Hm as [Hm|Hm].
    + apply Hbefore. apply list_elem_of_fmap. exists mesh. auto.
    + apply Hafter. apply list_elem_of_fmap. exists mesh. auto.
Qed.

(** X3.  [removeBlock] of a mesh that is not a block does nothing.  Of a
    block mesh that is a child of the group of a consistent block world
    (the meshes the mouse handler passes), it takes that one child out of
    the group, the others staying in their order, frees the cell of its
    key, which was bound to this mesh, leaves every other cell as it was,
    and the block world is consistent again. *)
Theorem removeBlock_frees_its_cell (mesh : Mesh) (s : State) :
  (isBlock mesh = false -> removeBlock mesh s = s)
  /\ (isBlock mesh = true -> consistent s -> mesh ∈ blockGroup s ->
      placedBlocks s !! mesh_blockKey mesh = Some mesh
      /\ placedBlocks (removeBlock mesh s) !! mesh_blockKey mesh = None
      /\ (forall k, k <> mesh_blockKey mesh ->
            placedBlocks (removeBlock mesh s) !! k = placedBlocks s !! k)
      /\ (exists before after,
            blockGroup s = before ++ mesh :: after
            /\ blockGroup (removeBlock mesh s) = before ++ after
            /\ mesh ∉ before ++ after)
      /\ consistent (removeBlock mesh s)).
Proof.
  split.
  - intros E. unfold removeBlock. rewrite E. reflexivity.
  - intros E Hc Hin.
    split; [apply (proj2 Hc); auto|].
    split; [|split; [|split]].
    + unfold removeBlock. rewrite E. cbn. apply lookup_delete_eq.
    + intros k Hk. unfold removeBlock. rewrite E. cbn.
      apply lookup_delete_ne. congruence.
    + destruct (filter_key_of_child mesh (blockGroup s) (proj1 Hc) Hin)
        as (before & after & E1 & E2 & E3).
      exists before, after. split; [exact E1|]. split; [|exact E3].
      unfold removeBlock. rewrite E. cbn. exact E2.
    + apply consistent_removeBlock, Hc.
Qed.

Lemma set_blocks_same (s : State) :
  set_blocks (blockGroup s) (placedBlocks s) s = s.
Proof. destruct s. reflexivity. Qed.

(** X4.  In a consistent state, placing a block on a free cell and then
    removing the mesh that was placed gives back the state before, map and
    group included. *)
Theorem place_then_remove_restores (gx gy gz : Q) (s : State) (mesh : Mesh) :
  consistent s ->
  placedBlocks s !! blockKey gx gy gz = None ->
  placedBlocks (placeBlock gx gy gz s) !! blockKey gx gy gz = Some mesh ->
  removeBlock mesh (placeBlock gx gy gz s) = s.
Proof.
  intros Hc Hfree Hmesh.
  pose proof (consistent_free_key s _ Hc Hfree) as Hfresh.
  unfold placeBlock in *. rewrite Hfree in *. cbn in Hmesh.
  rewrite lookup_insert_eq in Hmesh. injection Hmesh as <-.
  unfold removeBlock. cbn.
  rewrite delete_insert_id by exact Hfree.
  rewrite filter_app, filter_all.
  - rewrite filter_cons_False, filter_nil, app_nil_r.
    + unfold set_blocks. cbn. destruct s. reflexivity.
    + cbn. rewrite String.eqb_refl. cbn. tauto.
  - apply Forall_forall. intros m Hm. apply eqb_key_false. cbn.
    apply Hfresh, Hm.
Qed.


(** *** Committing a blueprint *)

Lemma stampBlock_eq (origin : vec3) (s : State) (b : Block) :
  stampBlock origin s b
  = (let '(wx, wy, wz) := blueprintCell origin b in
     placeBlock wx wy wz (set_selectedSlot (b_type b) s)).
Proof. destruct origin as [[ox oy] oz]. reflexivity. Qed.







Lemma stamp_frame (origin : vec3) (bs : list Block) (s : State) :
  let s' := fold_left (stampBlock origin) bs s in
  blueprintActive s' = blueprintActive s
  /\ blueprintBlocks s' = blueprintBlocks s
  /\ blueprintGroup s' = blueprintGroup s
  /\ blueprintRotation s' = blueprintRotation s
  /\ fpMode s' = fpMode s
  /\ cameraPosition s' = cameraPosition s
  /\ currentLandscape s' = currentLandscape s
  /\ currentSeed s' = currentSeed s.
Proof.
  revert s. induction bs as [|b bs IH]; intros s; [cbn; tauto|].
  cbn [fold_left]. cbn zeta. 
  assert (E : forall t, 
    blueprintActive (stampBlock origin t b) = blueprintActive t
  /\ blueprintBlocks (stampBlock origin t b) = blueprintBlocks t
  /\ blueprintGroup (stampBlock origin t b) = blueprintGroup t
  /\ blueprintRotation (stampBlock origin t b) = blueprintRotation t
  /\ fpMode (stampBlock origin t b) = fpMode t
  /\ cameraPosition (stampBlock origin t b) = cameraPosition t
  /\ currentLandscape (stampBlock origin t b) = currentLandscape t
  /\ currentSeed (stampBlock origin t b) = currentSeed t).
  { intros t. rewrite stampBlock_eq. destruct (blueprintCell origin b) as [[wx wy] wz].
    unfold placeBlock. cbn. destruct (placedBlocks t !! _); cbn; tauto. }
  specialize (IH (stampBlock origin s b)). cbn zeta in IH.
  destruct (E s) as (E1 & E2 & E3 & E4 & E5 & E6 & E7 & E8).
  destruct IH as (I1 & I2 & I3 & I4 & I5 & I6 & I7 & I8).
  repeat split; congruence.
Qed.



(** *** Rotation keys *)

Lemma getRotatedBlocks_rebuild (s : State) :
  getRotatedBlocks (rebuildBlueprintGroup s) = getRotatedBlocks s.
Proof.
  unfold rebuildBlueprintGroup. destruct (blueprintActive s); reflexivity.
Qed.

Lemma onKeyRotate_eq (clockwise : bool) (s : State) :
  fpMode s = true -> blueprintActive s = true ->
  onKeyRotate clockwise s
  = rebuildBlueprintGroup
      (set_blueprint (blueprintBlocks s) (blueprintGroup s)
         ((blueprintRotation s + (if clockwise then 1 else 3)) mod 4)%nat
         true s).
Proof. intros Hf Ha. unfold onKeyRotate. rewrite Hf, Ha. reflexivity. Qed.

Lemma onKeyRotate_rotated (clockwise : bool) (s : State) :
  fpMode s = true -> blueprintActive s = true ->
  getRotatedBlocks (onKeyRotate clockwise s)
  = Nat.iter ((blueprintRotation s + (if clockwise then 1 else 3)) mod 4)
             rotateBlocksCW (blueprintBlocks s).
Proof.
  intros Hf Ha. rewrite (onKeyRotate_eq _ _ Hf Ha), getRotatedBlocks_rebuild.
  reflexivity.
Qed.

Lemma onKeyRotate_mode (clockwise : bool) (s : State) :
  fpMode s = true -> blueprintActive s = true ->
  fpMode (onKeyRotate clockwise s) = true
  /\ blueprintActive (onKeyRotate clockwise s) = true
  /\ blueprintBlocks (onKeyRotate clockwise s) = blueprintBlocks s
  /\ blueprintRotation (onKeyRotate clockwise s)
     = ((blueprintRotation s + (if clockwise then 1 else 3)) mod 4)%nat
  /\ is_Some (blueprintGroup (onKeyRotate clockwise s)).
Proof.
  intros Hf Ha. rewrite (onKeyRotate_eq _ _ Hf Ha).
  unfold rebuildBlueprintGroup. cbn. rewrite Hf. repeat split. eauto.
Qed.

(** X6.  While a blueprint is active in first-person mode with a rotation
    step below 4: the key E turns the rotated blocks one step clockwise (the
    step from 3 wraps to 0), the key Q is its inverse, E after Q and Q after
    E give back the rotated blocks, the step stays below 4, and the ghost
    group is rebuilt from the rotated blocks at the position it had. *)
Theorem rotation_keys_compose (s : State) :
  fpMode s = true -> blueprintActive s = true ->
  (blueprintRotation s < 4)%nat ->
  getRotatedBlocks (onKeyRotate true s) = rotateBlocksCW (getRotatedBlocks s)
  /\ rotateBlocksCW (getRotatedBlocks (onKeyRotate false s))
     = getRotatedBlocks s
  /\ getRotatedBlocks (onKeyRotate false (onKeyRotate true s))
     = getRotatedBlocks s
  /\ getRotatedBlocks (onKeyRotate true (onKeyRotate false s))
     = getRotatedBlocks s
  /\ (forall clockwise,
        (blueprintRotation (onKeyRotate clockwise s) < 4)%nat
        /\ blueprintGroup (onKeyRotate clockwise s)
           = Some {| group_position :=
                       match blueprintGroup s with
                       | Some g => group_position g
                       | None => (0, 0, 0)
                       end;
                     ghosts :=
                       ghosts (createBlueprintGroup
                                 (getRotatedBlocks (onKeyRotate clockwise s))) |}).
Proof.
  intros Hf Ha Hr.
  destruct (onKeyRotate_mode true s Hf Ha) as (Tf & Ta & Tb & Tr & _).
  destruct (onKeyRotate_mode false s Hf Ha) as (Ff & Fa & Fb & Fr & _).
  rewrite (onKeyRotate_rotated true (onKeyRotate false s) Ff Fa).
  rewrite (onKeyRotate_rotated false (onKeyRotate true s) Tf Ta).
  rewrite Tb, Tr, Fb, Fr.
  rewrite !(onKeyRotate_rotated _ s Hf Ha).
  unfold getRotatedBlocks.
  pose proof (rotateBlocksCW_four (blueprintBlocks s)) as E4.
  split; [|split; [|split; [|split]]].
  - destruct (blueprintRotation s) as [|[|[|[|r]]]]; cbn; try reflexivity;
      [symmetry; exact E4 | lia].
  - destruct (blueprintRotation s) as [|[|[|[|r]]]]; cbn; try reflexivity;
      [exact E4 | lia].
  - destruct (blueprintRotation s) as [|[|[|[|r]]]]; cbn; try reflexivity; lia.
  - destruct (blueprintRotation s) as [|[|[|[|r]]]]; cbn; try reflexivity; lia.
  - intros clockwise. split.
    + destruct (onKeyRotate_mode clockwise s Hf Ha) as (_ & _ & _ & -> & _).
      apply Nat.mod_upper_bound. lia.
    + rewrite (onKeyRotate_eq _ _ Hf Ha). unfold rebuildBlueprintGroup.
      cbn. reflexivity.
Qed.


(** *** The blueprint mode *)

Lemma modeOk_initial : blueprintModeOk initialState.
Proof. split; [cbn; lia | discriminate]. Defined.

Lemma modeOk_frame (s t : State) :
  blueprintRotation t = blueprintRotation s ->
  blueprintActive t = blueprintActive s ->
  blueprintGroup t = blueprintGroup s ->
  fpMode t = fpMode s ->
  blueprintModeOk s -> blueprintModeOk t.
Proof.
  intros Er Ea Eg Ef [Hr Hm]. unfold blueprintModeOk.
  rewrite Er, Ea, Eg, Ef. split; assumption.
Qed.

Lemma modeOk_cancelBlueprint (s : State) :
  blueprintModeOk s -> blueprintModeOk (cancelBlueprint s).
Proof.
  intros [Hr Hm]. unfold cancelBlueprint.
  destruct (blueprintActive s) eqn:Ea; cbn [negb].
  - split; [cbn; lia | discriminate].
  - split; [exact Hr | rewrite Ea; discriminate].
Qed.

Lemma modeOk_placeBlock (gx gy gz : Q) (s : State) :
  blueprintModeOk s -> blueprintModeOk (placeBlock gx gy gz s).
Proof.
  apply modeOk_frame; unfold placeBlock;
    destruct (placedBlocks s !! blockKey gx gy gz); reflexivity.
Qed.

Lemma modeOk_removeBlock (mesh : Mesh) (s : State) :
  blueprintModeOk s -> blueprintModeOk (removeBlock mesh s).
Proof.
  apply modeOk_frame; unfold removeBlock; destruct (isBlock mesh); reflexivity.
Qed.

Lemma modeOk_placeBlueprint (s : State) :
  blueprintModeOk s -> blueprintModeOk (placeBlueprint s).
Proof.
  intros Hm. unfold placeBlueprint.
  destruct (blueprintActive s) eqn:Ea; cbn [negb]; [|exact Hm].
  destruct (blueprintGroup s) as [g|] eqn:Eg; [|exact Hm].
  apply modeOk_cancelBlueprint.
  pose proof (stamp_frame (group_position g) (getRotatedBlocks s) s) as Hf.
  cbn zeta in Hf. destruct Hf as (F1 & F2 & F3 & F4 & F5 & _).
  revert Hm. apply modeOk_frame; cbn; assumption.
Qed.

Lemma modeOk_exitFPMode (s : State) :
  fpMode (exitFPMode s) = false
  /\ blueprintActive (exitFPMode s) = false
  /\ (blueprintModeOk s -> blueprintModeOk (exitFPMode s)).
Proof.
  unfold exitFPMode, cancelBlueprint. cbn.
  destruct (blueprintActive s) eqn:Ea; cbn.
  - split; [reflexivity|]. split; [reflexivity|]. intros _.
    split; [cbn; lia | discriminate].
  - split; [reflexivity|]. split; [exact Ea|]. intros [Hr _].
    split; [exact Hr|]. cbn. rewrite Ea. discriminate.
Qed.

Lemma modeOk_enterFPMode (s : State) :
  blueprintModeOk s -> blueprintModeOk (enterFPMode s).
Proof.
  intros [Hr Hm]. split; [exact Hr|]. cbn. intros Ha.
  split; [reflexivity | apply Hm, Ha].
Qed.

Lemma modeOk_activateBlueprint (blocks : list Block) (s : State) :
  blueprintModeOk (activateBlueprint blocks s).
Proof.
  unfold activateBlueprint. cbn.
  destruct (fpMode s) eqn:Ef; cbn; rewrite ?Ef.
  - split; [cbn; lia|]. cbn. intros _. rewrite Ef. eauto.
  - split; [cbn; lia|]. cbn. intros _. eauto.
Qed.

Lemma modeOk_onKeyRotate (clockwise : bool) (s : State) :
  blueprintModeOk s -> blueprintModeOk (onKeyRotate clockwise s).
Proof.
  intros Hm. unfold onKeyRotate.
  destruct (fpMode s) eqn:Ef; cbn [andb negb]; [|exact Hm].
  destruct (blueprintActive s) eqn:Ea; cbn [negb]; [|exact Hm].
  destruct (onKeyRotate_mode clockwise s Ef Ea) as (Kf & Ka & _ & Kr & Kg).
  unfold onKeyRotate in *. rewrite Ef, Ea in *. cbn [andb negb] in *.
  split; [rewrite Kr; apply Nat.mod_upper_bound; lia|].
  intros _. split; assumption.
Qed.

Lemma modeOk_updateBlueprint (forward : Q * Q) (s : State) :
  blueprintModeOk s -> blueprintModeOk (updateBlueprint forward s).
Proof.
  intros Hm. unfold updateBlueprint.
  destruct (blueprintActive s) eqn:Ea; cbn [negb]; [|exact Hm].
  destruct (blueprintGroup s) as [g|] eqn:Eg; [|exact Hm].
  destruct (cameraPosition s) as [[cx cy] cz]. destruct Hm as [Hr Hm].
  split; [exact Hr|]. cbn. intros _. split; [apply Hm, Ea | eauto].
Qed.

Lemma modeOk_onMouseDown (locked : bool) (button : Z) (aim : option Hit)
    (s : State) :
  blueprintModeOk s -> blueprintModeOk (onMouseDown locked button aim s).
Proof.
  intros Hm. unfold onMouseDown.
  destruct (negb (fpMode s && locked)); [exact Hm|].
  destruct (blueprintActive s).
  - destruct (button =? 0)%Z; [apply modeOk_placeBlueprint, Hm|].
    destruct (button =? 2)%Z; [apply modeOk_cancelBlueprint, Hm | exact Hm].
  - destruct aim as [hit|]; [|exact Hm].
    destruct (button =? 0)%Z.
    + destruct (getPlacementPos hit) as [[px py] pz].
      destruct (cameraPosition s) as [[cx cy] cz].
      destruct (_ && _); [exact Hm | apply modeOk_placeBlock, Hm].
    + destruct (button =? 2)%Z; [|exact Hm].
      destruct (hit_block hit) as [object|]; [|exact Hm].
      destruct (isBlock object); [apply modeOk_removeBlock, Hm | exact Hm].
Qed.

Lemma modeOk_onBuildClick (prompt : string) (apiKey : option string)
    (reply : ApiReply) (s : State) :
  blueprintModeOk s -> blueprintModeOk (onBuildClick prompt apiKey reply s).
Proof.
  intros Hm. unfold onBuildClick. destruct (trim prompt); [exact Hm|].
  destruct (generateStructure apiKey reply);
    [exact Hm | apply modeOk_activateBlueprint].
Qed.

End WithHost.

Section WithLibs.
Context `{Host} `{Float64} `{NoiseLib}.

Lemma generate_mode (seed : option Z) (random : Q) (s : State) :
  blueprintModeOk s ->
  blueprintModeOk (generate seed random s)
  /\ blueprintActive (generate seed random s) = false
  /\ fpMode (generate seed random s) = false.
Proof.
  intros Hm. unfold generate.
  set (s0 := set_landscape (currentLandscape s) _ s).
  assert (Hm0 : blueprintModeOk s0) by exact Hm.
  assert (E : forall t, blueprintModeOk t -> fpMode t = false ->
              blueprintActive t = false ->
              blueprintModeOk (set_landscape (Some (generateLandscape
                 match seed with Some v => v | None => Qfloor (random * 2147483647) end))
                 (currentSeed (clearAllBlocks (disposeLandscape t)))
                 (clearAllBlocks (disposeLandscape t)))
              /\ blueprintActive (clearAllBlocks (disposeLandscape t)) = false
              /\ fpMode (clearAllBlocks (disposeLandscape t)) = false).
  { intros t Ht Hf Ha. unfold disposeLandscape.
    destruct (currentLandscape t); cbn; (split; [|split; assumption]);
      (revert Ht; apply modeOk_frame; reflexivity). }
  destruct (fpMode s0) eqn:Ef.
  - destruct (modeOk_exitFPMode s0) as (Xf & Xa & Xm).
    destruct (E (exitFPMode s0) (Xm Hm0) Xf Xa) as (E1 & E2 & E3).
    split; [exact E1|]. split; [exact E2 | exact E3].
  - assert (Ha : blueprintActive s0 = false).
    { destruct Hm0 as [_ Hm0]. destruct (blueprintActive s0); [|reflexivity].
      destruct (Hm0 eq_refl) as [Hf _]. congruence. }
    destruct (E s0 Hm0 Ef Ha) as (E1 & E2 & E3).
    split; [exact E1|]. split; [exact E2 | exact E3].
Qed.

(** X1.  The block world stays consistent: when the map of placed blocks
    and the group of meshes hold the same blocks under distinct keys, they
    still do after [placeBlock], after [removeBlock] of a child of the
    group (or of a mesh that is not a block), after [clearAllBlocks] and
    [placeBlueprint], after a mouse click whose aim, if it reports a block,
    reports a child of the group, and after [generate]. *)
Theorem block_world_stays_consistent (s : State) :
  consistent s ->
  (forall gx gy gz, consistent (placeBlock gx gy gz s))
  /\ (forall mesh,
        (isBlock mesh = true -> mesh ∈ blockGroup s) ->
        consistent (removeBlock mesh s))
  /\ consistent (clearAllBlocks s)
  /\ consistent (placeBlueprint s)
  /\ (forall locked button aim,
        aimInGroup s aim -> consistent (onMouseDown locked button aim s))
  /\ (forall seed random, consistent (generate seed random s)).
Proof.
  intros Hc.
  split; [intros; apply consistent_placeBlock, Hc|].
  split; [intros; apply consistent_removeBlock, Hc|].
  split; [apply consistent_clearAllBlocks|].
  split; [apply consistent_placeBlueprint, Hc|].
  split; [intros; apply consistent_onMouseDown, Hc|].
  intros seed random. apply (consistent_clearAllBlocks s).
Qed.

(** X7.  The blueprint mode invariant (rotation step below 4; an active
    blueprint implies first-person mode and a ghost group) is kept by every
    operation on the blueprint, the camera mode, the mouse, the Build
    button and regeneration; and after [generate] no blueprint is active
    and the camera is in orbit mode. *)
Theorem blueprint_mode_invariant (s : State) :
  blueprintModeOk s ->
  (forall blocks, blueprintModeOk (activateBlueprint blocks s))
  /\ blueprintModeOk (cancelBlueprint s)
  /\ blueprintModeOk (placeBlueprint s)
  /\ (forall clockwise, blueprintModeOk (onKeyRotate clockwise s))
  /\ (forall forward, blueprintModeOk (updateBlueprint forward s))
  /\ blueprintModeOk (enterFPMode s)
  /\ blueprintModeOk (exitFPMode s)
  /\ (forall locked button aim,
        blueprintModeOk (onMouseDown locked button aim s))
  /\ (forall prompt apiKey reply,
        blueprintModeOk (onBuildClick prompt apiKey reply s))
  /\ (forall seed random,
        blueprintModeOk (generate seed random s)
        /\ blueprintActive (generate seed random s) = false
        /\ fpMode (generate seed random s) = false).
Proof.
  intros Hm.
  split; [intros; apply modeOk_activateBlueprint|].
  split; [apply modeOk_cancelBlueprint, Hm|].
  split; [apply modeOk_placeBlueprint, Hm|].
  split; [intros; apply modeOk_onKeyRotate, Hm|].
  split; [intros; apply modeOk_updateBlueprint, Hm|].
  split; [apply modeOk_enterFPMode, Hm|].
  split; [apply modeOk_exitFPMode, Hm|].
  split; [intros; apply modeOk_onMouseDown, Hm|].
  split; [intros; apply modeOk_onBuildClick, Hm|].
  intros seed random. apply generate_mode, Hm.
Qed.

End WithLibs.
End BlockWorldProps.

(* ===================================================================== *)
(** * Aiming, the hotbar, grounding *)
(* ===================================================================== *)

Module PointerProps.
Import App Sample AppProps.
Local Open Scope Q_scope.

Lemma Qfloor_unique (q : Q) (k : Z) :
  inject_Z k <= q -> q < inject_Z (k + 1) -> Qfloor q = k.
Proof.
  intros Hlo Hhi.
  pose proof (Qfloor_le q) as Hf1. pose proof (Qlt_floor q) as Hf2.
  assert (H1 : inject_Z (Qfloor q) < inject_Z (k + 1)) by Lqa.lra.
  assert (H2 : inject_Z k < inject_Z (Qfloor q + 1)) by Lqa.lra.
  rewrite <- Zlt_Qlt in H1, H2. lia.
Qed.

Lemma Qltb_true (a b : Q) : Qltb a b = true <-> a < b.
Proof.
  unfold Qltb. destruct (Qlt_le_dec a b) as [Hlt|Hle].
  - tauto.
  - split; [discriminate|]. intros Hlt. exfalso. Lqa.lra.
Qed.

Lemma Math_round_bounds (q : Q) :
  exists k : Z, Math_round q = inject_Z k
                /\ inject_Z k - (1 # 2) <= q /\ q < inject_Z k + (1 # 2).
Proof.
  unfold Math_round. exists (Qfloor (q + (1 # 2))). split; [reflexivity|].
  pose proof (Qfloor_le (q + (1 # 2))). pose proof (Qlt_floor (q + (1 # 2))) as Hf.
  rewrite inject_Z_plus in Hf. change (inject_Z 1) with 1 in Hf.
  split; Lqa.lra.
Qed.

Lemma Math_round_near (q : Q) (k : Z) :
  Qabs (q - inject_Z k) < 1 # 2 -> Math_round q = inject_Z k.
Proof.
  intros Hn. apply Qabs_Qlt_condition in Hn. destruct Hn as [Hlo Hhi].
  unfold Math_round. f_equal. apply Qfloor_unique.
  - Lqa.lra.
  - rewrite inject_Z_plus. change (inject_Z 1) with 1. Lqa.lra.
Qed.

Lemma snapToGrid_bounds (v : Q) :
  snapToGrid v - (1 # 2) <= v /\ v < snapToGrid v + (1 # 2).
Proof.
  unfold snapToGrid.
  pose proof (Qfloor_le v). pose proof (Qlt_floor v) as Hf.
  rewrite inject_Z_plus in Hf. change (inject_Z 1) with 1 in Hf.
  split; Lqa.lra.
Qed.

Lemma Qfloor_half (q : Q) (k : Z) :
  q == inject_Z k + (1 # 2) -> Qfloor q = k.
Proof.
  intros E. apply Qfloor_unique.
  - Lqa.lra.
  - rewrite inject_Z_plus. change (inject_Z 1) with 1. Lqa.lra.
Qed.

(** X8.  For a hit on the terrain, the placement position is the centre of
    the unit cell that contains the hit point, coordinate by coordinate.
    For a hit on a block centred on a cell centre, with a normal within 1/2
    of an integer direction, it is the block centre moved by that
    direction: the neighbouring cell on the side of the face. *)
Theorem getPlacementPos_snaps_to_cells (hit : Hit) :
  (hit_block hit = None ->
   let '(px, py, pz) := hit_point hit in
   let '(x, y, z) := getPlacementPos hit in
   (x, y, z) = (inject_Z (Qfloor px) + (1 # 2), inject_Z (Qfloor py) + (1 # 2),
                inject_Z (Qfloor pz) + (1 # 2))
   /\ (x - (1 # 2) <= px /\ px < x + (1 # 2))
   /\ (y - (1 # 2) <= py /\ py < y + (1 # 2))
   /\ (z - (1 # 2) <= pz /\ pz < z + (1 # 2)))
  /\ (forall (object : Mesh) (i j k ax ay az : Z),
        hit_block hit = Some object ->
        (let '(ox, oy, oz) := position object in
         ox == inject_Z i + (1 # 2) /\ oy == inject_Z j + (1 # 2)
         /\ oz == inject_Z k + (1 # 2)) ->
        (let '(nx, ny, nz) := hit_normal hit in
         Qabs (nx - inject_Z ax) < 1 # 2 /\ Qabs (ny - inject_Z ay) < 1 # 2
         /\ Qabs (nz - inject_Z az) < 1 # 2) ->
        getPlacementPos hit
        = (inject_Z i + (1 # 2) + inject_Z ax,
           inject_Z j + (1 # 2) + inject_Z ay,
           inject_Z k + (1 # 2) + inject_Z az)).
Proof.
  split.
  - intros Hb. unfold getPlacementPos. rewrite Hb.
    destruct (hit_point hit) as [[px py] pz].
    split; [reflexivity|].
    split; [apply snapToGrid_bounds|]. split; apply snapToGrid_bounds.
  - intros object i j k ax ay az Hb Hpos Hn. unfold getPlacementPos.
    rewrite Hb. destruct (position object) as [[ox oy] oz].
    destruct (hit_normal hit) as [[nx ny] nz].
    destruct Hpos as (Hx & Hy & Hz). destruct Hn as (Nx & Ny & Nz).
    rewrite (Qfloor_half _ _ Hx), (Qfloor_half _ _ Hy), (Qfloor_half _ _ Hz).
    rewrite (Math_round_near _ _ Nx), (Math_round_near _ _ Ny),
      (Math_round_near _ _ Nz).
    reflexivity.
Qed.

Lemma clamp_bounds (v : Q) :
  0 <= clamp v 0 (BLOCK_TYPES_length - 1)
  /\ clamp v 0 (BLOCK_TYPES_length - 1) <= 5.
Proof.
  unfold clamp, Math_max, Math_min, BLOCK_TYPES_length.
  destruct (Qlt_le_dec v (6 - 1)); destruct (Qlt_le_dec 0 _); split; Lqa.lra.
Qed.

Lemma clamp_in_range (v : Q) :
  0 <= v <= 5 -> clamp v 0 (BLOCK_TYPES_length - 1) == v.
Proof.
  intros [H0 H5]. unfold clamp, Math_max, Math_min, BLOCK_TYPES_length.
  destruct (Qlt_le_dec v (6 - 1)); destruct (Qlt_le_dec 0 _); Lqa.lra.
Qed.

Lemma inject_Z_div_mod (n : Z) :
  inject_Z n == 6 * inject_Z (n / 6) + inject_Z (n mod 6).
Proof.
  rewrite (Z.div_mod n 6) at 1 by lia.
  rewrite inject_Z_plus, inject_Z_mult. reflexivity.
Qed.

Lemma js_rem_6 (a : Q) (n : Z) :
  a == inject_Z n -> (0 <= n)%Z -> js_rem a 6 == inject_Z (n mod 6).
Proof.
  intros Ea Hn. unfold js_rem.
  pose proof (inject_Z_div_mod n) as Ed.
  pose proof (Z.mod_pos_bound n 6 ltac:(lia)) as [Hm0 Hm6].
  pose proof (Z.div_pos n 6 Hn ltac:(lia)) as Hq.
  rewrite Zle_Qle in Hm0, Hq. rewrite Zlt_Qlt in Hm6.
  change (inject_Z 0) with 0 in *. change (inject_Z 6) with 6 in *.
  assert (Et : Qtrunc (a / 6) = (n / 6)%Z).
  { unfold Qtrunc, Qdiv. change (/ 6) with (1 # 6). destruct (Qlt_le_dec (a * (1 # 6)) 0) as [Hneg|Hpos].
    - exfalso. Lqa.lra.
    - apply Qfloor_unique.
      + Lqa.lra.
      + rewrite inject_Z_plus. change (inject_Z 1) with 1. Lqa.lra. }
  rewrite Et. Lqa.lra.
Qed.

Lemma onWheel_step (deltaY : Q) (s : State) (k : Z) :
  fpMode s = true ->
  selectedSlot s == inject_Z k -> (0 <= k <= 5)%Z ->
  selectedSlot (onWheel deltaY s)
  == inject_Z ((k + (if Qltb 0 deltaY then 1 else -1)) mod 6)
  /\ fpMode (onWheel deltaY s) = true.
Proof.
  intros Hf Ek Hk. unfold onWheel. rewrite Hf. cbn [negb].
  unfold selectSlot. cbn [selectedSlot set_selectedSlot fpMode].
  split; [|exact Hf].
  set (dz := if Qltb 0 deltaY then 1%Z else (-1)%Z).
  assert (Ea : selectedSlot s + (if Qltb 0 deltaY then 1 else - (1))
               + BLOCK_TYPES_length == inject_Z (k + dz + 6)).
  { rewrite !inject_Z_plus. unfold dz, BLOCK_TYPES_length.
    destruct (Qltb 0 deltaY);
      [change (inject_Z 1) with 1 | change (inject_Z (-1)) with (- (1))];
      change (inject_Z 6) with 6; Lqa.lra. }
  assert (Hn : (0 <= k + dz + 6)%Z) by (unfold dz; destruct (Qltb 0 deltaY); lia).
  pose proof (js_rem_6 _ _ Ea Hn) as Er.
  replace ((k + dz) mod 6)%Z with ((k + dz + 6) mod 6)%Z.
  2:{ rewrite <- (Z.mul_1_l 6) at 1. apply Z.mod_add. lia. }
  pose proof (Z.mod_pos_bound (k + dz + 6) 6 ltac:(lia)) as [Hm0 Hm6].
  assert (Hm5 : ((k + dz + 6) mod 6 <= 5)%Z) by lia.
  rewrite Zle_Qle in Hm0, Hm5.
  change (inject_Z 0) with 0 in *. change (inject_Z 5) with 5 in *.
  change (BLOCK_TYPES_length) with 6 in Er |- * at 2.
  rewrite clamp_in_range; [exact Er|].
  unfold BLOCK_TYPES_length in *. split; Lqa.lra.
Qed.

(** X11.  [selectSlot] always leaves a slot within 0..5 and selects an
    index within 0..5 as it is.  The wheel does nothing outside first-person
    mode; in it, from slot k of 0..5, scrolling down the page selects
    (k+1) mod 6 and scrolling up selects (k-1) mod 6, so the hotbar wraps
    around, and one notch each way gives back the slot. *)
Theorem hotbar_selection_wraps (s : State) :
  (forall idx,
      0 <= selectedSlot (selectSlot idx s) <= 5
      /\ (0 <= idx <= 5 -> selectedSlot (selectSlot idx s) == idx))
  /\ (fpMode s = false -> forall deltaY, onWheel deltaY s = s)
  /\ (forall (k : Z) (up down : Q),
        fpMode s = true -> selectedSlot s == inject_Z k -> (0 <= k <= 5)%Z ->
        0 < up -> down <= 0 ->
        selectedSlot (onWheel up s) == inject_Z ((k + 1) mod 6)
        /\ selectedSlot (onWheel down s) == inject_Z ((k - 1) mod 6)
        /\ selectedSlot (onWheel down (onWheel up s)) == selectedSlot s
        /\ selectedSlot (onWheel up (onWheel down s)) == selectedSlot s).
Proof.
  split; [|split].
  - intros idx. unfold selectSlot. cbn [selectedSlot set_selectedSlot].
    split; [apply clamp_bounds | apply clamp_in_range].
  - intros Hf deltaY. unfold onWheel. rewrite Hf. reflexivity.
  - intros k up down Hf Ek Hk Hup Hdown.
    assert (Eup : Qltb 0 up = true) by (apply Qltb_true; exact Hup).
    assert (Edown : Qltb 0 down = false).
    { destruct (Qltb 0 down) eqn:E; [|reflexivity].
      apply Qltb_true in E. exfalso. Lqa.lra. }
    destruct (onWheel_step up s k Hf Ek Hk) as [U Uf].
    destruct (onWheel_step down s k Hf Ek Hk) as [D Df].
    rewrite Eup in U. rewrite Edown in D.
    pose proof (Z.mod_pos_bound (k + 1) 6 ltac:(lia)) as Hu.
    pose proof (Z.mod_pos_bound (k + -1) 6 ltac:(lia)) as Hd.
    destruct (onWheel_step down (onWheel up s) _ Uf U ltac:(lia)) as [DU _].
    destruct (onWheel_step up (onWheel down s) _ Df D ltac:(lia)) as [UD _].
    rewrite Edown in DU. rewrite Eup in UD.
    split; [exact U|]. split; [exact D|].
    rewrite DU, UD, Ek.
    split; apply inject_Z_injective.
    + rewrite Zplus_mod_idemp_l. replace (k + 1 + -1)%Z with k by lia.
      apply Z.mod_small. lia.
    + rewrite Zplus_mod_idemp_l. replace (k + -1 + 1)%Z with k by lia.
      apply Z.mod_small. lia.
Qed.

Section WithHost.
Context `{Host} `{Float64}.

(** A difference within the relative error [u] of the exact one, and what
    the comparisons of the handler make of it. *)
Lemma rounded_abs_lt (u d r bound : Q) :
  0 <= u -> Qabs (r - d) <= u * Qabs d -> (1 + u) * Qabs d < bound ->
  Qabs r < bound.
Proof.
  intros Hu Hr Hb.
  pose proof (Qabs_triangle (r - d) d) as Ht.
  assert (E : Qabs (r - d + d) == Qabs r) by (apply Qabs_wd; ring).
  Lqa.lra.
Qed.

Lemma rounded_between (u d r : Q) :
  0 <= u <= 1 -> Qabs (r - d) <= u * Qabs d ->
  - (2) < (1 + u) * d -> (1 + u) * d < 1 # 2 ->
  - (2) < r /\ r < 1 # 2.
Proof.
  intros [Hu0 Hu1] Hr Hlo Hhi.
  apply Qabs_Qle_condition in Hr. destruct Hr as [Hr1 Hr2].
  destruct (Qlt_le_dec d 0) as [Hd|Hd].
  - rewrite (Qabs_neg d) in Hr1, Hr2 by Lqa.lra.
    assert (0 <= u * - d) by (apply Qmult_le_0_compat; Lqa.lra).
    assert (u * - d <= 1 * - d) by (apply Qmult_le_compat_r; Lqa.lra).
    split; Lqa.lra.
  - rewrite (Qabs_pos d) in Hr1, Hr2 by exact Hd.
    assert (0 <= u * d) by (apply Qmult_le_0_compat; Lqa.lra).
    assert (u * d <= 1 * d) by (apply Qmult_le_compat_r; Lqa.lra).
    split; Lqa.lra.
Qed.

(** X9.  With no blueprint active, a mouse click adds at most one block:
    every block of the world after the click was there before, or it is the
    block of the left click, at the placement position of the aim, with the
    selected material.  The handler tests the rounded differences to the
    camera; when these are within the relative error u of the exact ones
    (u = 2^-53 for doubles), the centre of the new block is outside the
    exclusion box around the viewer shrunk by the factor 1/(1+u), which
    for exact differences (u = 0) is the box itself. *)
Theorem click_keeps_viewer_box_free (u : Q) (locked : bool) (button : Z)
    (aim : option Hit) (s : State) :
  0 <= u <= 1 ->
  (forall hit, aim = Some hit ->
               roundsWithin u (cameraPosition s) (getPlacementPos hit)) ->
  blueprintActive s = false ->
  forall (k : string) (m : Mesh),
    placedBlocks (onMouseDown locked button aim s) !! k = Some m ->
    placedBlocks s !! k = Some m
    \/ (exists hit, aim = Some hit /\ position m = getPlacementPos hit)
       /\ button = 0%Z
       /\ material m = selectedSlot s
       /\ ~ insideViewerBox u (cameraPosition s) (position m).
Proof.
  intros Hu Hround Ha k m. unfold onMouseDown. rewrite Ha.
  destruct (negb (fpMode s && locked)); [auto|].
  destruct aim as [hit|]; [|auto].
  specialize (Hround hit eq_refl).
  destruct (Z.eqb_spec button 0) as [->|Hb0].
  - destruct (getPlacementPos hit) as [[px py] pz] eqn:Ep.
    destruct (cameraPosition s) as [[cx cy] cz] eqn:Ec.
    destruct (_ && _) eqn:Ebox; [auto|].
    unfold placeBlock.
    destruct (placedBlocks s !! blockKey px py pz) eqn:Ek; [auto|]. cbn.
    destruct (decide (blockKey px py pz = k)) as [<-|Hne].
    + rewrite lookup_insert_eq. intros [= <-]. right. cbn [position material].
      split; [exists hit; auto|]. split; [reflexivity|]. split; [reflexivity|].
      unfold insideViewerBox, roundsWithin in *. cbv beta iota zeta in *.
      destruct Hround as (Rx & Ry & Rz).
      intros (B1 & B2 & B3 & B4).
      pose proof (rounded_abs_lt u _ _ _ (proj1 Hu) Rx B1) as Cx.
      pose proof (rounded_abs_lt u _ _ _ (proj1 Hu) Rz B2) as Cz.
      pose proof (rounded_between u _ _ Hu Ry B3 B4) as [Cy1 Cy2].
      rewrite (proj2 (Qltb_true (Qabs (Number_sub px cx)) (4 # 5)) Cx),
        (proj2 (Qltb_true (Qabs (Number_sub pz cz)) (4 # 5)) Cz),
        (proj2 (Qltb_true (- (2)) (Number_sub py cy)) Cy1),
        (proj2 (Qltb_true (Number_sub py cy) (1 # 2)) Cy2) in Ebox.
      discriminate.
    + rewrite lookup_insert_ne by exact Hne. auto.
  - destruct (button =? 2)%Z; [|auto].
    destruct (hit_block hit) as [object|]; [|auto].
    destruct (isBlock object) eqn:Eb; [|auto].
    unfold removeBlock. rewrite Eb. cbn.
    destruct (decide (mesh_blockKey object = k)) as [<-|Hne].
    + rewrite lookup_delete_eq. discriminate.
    + rewrite lookup_delete_ne by exact Hne. auto.
Qed.

Lemma Math_max_ge_r (a b : Q) : b <= Math_max a b.
Proof. unfold Math_max. destruct (Qlt_le_dec a b); Lqa.lra. Qed.

Lemma Math_max_ge_l (a b : Q) : a <= Math_max a b.
Proof. unfold Math_max. destruct (Qlt_le_dec a b); Lqa.lra. Qed.

(** X10.  [updateBlueprint] puts the ghost group of an active blueprint on
    integer grid coordinates, never below the water level 2, and changes
    neither the ghosts nor the block world; [enterFPMode] puts the camera
    at (20, y, 20) with y at least 5. *)
Theorem grounding_stays_above_water (forward : Q * Q) (s : State) (g : Group) :
  blueprintActive s = true ->
  blueprintGroup s = Some g ->
  (exists (kx ky kz : Z) (g' : Group),
      blueprintGroup (updateBlueprint forward s) = Some g'
      /\ group_position g' = (inject_Z kx, inject_Z ky, inject_Z kz)
      /\ (2 <= ky)%Z
      /\ ghosts g' = ghosts g
      /\ placedBlocks (updateBlueprint forward s) = placedBlocks s)
  /\ (let '(x, y, z) := cameraPosition (enterFPMode s) in
      x = 20 /\ z = 20 /\ 5 <= y).
Proof.
  intros Ha Hg. split.
  - unfold updateBlueprint. rewrite Ha, Hg. cbn [negb].
    destruct (cameraPosition s) as [[cx cy] cz].
    set (tx := Math_round _). set (tz := Math_round (cz + _)).
    set (base := Math_max _ 2).
    destruct (Math_round_bounds (cx + forward.1 * 8)) as (kx & Ex & _).
    destruct (Math_round_bounds (cz + forward.2 * 8)) as (kz & Ez & _).
    destruct (Math_round_bounds base) as (ky & Ey & Hy1 & Hy2).
    exists kx, ky, kz. eexists. cbn. split; [reflexivity|]. cbn.
    fold tx tz. split; [unfold tx, tz; rewrite Ex, Ey, Ez; reflexivity|].
    split; [|split; reflexivity].
    pose proof (Math_max_ge_r (getTerrainHeight s tx tz) 2) as Hb. fold base in Hb.
    assert (Hlt : inject_Z 1 < inject_Z ky).
    { change (inject_Z 1) with 1. Lqa.lra. }
    rewrite <- Zlt_Qlt in Hlt. lia.
  - unfold enterFPMode. cbn. split; [reflexivity|]. split; [reflexivity|].
    pose proof (Math_max_ge_r (getTerrainHeight s 20 20) (5 # 2)).
    unfold EYE_HEIGHT. Lqa.lra.
Qed.

End WithHost.
End PointerProps.

(* ===================================================================== *)
(** * Ingestion of generated structures *)
(* ===================================================================== *)

Module IngestionProps.
Import App Sample AppProps.
Local Open Scope Q_scope.

Lemma entryType_valid (t : option json) :
  exists k : Z, entryType t = inject_Z k /\ (0 <= k <= 5)%Z.
Proof.
  unfold entryType.
  destruct t as [[| | q | | |]|]; try (exists 2%Z; split; [reflexivity | lia]).
  unfold Math_max, Math_min, Math_round.
  set (r := Qfloor (q + (1 # 2))).
  destruct (Qlt_le_dec (inject_Z r) 5) as [H5|H5].
  - destruct (Qlt_le_dec 0 (inject_Z r)) as [H0|H0].
    + exists r. split; [reflexivity|].
      change 0 with (inject_Z 0) in H0. change 5 with (inject_Z 5) in H5.
      rewrite <- Zlt_Qlt in H0, H5. lia.
    + exists 0%Z. split; [reflexivity | lia].
  - destruct (Qlt_le_dec 0 5) as [_|Hc].
    + exists 5%Z. split; [reflexivity | lia].
    + exfalso. Lqa.lra.
Qed.

Lemma acceptedEntry_type (b : json) (e : Block) :
  acceptedEntry b = Some e -> typeInRange e.
Proof.
  unfold acceptedEntry.
  destruct (prop b "x") as [[| |x| | |]|]; try discriminate.
  destruct (prop b "y") as [[| |y| | |]|]; try discriminate.
  destruct (prop b "z") as [[| |z| | |]|]; try discriminate.
  intros [= <-]. apply entryType_valid.
Qed.

Lemma json_null_dec (b : json) : {b = JNull} + {b <> JNull}.
Proof. destruct b; [left; reflexivity | right; discriminate ..]. Qed.

Lemma validateLoop_cons (b : json) (rest : list json) (acc : list Block) :
  b <> JNull ->
  validateLoop (b :: rest) acc
  = match acceptedEntry b with
    | Some e =>
        if (500 <=? length (acc ++ [e]))%nat then Some (acc ++ [e])
        else validateLoop rest (acc ++ [e])
    | None => validateLoop rest acc
    end.
Proof.
  intros Hb. unfold acceptedEntry.
  destruct b; try contradiction; cbn [validateLoop];
    (destruct (prop _ "x") as [[]|]; try reflexivity;
     destruct (prop _ "y") as [[]|]; try reflexivity;
     destruct (prop _ "z") as [[]|]; reflexivity).
Qed.

Lemma validateLoop_null (rest : list json) (acc : list Block) :
  validateLoop (JNull :: rest) acc = None.
Proof. reflexivity. Qed.

Lemma validateLoop_result (items : list json) (acc r : list Block) :
  validateLoop items acc = Some r -> (length acc < 500)%nat ->
  (length r <= 500)%nat
  /\ exists new, r = acc ++ new /\ Forall (fromEntry items) new.
Proof.
  revert acc. induction items as [|b items IH]; intros acc Hr Hl.
  - cbn in Hr. injection Hr as <-. split; [lia|].
    exists []. split; [symmetry; apply app_nil_r | constructor].
  - destruct (json_null_dec b) as [->|Hb]; [discriminate|].
    rewrite (validateLoop_cons _ _ _ Hb) in Hr.
    assert (Hweaken : forall new, Forall (fromEntry items) new ->
                                  Forall (fromEntry (b :: items)) new).
    { intros new Hf. apply (Forall_impl _ _ _ Hf). intros e (b' & Hb' & Ee).
      exists b'. split; [right; exact Hb' | exact Ee]. }
    destruct (acceptedEntry b) as [e|] eqn:Ee.
    + assert (He : fromEntry (b :: items) e) by (exists b; split; [left|exact Ee]).
      assert (Hlen : length (acc ++ [e]) = S (length acc))
        by (rewrite length_app; cbn; lia).
      destruct (500 <=? length (acc ++ [e]))%nat eqn:E5.
      * injection Hr as <-. split; [lia|].
        exists [e]. split; [reflexivity|]. constructor; [exact He|constructor].
      * apply Nat.leb_gt in E5.
        destruct (IH _ Hr E5) as (R1 & new & -> & Hnew). split; [exact R1|].
        exists (e :: new). split; [rewrite <- app_assoc; reflexivity|].
        constructor; [exact He | apply Hweaken, Hnew].
    + destruct (IH _ Hr Hl) as (R1 & new & -> & Hnew). split; [exact R1|].
      exists new. split; [reflexivity | apply Hweaken, Hnew].
Qed.

Lemma fromEntry_type (items : list json) (e : Block) :
  fromEntry items e -> typeInRange e.
Proof. intros (b & _ & Ee). apply (acceptedEntry_type b e Ee). Qed.

Lemma validateBlocks_accepted (blocks : json) (validated : list Block) :
  validateBlocks blocks = Accepted validated ->
  (1 <= length validated <= 500)%nat
  /\ Forall typeInRange validated
  /\ exists items, blocks = JArr items /\ Forall (fromEntry items) validated.
Proof.
  unfold validateBlocks. destruct blocks as [| | | |items|]; try discriminate.
  destruct items as [|b rest]; [discriminate|].
  destruct (validateLoop (b :: rest) []) as [r|] eqn:E; [|discriminate].
  destruct r as [|e r]; [discriminate|]. intros [= <-].
  destruct (validateLoop_result _ _ _ E ltac:(cbn; lia))
    as (R1 & new & Enew & Hnew).
  cbn [app] in Enew. subst new.
  split; [cbn in *; lia|]. split.
  - apply (Forall_impl _ _ _ Hnew). intros e'. apply fromEntry_type.
  - exists (b :: rest). split; [reflexivity | exact Hnew].
Qed.

(** X12.  Whatever the parsed reply, the blocks [validateBlocks] accepts
    are between 1 and 500, each with a type among 0..5; the reply is an
    array, and each accepted block was made of one of its entries that has
    a numeric x, y and z, by rounding these (and rounding and clamping the
    type). *)
Theorem accepted_blocks_are_valid (blocks : json) (validated : list Block) :
  validateBlocks blocks = Accepted validated ->
  (1 <= length validated <= 500)%nat
  /\ Forall typeInRange validated
  /\ exists items, blocks = JArr items /\ Forall (fromEntry items) validated.
Proof. apply validateBlocks_accepted. Qed.

Lemma validateLoop_no_null (items : list json) (acc : list Block) :
  JNull ∉ items -> (length acc < 500)%nat ->
  validateLoop items acc = Some (take 500 (acc ++ omap acceptedEntry items)).
Proof.
  revert acc. induction items as [|b items IH]; intros acc Hn Hl.
  - cbn [validateLoop omap list_omap]. rewrite app_nil_r.
    rewrite take_ge; [reflexivity | lia].
  - apply not_elem_of_cons in Hn. destruct Hn as [Hb Hn].
    rewrite (validateLoop_cons _ _ _ (not_eq_sym Hb)). cbn [omap list_omap].
    destruct (acceptedEntry b) as [e|] eqn:Ee; [|apply IH; assumption].
    assert (Hlen : length (acc ++ [e]) = S (length acc))
      by (rewrite length_app; cbn; lia).
    replace (acc ++ e :: omap acceptedEntry items)
      with ((acc ++ [e]) ++ omap acceptedEntry items)
      by (rewrite <- app_assoc; reflexivity).
    destruct (500 <=? length (acc ++ [e]))%nat eqn:E5.
    + apply Nat.leb_le in E5. rewrite take_app_length' by lia. reflexivity.
    + apply Nat.leb_gt in E5. apply IH; assumption.
Qed.

(** X13.  For a reply array without a null entry, the validated list is
    the first 500 of the entries that have numeric x, y and z, rounded and
    clamped, in the order of the reply; an empty array is 'No blocks
    generated', an array without any such entry 'No valid blocks'. *)
Theorem validation_keeps_first_500_in_order (items : list json) :
  JNull ∉ items ->
  validateBlocks (JArr items)
  = match take 500 (omap acceptedEntry items) with
    | [] => Rejected (match items with
                      | [] => NoBlocksGenerated
                      | _ => NoValidBlocks
                      end)
    | validated => Accepted validated
    end.
Proof.
  intros Hn. unfold validateBlocks. destruct items as [|b rest]; [reflexivity|].
  rewrite (validateLoop_no_null _ [] Hn) by (cbn; lia).
  rewrite app_nil_l. destruct (take 500 _); reflexivity.
Qed.

Section WithHost.
Context `{Host}.





End WithHost.
End IngestionProps.

(* ===================================================================== *)
(** * The properties of the application at concrete states *)
(* ===================================================================== *)

Module AppExamples.
Import Landscape App Sample AppProps BlockWorldProps PointerProps
  IngestionProps.
Local Open Scope Q_scope.

Lemma consistent_walkingBlockWorld : consistent walkingBlockWorld.
Proof.
  apply (@consistent_placeBlock sampleHost (11 # 2) (7 # 2) (11 # 2)
           (set_selectedSlot 1 initialState)).
  apply consistent_initial.
Defined.

Lemma grassBlock_in_group : grassBlock ∈ blockGroup walkingBlockWorld.
Proof. vm_compute. left. Defined.

Lemma block_world_stays_consistent_witness :
  consistent (@placeBlock sampleHost (13 # 2) (7 # 2) (11 # 2)
                walkingBlockWorld)
  /\ consistent (removeBlock grassBlock walkingBlockWorld)
  /\ consistent (clearAllBlocks walkingBlockWorld)
  /\ consistent (@placeBlueprint sampleHost walkingBlockWorld)
  /\ consistent (@onMouseDown sampleHost exactArithmetic true 2
                   (Some eastFaceHit) walkingBlockWorld)
  /\ consistent (@onMouseDown sampleHost exactArithmetic true 0
                   (Some eastFaceHit) walkingBlockWorld)
  /\ consistent (@generate flatNoiseLib (Some 42%Z) 0 walkingBlockWorld).
Proof.
  destruct (@block_world_stays_consistent sampleHost exactArithmetic
              flatNoiseLib walkingBlockWorld consistent_walkingBlockWorld)
    as (W1 & W2 & W3 & W4 & W5 & W6).
  assert (Haim : aimInGroup walkingBlockWorld (Some eastFaceHit)).
  { intros hit m [= <-] [= <-]. exact grassBlock_in_group. }
  split; [apply W1|].
  split; [apply W2; intros _; exact grassBlock_in_group|].
  split; [exact W3|]. split; [exact W4|].
  split; [apply W5, Haim|]. split; [apply W5, Haim | apply W6].
Defined.

Lemma placeBlock_adds_one_cell_witness :
  placedBlocks (@placeBlock sampleHost (11 # 2) (7 # 2) (11 # 2) initialState)
    !! "5.5,3.5,5.5"
  = Some {| position := (11 # 2, 7 # 2, 11 # 2); material := 0;
            isBlock := true; mesh_blockKey := "5.5,3.5,5.5" |}
  /\ base.size (placedBlocks (@placeBlock sampleHost (11 # 2) (7 # 2) (11 # 2)
                                initialState)) = 1%nat
  /\ length (blockGroup (@placeBlock sampleHost (11 # 2) (7 # 2) (11 # 2)
                           initialState)) = 1%nat.
Proof.
  apply (@placeBlock_adds_one_cell sampleHost (11 # 2) (7 # 2) (11 # 2)
           initialState).
  reflexivity.
Defined.

Lemma removeBlock_frees_its_cell_witness :
  placedBlocks walkingBlockWorld !! mesh_blockKey grassBlock = Some grassBlock
  /\ placedBlocks (removeBlock grassBlock walkingBlockWorld)
       !! mesh_blockKey grassBlock = None
  /\ (forall k, k <> mesh_blockKey grassBlock ->
        placedBlocks (removeBlock grassBlock walkingBlockWorld) !! k
        = placedBlocks walkingBlockWorld !! k)
  /\ (exists before after,
        blockGroup walkingBlockWorld = before ++ grassBlock :: after
        /\ blockGroup (removeBlock grassBlock walkingBlockWorld)
           = before ++ after
        /\ grassBlock ∉ before ++ after)
  /\ consistent (removeBlock grassBlock walkingBlockWorld).
Proof.
  apply (proj2 (@removeBlock_frees_its_cell grassBlock walkingBlockWorld)).
  - reflexivity.
  - exact consistent_walkingBlockWorld.
  - exact grassBlock_in_group.
Defined.

Lemma place_then_remove_restores_witness :
  removeBlock
    {| position := (11 # 2, 7 # 2, 11 # 2); material := 0;
       isBlock := true; mesh_blockKey := "5.5,3.5,5.5" |}
    (@placeBlock sampleHost (11 # 2) (7 # 2) (11 # 2) initialState)
  = initialState.
Proof.
  apply (@place_then_remove_restores sampleHost).
  - apply consistent_initial.
  - reflexivity.
  - reflexivity.
Defined.


Lemma rotation_keys_compose_witness :
  getRotatedBlocks (onKeyRotate true blueprintWorld)
  = rotateBlocksCW (getRotatedBlocks blueprintWorld)
  /\ getRotatedBlocks (onKeyRotate false (onKeyRotate true blueprintWorld))
     = getRotatedBlocks blueprintWorld.
Proof.
  destruct (rotation_keys_compose blueprintWorld eq_refl eq_refl
              ltac:(cbn; lia)) as (W1 & _ & W3 & _).
  split; [exact W1 | exact W3].
Defined.

Lemma modeOk_blueprintWorld : blueprintModeOk blueprintWorld.
Proof.
  split; [vm_compute; lia|].
  intros _. split; [reflexivity | eexists; reflexivity].
Defined.

Lemma blueprint_mode_invariant_witness :
  blueprintActive blueprintWorld = true
  /\ blueprintModeOk (cancelBlueprint blueprintWorld)
  /\ blueprintModeOk (@placeBlueprint sampleHost blueprintWorld)
  /\ blueprintModeOk (onKeyRotate true blueprintWorld)
  /\ blueprintModeOk (@updateBlueprint sampleHost (0, - (1)) blueprintWorld)
  /\ blueprintModeOk (exitFPMode blueprintWorld)
  /\ blueprintModeOk (@onMouseDown sampleHost exactArithmetic true 0 None
                        blueprintWorld)
  /\ blueprintModeOk (@generate flatNoiseLib (Some 7%Z) 0 blueprintWorld)
  /\ blueprintActive (@generate flatNoiseLib (Some 7%Z) 0 blueprintWorld)
     = false
  /\ fpMode (@generate flatNoiseLib (Some 7%Z) 0 blueprintWorld) = false.
Proof.
  destruct (@blueprint_mode_invariant sampleHost exactArithmetic flatNoiseLib
              blueprintWorld modeOk_blueprintWorld)
    as (_ & W2 & W3 & W4 & W5 & _ & W7 & W8 & _ & W10).
  split; [reflexivity|].
  split; [exact W2|]. split; [exact W3|]. split; [apply W4|].
  split; [apply W5|]. split; [exact W7|]. split; [apply W8|].
  apply (W10 (Some 7%Z) 0).
Defined.

Lemma getPlacementPos_snaps_to_cells_witness :
  getPlacementPos eastFaceHit
  = (inject_Z 5 + (1 # 2) + inject_Z 1, inject_Z 3 + (1 # 2) + inject_Z 0,
     inject_Z 5 + (1 # 2) + inject_Z 0).
Proof.
  apply (proj2 (getPlacementPos_snaps_to_cells eastFaceHit)
           {| position := (11 # 2, 7 # 2, 11 # 2); material := 1;
              isBlock := true; mesh_blockKey := "5.5,3.5,5.5" |}
           5%Z 3%Z 5%Z 1%Z 0%Z 0%Z eq_refl).
  - cbn. repeat split; reflexivity.
  - cbn. repeat split; reflexivity.
Defined.

Lemma click_keeps_viewer_box_free_witness :
  placedBlocks walkingWorld !! "6.5,3.5,5.5"
  = Some {| position := (13 # 2, 7 # 2, 11 # 2); material := 5;
            isBlock := true; mesh_blockKey := "6.5,3.5,5.5" |}
  \/ (exists hit, Some eastFaceHit = Some hit
                  /\ position {| position := (13 # 2, 7 # 2, 11 # 2);
                                 material := 5; isBlock := true;
                                 mesh_blockKey := "6.5,3.5,5.5" |}
                     = getPlacementPos hit)
     /\ 0%Z = 0%Z
     /\ material {| position := (13 # 2, 7 # 2, 11 # 2); material := 5;
                    isBlock := true; mesh_blockKey := "6.5,3.5,5.5" |}
        = selectedSlot walkingWorld
     /\ ~ insideViewerBox 0 (cameraPosition walkingWorld)
           (position {| position := (13 # 2, 7 # 2, 11 # 2); material := 5;
                        isBlock := true; mesh_blockKey := "6.5,3.5,5.5" |}).
Proof.
  apply (@click_keeps_viewer_box_free sampleHost exactArithmetic 0 true 0
           (Some eastFaceHit) walkingWorld).
  - split; discriminate.
  - intros hit [= <-]. vm_compute. repeat split; discriminate.
  - reflexivity.
  - reflexivity.
Defined.

Lemma grounding_stays_above_water_witness :
  exists (kx ky kz : Z) (g' : Group),
    blueprintGroup (@updateBlueprint sampleHost (0, - (1)) blueprintWorld)
    = Some g'
    /\ group_position g' = (inject_Z kx, inject_Z ky, inject_Z kz)
    /\ (2 <= ky)%Z
    /\ ghosts g' = ghosts {| group_position := (0, 0, 0);
                             ghosts := [ ((1 # 2, 1 # 2, 1 # 2), 2);
                                         ((1 + (1 # 2), 1 # 2, 1 # 2), 3) ] |}
    /\ placedBlocks (@updateBlueprint sampleHost (0, - (1)) blueprintWorld)
       = placedBlocks blueprintWorld.
Proof.
  apply (@grounding_stays_above_water sampleHost (0, - (1)) blueprintWorld
           {| group_position := (0, 0, 0);
              ghosts := [ ((1 # 2, 1 # 2, 1 # 2), 2);
                          ((1 + (1 # 2), 1 # 2, 1 # 2), 3) ] |}
           eq_refl eq_refl).
Defined.

Lemma hotbar_selection_wraps_witness :
  selectedSlot (onWheel 100 walkingWorld) == inject_Z ((5 + 1) mod 6)
  /\ selectedSlot (onWheel (- (100)) (onWheel 100 walkingWorld))
     == selectedSlot walkingWorld.
Proof.
  destruct (proj2 (proj2 (hotbar_selection_wraps walkingWorld))
              5%Z 100 (- (100)) eq_refl ltac:(reflexivity) ltac:(lia)
              ltac:(reflexivity) ltac:(discriminate)) as (W1 & _ & W3 & _).
  split; [exact W1 | exact W3].
Defined.

Lemma accepted_blocks_are_valid_witness :
  (1 <= length [ {| b_x := inject_Z 3; b_y := inject_Z 0;
                    b_z := inject_Z (-1); b_type := 5 |} ] <= 500)%nat
  /\ Forall typeInRange [ {| b_x := inject_Z 3; b_y := inject_Z 0;
                            b_z := inject_Z (-1); b_type := 5 |} ]
  /\ exists items,
       JArr mixedReply = JArr items
       /\ Forall (fromEntry items)
                 [ {| b_x := inject_Z 3; b_y := inject_Z 0;
                      b_z := inject_Z (-1); b_type := 5 |} ].
Proof.
  apply (accepted_blocks_are_valid (JArr mixedReply)).
  reflexivity.
Defined.

Lemma mixedReply_no_null : JNull ∉ mixedReply.
Proof.
  unfold mixedReply. intros Hin.
  apply elem_of_cons in Hin. destruct Hin as [Hin|Hin]; [discriminate|].
  apply elem_of_cons in Hin. destruct Hin as [Hin|Hin]; [discriminate|].
  inversion Hin.
Defined.

Lemma validation_keeps_first_500_in_order_witness :
  validateBlocks (JArr mixedReply)
  = match take 500 (omap acceptedEntry mixedReply) with
    | [] => Rejected (match mixedReply with
                      | [] => NoBlocksGenerated
                      | _ => NoValidBlocks
                      end)
    | validated => Accepted validated
    end.
Proof.
  apply (validation_keeps_first_500_in_order mixedReply).
  apply mixedReply_no_null.
Defined.



End AppExamples.

(* ===================================================================== *)
(** * Properties of the generator *)
(* ===================================================================== *)

Module GeneratorProps.
Import Int32 Terrain Sample SeedProps TerrainProps.
Local Open Scope Z_scope.

Lemma toInt32_add_l (a b : Z) : toInt32 (toInt32 a + b) = toInt32 (a + b).
Proof.
  apply toInt32_congr. rewrite Zplus_mod, toInt32_mod, <- Zplus_mod.
  reflexivity.
Qed.

Lemma toInt32_periodic (a k : Z) : toInt32 (a + 2 ^ 32 * k) = toInt32 a.
Proof.
  apply toInt32_congr. rewrite Z.mul_comm. apply Z.mod_add. lia.
Qed.

Lemma rng_u32_wraps (g : Z) : rng_u32 g = rng_u32 (toInt32 g).
Proof.
  unfold rng_u32. rewrite !or32_zero, toInt32_idem. reflexivity.
Qed.

Lemma rng_state (g : Z) : snd (rng g) = toInt32 (g + 0x6d2b79f5).
Proof.
  unfold rng, rng_u32. cbn [snd]. rewrite !or32_zero. apply toInt32_add_l.
Qed.

Lemma rng_states (g : Z) (n : nat) :
  Nat.iter (S n) (fun s => snd (rng s)) g
  = toInt32 (g + Z.of_nat (S n) * 0x6d2b79f5).
Proof.
  induction n as [|n IH].
  - unfold Nat.iter. cbn [nat_rect]. rewrite rng_state. f_equal; lia.
  - rewrite Nat.iter_succ, IH, rng_state, toInt32_add_l. f_equal; lia.
Qed.

(** X16.  One call of the Mulberry32 closure returns a multiple of 2^-32
    in [0, 1) and moves the state on by the constant 0x6D2B79F5 modulo
    2^32: after n+1 calls the state is the seed plus (n+1) times the
    constant, as a signed 32-bit integer, whatever was drawn.  Seeds that
    differ by a multiple of 2^32 give the same stream. *)
Theorem mulberry32_stream (g : Z) :
  (exists u : Z, 0 <= u < 2 ^ 32
                 /\ fst (rng g) = (IZR u / 4294967296)%R)
  /\ (0 <= fst (rng g) < 1)%R
  /\ snd (rng g) = toInt32 (g + 0x6d2b79f5)
  /\ (forall n : nat,
        Nat.iter (S n) (fun s => snd (rng s)) g
        = toInt32 (g + Z.of_nat (S n) * 0x6d2b79f5))
  /\ (forall k : Z, rng (g + 2 ^ 32 * k) = rng g).
Proof.
  split; [|split; [apply rng_range|split; [apply rng_state|split]]].
  - exists (fst (rng_u32 g)). split; [|reflexivity].
    unfold rng_u32. cbn [fst]. unfold ushr32, toUint32.
    replace (0 mod 32) with 0 by reflexivity. rewrite Z.shiftr_0_r.
    apply Z.mod_pos_bound. lia.
  - intros n. apply rng_states.
  - intros k. unfold rng.
    rewrite (rng_u32_wraps (g + 2 ^ 32 * k)), toInt32_periodic,
      <- rng_u32_wraps.
    reflexivity.
Qed.

End GeneratorProps.

(* ===================================================================== *)
(** * Properties of the scenery: noise, mesh, chickens, clouds, water *)
(* ===================================================================== *)

Module SceneryProps.
Import Int32 Terrain Landscape Sample SeedProps TerrainProps.
Local Open Scope R_scope.

(** ** fBm *)

Lemma scaled_noise_bound (a n : R) : 0 < a -> -1 <= n <= 1 -> - a <= a * n <= a.
Proof.
  intros Ha [Hl Hu]. split.
  - replace (- a) with (a * -1) by lra. apply Rmult_le_compat_l; lra.
  - rewrite <- (Rmult_1_r a) at 2. apply Rmult_le_compat_l; lra.
Qed.

Lemma fbm_loop_bound (noise2D : R -> R -> R) (x z lacunarity gain : R)
    (octaves : nat) (value amplitude frequency max : R) :
  noise_in_range noise2D -> 0 < gain -> 0 < amplitude ->
  - max <= value <= max ->
  let r := fbm_loop noise2D x z lacunarity gain octaves value amplitude
                    frequency max in
  - snd r <= fst r <= snd r
  /\ max <= snd r
  /\ ((0 < octaves)%nat -> max + amplitude <= snd r).
Proof.
  intros Hn Hg. revert value amplitude frequency max.
  induction octaves as [|k IH]; intros value amplitude frequency max Ha Hv.
  - cbn. split; [exact Hv|]. split; [lra | intros Hk; inversion Hk].
  - cbn [fbm_loop].
    pose proof (scaled_noise_bound amplitude
                  (noise2D (x * frequency) (z * frequency)) Ha (Hn _ _)) as Hs.
    assert (Ha' : 0 < amplitude * gain) by (apply Rmult_lt_0_compat; lra).
    destruct (IH (value + amplitude * noise2D (x * frequency) (z * frequency))
                (amplitude * gain) (frequency * lacunarity) (max + amplitude)
                Ha' ltac:(lra)) as (I1 & I2 & _).
    split; [exact I1|]. split; [lra | intros _; exact I2].
Qed.

(** X17.  [fbm] divides the sum of the octaves by the sum of their
    amplitudes: with a noise function in [-1, 1], at least one octave and a
    positive gain, the result stays in [-1, 1], for any lacunarity. *)
Theorem fbm_stays_in_noise_range (noise2D : R -> R -> R) (x z : R)
    (octaves : nat) (lacunarity gain : R) :
  noise_in_range noise2D -> (0 < octaves)%nat -> 0 < gain ->
  -1 <= fbm noise2D x z octaves lacunarity gain <= 1.
Proof.
  intros Hn Ho Hg. unfold fbm.
  pose proof (fbm_loop_bound noise2D x z lacunarity gain octaves 0 1 1 0
                Hn Hg ltac:(lra) ltac:(lra)) as Hb.
  cbn zeta in Hb.
  destruct (fbm_loop noise2D x z lacunarity gain octaves 0 1 1 0)
    as [value max].
  cbn [fst snd] in Hb. destruct Hb as ([Hl Hu] & _ & Hm).
  specialize (Hm Ho).
  assert (Hpos : 0 < max) by lra.
  split.
  - apply Rmult_le_reg_r with max; [exact Hpos|].
    unfold Rdiv. rewrite Rmult_assoc, Rinv_l by lra. lra.
  - apply Rmult_le_reg_r with max; [exact Hpos|].
    unfold Rdiv. rewrite Rmult_assoc, Rinv_l by lra. lra.
Qed.

(** ** Chickens *)

Lemma chicken_coord_range (size r : R) :
  0 <= size -> 0 <= r < 1 ->
  Rabs ((r - 0.5) * size * 0.8) <= 0.8 * (size / 2).
Proof.
  intros Hs [H0 H1]. apply Rabs_le.
  assert (0 <= r * size) by (apply Rmult_le_pos; lra).
  assert (r * size <= 1 * size) by (apply Rmult_le_compat_r; lra).
  split; lra.
Qed.

Lemma floor_scaled_range (b : Z) (r : R) :
  (0 < b)%Z -> 0 <= r < 1 -> (0 <= Math_floor (r * IZR b) <= b - 1)%Z.
Proof.
  intros Hb Hr.
  pose proof (floor_affine_range 0 b r Hb Hr) as Hf.
  change (IZR 0) with 0 in Hf. rewrite Rplus_0_l in Hf. lia.
Qed.

Lemma chickenStep_spec (noise2D : R -> R -> R) (size : R) :
  0 <= size ->
  forall l s, exists s',
    chickenStep noise2D size (l, s) = (l, s')
    \/ exists a, chickenPlaced noise2D size a
                 /\ chickenStep noise2D size (l, s) = (l ++ [a], s').
Proof.
  intros Hs l s. unfold chickenStep.
  pose proof (rng_range s) as Hr1.
  destruct (rng s) as [r1 g1]. simpl in Hr1.
  pose proof (rng_range g1) as Hr2.
  destruct (rng g1) as [r2 g2]. simpl in Hr2.
  destruct (Rltb _ 0.13 || Rltb 0.43 _)%bool eqn:Eb.
  - exists g2. left. reflexivity.
  - apply Bool.orb_false_iff in Eb. destruct Eb as [E1 E2].
    apply Rltb_false in E1, E2.
    pose proof (rng_range g2) as Hr3.
    destruct (rng g2) as [r3 g3]. simpl in Hr3.
    destruct (rng g3) as [r4 g4].
    pose proof (rng_range g4) as Hr5.
    destruct (rng g4) as [r5 g5]. simpl in Hr5.
    destruct (rng g5) as [r6 g6].
    exists g6. right. eexists. split; [|reflexivity].
    exists ((r1 - 0.5) * size * 0.8), ((r2 - 0.5) * size * 0.8).
    split; [split; apply chicken_coord_range; assumption|].
    cbn [chicken_position baseY targetX targetZ state stateTimer chicken_color].
    cbv zeta.
    split; [lra|]. repeat (split; [reflexivity|]).
    split; [lra|]. apply (floor_scaled_range 5 r3); [lia | exact Hr3].
Qed.

Lemma createChickens_spec (noise2D : R -> R -> R) (g : Z) (size : R) :
  0 <= size ->
  (15 <= chickenCount g <= 30)%Z
  /\ (length (fst (createChickens noise2D g size))
      <= Z.to_nat (chickenCount g))%nat
  /\ Forall (chickenPlaced noise2D size) (fst (createChickens noise2D g size)).
Proof.
  intros Hs. split.
  - unfold chickenCount. apply (floor_affine_range 15 16); [lia | apply rng_range].
  - unfold createChickens.
    destruct (scatter_loop_inv _ _ (chickenStep_spec noise2D size Hs)
                (Z.to_nat (chickenCount g)) [] (snd (rng g)) (List.Forall_nil _))
      as [Hok Hlen].
    split; assumption.
Qed.

(** X18.  For every state of the generator and every noise function in
    range, [createChickens] draws a number [count] of candidates between 15
    and 30 and yields at most [count] chickens, a candidate outside the
    height band 0.13..0.43 being skipped; each chicken stands at a sampled
    (x, z) within 0.8 of the map extent, on the ground (height*30), idle,
    with its walk target at its own place, a timer in [0, 3) and one of the
    five body colours. *)
Theorem chicken_pass_counts_and_placement (noise2D : R -> R -> R) (g : Z)
    (size : R) :
  noise_in_range noise2D -> 0 <= size ->
  (15 <= chickenCount g <= 30)%Z
  /\ (length (fst (createChickens noise2D g size))
      <= Z.to_nat (chickenCount g))%nat
  /\ Forall (chickenPlaced noise2D size) (fst (createChickens noise2D g size)).
Proof.
  intros _ Hs. apply createChickens_spec, Hs.
Qed.

(** ** Clouds *)

Lemma cloud_centre_range (size r : R) :
  0 <= size -> 0 <= r < 1 ->
  - (0.6 * size) <= (r - 0.5) * size * 1.2 <= 0.6 * size.
Proof.
  intros Hs [H0 H1].
  assert (0 <= r * size) by (apply Rmult_le_pos; lra).
  assert (r * size <= 1 * size) by (apply Rmult_le_compat_r; lra).
  split; lra.
Qed.

Lemma puffLoop_spec (size cx cy cz : R) (puffs : nat) (g : Z) :
  - (0.6 * size) <= cx <= 0.6 * size -> 28 <= cy < 43 ->
  - (0.6 * size) <= cz <= 0.6 * size ->
  length (fst (puffLoop cx cy cz puffs g)) = puffs
  /\ Forall (puffPlaced size) (fst (puffLoop cx cy cz puffs g)).
Proof.
  intros Hx Hy Hz.
  revert g. induction puffs as [|k IH]; intros g.
  - cbn. split; [reflexivity | constructor].
  - cbn [puffLoop].
    pose proof (rng_range g) as H0. destruct (rng g) as [r0 g0]. cbn in H0.
    pose proof (rng_range g0) as H1. destruct (rng g0) as [r1 g1]. cbn in H1.
    pose proof (rng_range g1) as H2. destruct (rng g1) as [r2 g2]. cbn in H2.
    pose proof (rng_range g2) as H3. destruct (rng g2) as [r3 g3]. cbn in H3.
    pose proof (rng_range g3) as H4. destruct (rng g3) as [r4 g4]. cbn in H4.
    specialize (IH g4). destruct (puffLoop cx cy cz k g4) as [rest g5].
    cbn [fst] in *. destruct IH as [IHl IHf].
    split; [cbn; rewrite IHl; reflexivity|].
    constructor; [|exact IHf].
    unfold puffPlaced. cbn [puff_position puff_radius puff_scale_y].
    split; [lra|]. split; [lra|]. split; [lra|].
    split; apply Rabs_le; lra.
Qed.

Lemma clusterLoop_spec (size : R) (clusters : nat) (g : Z) :
  0 <= size ->
  length (fst (clusterLoop size clusters g)) = clusters
  /\ Forall (fun c => (3 <= length c <= 7)%nat /\ Forall (puffPlaced size) c)
            (fst (clusterLoop size clusters g)).
Proof.
  intros Hs. revert g. induction clusters as [|k IH]; intros g.
  - cbn. split; [reflexivity | constructor].
  - cbn [clusterLoop].
    pose proof (rng_range g) as H0. destruct (rng g) as [r0 g0]. cbn in H0.
    pose proof (rng_range g0) as H1. destruct (rng g0) as [r1 g1]. cbn in H1.
    pose proof (rng_range g1) as H2. destruct (rng g1) as [r2 g2]. cbn in H2.
    pose proof (rng_range g2) as H3. destruct (rng g2) as [r3 g3]. cbn in H3.
    pose proof (floor_scaled_range 5 r3 ltac:(lia) H3) as Hp.
    pose proof (puffLoop_spec size ((r0 - 0.5) * size * 1.2) (28 + r1 * 15)
                  ((r2 - 0.5) * size * 1.2)
                  (Z.to_nat (3 + Math_floor (r3 * 5))) g3
                  (cloud_centre_range size r0 Hs H0) ltac:(lra)
                  (cloud_centre_range size r2 Hs H2)) as [Pl Pf].
    destruct (puffLoop _ _ _ _ g3) as [cluster g4]. cbn [fst] in Pl, Pf.
    specialize (IH g4). destruct (clusterLoop size k g4) as [rest g5].
    cbn [fst] in *. destruct IH as [IHl IHf].
    split; [cbn; rewrite IHl; reflexivity|].
    constructor; [|exact IHf]. split; [lia | exact Pf].
Qed.

Lemma createClouds_spec (g : Z) (size : R) :
  0 <= size ->
  exists clusters : list (list Puff),
    fst (createClouds g size) = concat clusters
    /\ length clusters = Z.to_nat (clusterCount g)
    /\ (15 <= clusterCount g <= 24)%Z
    /\ Forall (fun c => (3 <= length c <= 7)%nat
                        /\ Forall (puffPlaced size) c) clusters.
Proof.
  intros Hs. unfold createClouds.
  pose proof (clusterLoop_spec size (Z.to_nat (clusterCount g)) (snd (rng g)) Hs)
    as [Cl Cf].
  destruct (clusterLoop size _ _) as [clusters g'] eqn:E. cbn [fst] in *.
  exists clusters. split; [reflexivity|]. split; [exact Cl|].
  split; [|exact Cf].
  unfold clusterCount. apply (floor_affine_range 15 10); [lia | apply rng_range].
Qed.

(** X19.  [createClouds] makes exactly [clusterCount] clusters, between 15
    and 24, none skipped; each cluster has 3 to 7 puffs, and every puff has
    a radius in [2, 5), a vertical squash in [0.4, 0.7), a height in
    [27.25, 43.75) and a place within 0.6 of the extent plus 3 of the
    centre. *)
Theorem cloud_pass_cluster_counts (g : Z) (size : R) :
  0 <= size ->
  exists clusters : list (list Puff),
    fst (createClouds g size) = concat clusters
    /\ length clusters = Z.to_nat (clusterCount g)
    /\ (15 <= clusterCount g <= 24)%Z
    /\ Forall (fun c => (3 <= length c <= 7)%nat
                        /\ Forall (puffPlaced size) c) clusters.
Proof.
  apply createClouds_spec.
Qed.

(** ** Water waves *)

Lemma waveStrength_range (x z : R) : 0 <= waveStrength x z <= 1.
Proof.
  unfold waveStrength.
  pose proof (Math_pow_nonneg (sqrt (x * x + z * z) / 120 * 1.2) 3).
  unfold Rmax. destruct (Rle_dec _ _); lra.
Qed.

Lemma wave_bound (x z time : R) : Rabs (wave x z time) <= 0.35.
Proof.
  unfold wave.
  pose proof (SIN_bound (x * 0.08 + time * 1.2)) as S1.
  pose proof (SIN_bound (z * 0.06 + time * 0.9)) as S2.
  pose proof (SIN_bound ((x + z) * 0.05 + time * 1.5)) as S3.
  pose proof (waveStrength_range x z) as [W0 W1].
  set (a := sin _ * 0.15 + sin _ * 0.12 + sin _ * 0.08).
  assert (Ha : -0.35 <= a <= 0.35) by (unfold a; lra).
  set (w := waveStrength x z) in *.
  apply Rabs_le. split.
  - assert (0 <= (a + 0.35) * w) by (apply Rmult_le_pos; lra).
    assert (0.35 * w <= 0.35 * 1) by (apply Rmult_le_compat_l; lra). lra.
  - assert (0 <= (0.35 - a) * w) by (apply Rmult_le_pos; lra).
    assert (0.35 * w <= 0.35 * 1) by (apply Rmult_le_compat_l; lra). lra.
Qed.

Lemma animateWater_heights (vertices : list (R * R)) (base : list R)
    (time : R) :
  Forall2 (fun y0 y => Rabs (y - y0) <= 0.35)
          (firstn (length vertices) base)
          (map (fun vb => let '((x, z), y0) := vb in y0 + wave x z time)
               (combine vertices base)).
Proof.
  revert base. induction vertices as [|[x z] vertices IH]; intros base.
  - cbn. constructor.
  - destruct base as [|y0 base]; cbn; [constructor|].
    constructor; [|apply IH].
    replace (y0 + wave x z time - y0) with (wave x z time) by lra.
    apply wave_bound.
Qed.

(** X20.  [animateWater] does nothing without stored base heights.  With
    them (one per vertex, as [createWater] stores them) every vertex is put
    within 0.35 of its base height, whatever the time; the wave vanishes at
    the centre of the map and has full strength from distance 100 on. *)
Theorem water_waves_are_bounded (vertices : list (R * R)) (time : R) :
  animateWater vertices None time = None
  /\ (forall base, length base = length vertices ->
        exists heights,
          animateWater vertices (Some base) time = Some heights
          /\ Forall2 (fun y0 y => Rabs (y - y0) <= 0.35) base heights)
  /\ wave 0 0 time = 0
  /\ (forall x z, 100 <= sqrt (x * x + z * z) -> waveStrength x z = 1).
Proof.
  split; [reflexivity|]. split; [|split].
  - intros base Hlen. eexists. split; [reflexivity|].
    pose proof (animateWater_heights vertices base time) as Hh.
    rewrite <- Hlen, firstn_all in Hh. exact Hh.
  - unfold wave, waveStrength, Math_pow.
    replace (0 * 0 + 0 * 0) with 0 by lra. rewrite sqrt_0.
    replace (0 / 120 * 1.2) with 0 by lra.
    destruct (Rle_dec 0 0) as [_|Hn]; [|lra].
    unfold Rmax. destruct (Rle_dec 0 (1 - 0)); lra.
  - intros x z Hd. unfold waveStrength.
    pose proof (Math_pow_ge_1 (sqrt (x * x + z * z) / 120 * 1.2) 3
                  ltac:(lra) ltac:(lra)).
    unfold Rmax. destruct (Rle_dec _ _); lra.
Qed.

(** ** Terrain colours *)

Lemma clamp01_range (t : R) : 0 <= clamp01 t <= 1.
Proof.
  unfold clamp01, Rmax, Rmin.
  destruct (Rle_dec 1 t); destruct (Rle_dec 0 _); lra.
Qed.

Lemma clamp01_id (t : R) : 0 <= t <= 1 -> clamp01 t = t.
Proof.
  intros Ht. unfold clamp01, Rmax, Rmin.
  destruct (Rle_dec 1 t); destruct (Rle_dec 0 _); lra.
Qed.

Lemma between_lerp (a b t : R) : 0 <= t <= 1 -> between a b (a + (b - a) * t).
Proof.
  intros [H0 H1]. unfold between, Rmin, Rmax.
  destruct (Rle_dec a b) as [Hab|Hab].
  - assert (0 <= (b - a) * t) by (apply Rmult_le_pos; lra).
    assert ((b - a) * t <= (b - a) * 1) by (apply Rmult_le_compat_l; lra).
    lra.
  - assert (0 <= (a - b) * t) by (apply Rmult_le_pos; lra).
    assert ((a - b) * t <= (a - b) * 1) by (apply Rmult_le_compat_l; lra).
    lra.
Qed.

Lemma lerpColor_between (c1 c2 : Color) (t : R) :
  colorBetween c1 c2 (lerpColor c1 c2 t).
Proof.
  destruct c1 as [[r1 g1] b1], c2 as [[r2 g2] b2].
  unfold colorBetween, lerpColor.
  pose proof (clamp01_range t).
  repeat split; apply between_lerp; assumption.
Qed.

Lemma lerpColor_0 (c1 c2 : Color) : lerpColor c1 c2 0 = c1.
Proof.
  destruct c1 as [[r1 g1] b1], c2 as [[r2 g2] b2]. unfold lerpColor.
  rewrite clamp01_id by lra. repeat f_equal; lra.
Qed.

Lemma lerpColor_1 (c1 c2 : Color) : lerpColor c1 c2 1 = c2.
Proof.
  destruct c1 as [[r1 g1] b1], c2 as [[r2 g2] b2]. unfold lerpColor.
  rewrite clamp01_id by lra. repeat f_equal; lra.
Qed.

Lemma getTerrainColor_bands (p : Palette) (h : R) :
  (h < 0.08 -> getTerrainColor p h = sand p)
  /\ (0.15 <= h < 0.45 -> getTerrainColor p h = grass p)
  /\ (0.55 <= h < 0.75 -> getTerrainColor p h = rock p)
  /\ (0.85 <= h -> getTerrainColor p h = snow p).
Proof.
  unfold getTerrainColor. repeat split; intros Hh.
  - rewrite (Rltb_lt h 0.08) by lra. reflexivity.
  - rewrite (Rltb_ge h 0.08), (Rltb_ge h 0.15), (Rltb_lt h 0.45) by lra.
    reflexivity.
  - rewrite (Rltb_ge h 0.08), (Rltb_ge h 0.15), (Rltb_ge h 0.45),
      (Rltb_ge h 0.55), (Rltb_lt h 0.75) by lra.
    reflexivity.
  - rewrite (Rltb_ge h 0.08), (Rltb_ge h 0.15), (Rltb_ge h 0.45),
      (Rltb_ge h 0.55), (Rltb_ge h 0.75), (Rltb_ge h 0.85) by lra.
    reflexivity.
Qed.

(** X21.  [getTerrainColor] returns the pure colour in the bands of sand
    (below 0.08), grass (0.15..0.45), rock (0.55..0.75) and snow (from 0.85)
    and, in the three zones between, a blend whose channels lie between
    those of the two neighbours.  The blends meet the bands without a seam:
    each starts at the colour of the band below and reaches the colour of
    the band above at the upper threshold. *)
Theorem terrain_colour_blends (p : Palette) (h : R) :
  (h < 0.08 -> getTerrainColor p h = sand p)
  /\ (0.08 <= h < 0.15 ->
      getTerrainColor p h = lerpColor (sand p) (grass p) ((h - 0.08) / 0.07)
      /\ colorBetween (sand p) (grass p) (getTerrainColor p h))
  /\ (0.15 <= h < 0.45 -> getTerrainColor p h = grass p)
  /\ (0.45 <= h < 0.55 ->
      getTerrainColor p h = lerpColor (grass p) (rock p) ((h - 0.45) / 0.10)
      /\ colorBetween (grass p) (rock p) (getTerrainColor p h))
  /\ (0.55 <= h < 0.75 -> getTerrainColor p h = rock p)
  /\ (0.75 <= h < 0.85 ->
      getTerrainColor p h = lerpColor (rock p) (snow p) ((h - 0.75) / 0.10)
      /\ colorBetween (rock p) (snow p) (getTerrainColor p h))
  /\ (0.85 <= h -> getTerrainColor p h = snow p)
  /\ (getTerrainColor p 0.08 = sand p
      /\ lerpColor (sand p) (grass p) ((0.15 - 0.08) / 0.07)
         = getTerrainColor p 0.15)
  /\ (getTerrainColor p 0.45 = grass p
      /\ lerpColor (grass p) (rock p) ((0.55 - 0.45) / 0.10)
         = getTerrainColor p 0.55)
  /\ (getTerrainColor p 0.75 = rock p
      /\ lerpColor (rock p) (snow p) ((0.85 - 0.75) / 0.10)
         = getTerrainColor p 0.85).
Proof.
  pose proof (getTerrainColor_bands p h) as (B1 & B2 & B3 & B4).
  assert (L1 : forall h, 0.08 <= h < 0.15 ->
            getTerrainColor p h
            = lerpColor (sand p) (grass p) ((h - 0.08) / 0.07)).
  { intros k Hk. unfold getTerrainColor.
    rewrite (Rltb_ge k 0.08), (Rltb_lt k 0.15) by lra. reflexivity. }
  assert (L2 : forall h, 0.45 <= h < 0.55 ->
            getTerrainColor p h
            = lerpColor (grass p) (rock p) ((h - 0.45) / 0.10)).
  { intros k Hk. unfold getTerrainColor.
    rewrite (Rltb_ge k 0.08), (Rltb_ge k 0.15), (Rltb_ge k 0.45),
      (Rltb_lt k 0.55) by lra. reflexivity. }
  assert (L3 : forall h, 0.75 <= h < 0.85 ->
            getTerrainColor p h
            = lerpColor (rock p) (snow p) ((h - 0.75) / 0.10)).
  { intros k Hk. unfold getTerrainColor.
    rewrite (Rltb_ge k 0.08), (Rltb_ge k 0.15), (Rltb_ge k 0.45),
      (Rltb_ge k 0.55), (Rltb_ge k 0.75), (Rltb_lt k 0.85) by lra.
    reflexivity. }
  split; [exact B1|].
  split; [intros Hh; rewrite (L1 h Hh); split;
          [reflexivity | apply lerpColor_between]|].
  split; [exact B2|].
  split; [intros Hh; rewrite (L2 h Hh); split;
          [reflexivity | apply lerpColor_between]|].
  split; [exact B3|].
  split; [intros Hh; rewrite (L3 h Hh); split;
          [reflexivity | apply lerpColor_between]|].
  split; [exact B4|].
  split; [|split].
  - split.
    + rewrite (L1 0.08) by lra.
      replace ((0.08 - 0.08) / 0.07) with 0 by lra. apply lerpColor_0.
    + replace ((0.15 - 0.08) / 0.07) with 1 by lra. rewrite lerpColor_1.
      symmetry. apply (getTerrainColor_bands p 0.15). lra.
  - split.
    + rewrite (L2 0.45) by lra.
      replace ((0.45 - 0.45) / 0.10) with 0 by lra. apply lerpColor_0.
    + replace ((0.55 - 0.45) / 0.10) with 1 by lra. rewrite lerpColor_1.
      symmetry. apply (getTerrainColor_bands p 0.55). lra.
  - split.
    + rewrite (L3 0.75) by lra.
      replace ((0.75 - 0.75) / 0.10) with 0 by lra. apply lerpColor_0.
    + replace ((0.85 - 0.75) / 0.10) with 1 by lra. rewrite lerpColor_1.
      symmetry. apply (getTerrainColor_bands p 0.85). lra.
Qed.

(** ** Terrain mesh *)

Lemma normDist_edge (x z halfSize : R) :
  0 < halfSize -> halfSize <= Rabs x \/ halfSize <= Rabs z ->
  1 <= normDist x z halfSize.
Proof.
  intros Hs Hedge. unfold normDist.
  rewrite <- sqrt_1 at 1. apply sqrt_le_1_alt.
  assert (Hsq : forall a, halfSize <= Rabs a ->
                   1 <= a / halfSize * (a / halfSize)).
  { intros a Ha.
    assert (H1 : 1 <= Rabs (a / halfSize)).
    { unfold Rdiv. rewrite Rabs_mult, (Rabs_right (/ halfSize)).
      - apply (Rmult_le_reg_r halfSize); [lra|].
        rewrite Rmult_assoc, Rinv_l by lra. lra.
      - apply Rle_ge. left. apply Rinv_0_lt_compat. lra. }
    replace (a / halfSize * (a / halfSize))
      with (Rabs (a / halfSize) * Rabs (a / halfSize)).
    - replace 1 with (1 * 1) at 1 by lra.
      apply Rmult_le_compat; lra.
    - rewrite <- Rabs_mult. apply Rabs_right.
      apply Rle_ge. apply Rle_0_sqr. }
  pose proof (Rle_0_sqr (x / halfSize)) as Hx.
  pose proof (Rle_0_sqr (z / halfSize)) as Hz.
  unfold Rsqr in Hx, Hz.
  destruct Hedge as [Ha|Ha]; apply Hsq in Ha; lra.
Qed.

(** X22.  [createTerrain] keeps the (x, z) of every vertex and gives it an
    elevation in [0, 30] and the colour of elevation/30: sand below 2.4,
    grass from 4.5 to 13.5, rock from 16.5 to 22.5, snow from 25.5.  A vertex
    on or outside the square of the map extent lies at elevation 0 and is
    sand. *)
Theorem terrain_mesh_elevation_and_colour (p : Palette)
    (noise2D : R -> R -> R) (size : R) (vertices : list (R * R)) :
  noise_in_range noise2D -> 0 < size ->
  Forall2 (fun v out =>
             let '(x, z) := v in
             let '((x', y, z'), c) := out in
             x' = x /\ z' = z /\ 0 <= y <= 30
             /\ c = getTerrainColor p (y / 30)
             /\ (y < 2.4 -> c = sand p)
             /\ (4.5 <= y < 13.5 -> c = grass p)
             /\ (16.5 <= y < 22.5 -> c = rock p)
             /\ (25.5 <= y -> c = snow p)
             /\ (size / 2 <= Rabs x \/ size / 2 <= Rabs z ->
                 y = 0 /\ c = sand p))
          vertices (createTerrain p noise2D size vertices).
Proof.
  intros Hn Hs. unfold createTerrain.
  induction vertices as [|[x z] vertices IH]; cbn [map]; constructor;
    [|exact IH].
  pose proof (sampleHeight_range noise2D x z (size / 2) Hn) as Hh.
  set (h := sampleHeight noise2D x z (size / 2)) in *.
  replace (h * 30 / 30) with h by lra.
  pose proof (getTerrainColor_bands p h) as (B1 & B2 & B3 & B4).
  split; [reflexivity|]. split; [reflexivity|]. split; [lra|].
  split; [reflexivity|].
  split; [intros; apply B1; lra|].
  split; [intros; apply B2; lra|].
  split; [intros; apply B3; lra|].
  split; [intros; apply B4; lra|].
  intros Hedge.
  assert (H0 : h = 0).
  { unfold h. apply sampleHeight_outside. apply normDist_edge; [lra|exact Hedge]. }
  split; [lra|]. apply B1. lra.
Qed.








(** ** Chicken animation *)



(** ** The landscape as a whole *)

Lemma concat_length_bounds {A : Type} (lo hi : nat) (ls : list (list A)) :
  Forall (fun l => (lo <= length l <= hi)%nat) ls ->
  (lo * length ls <= length (concat ls) <= hi * length ls)%nat.
Proof.
  induction 1 as [|l ls Hl _ IH]; cbn; [lia|].
  rewrite length_app. lia.
Qed.

(** X29.  For every seed whose noise function is in range,
    [generateLandscape] builds a map of extent 200 with at most 249 trees,
    139 rocks, 349 flowers and 30 chickens, each standing where its pass
    promises (within 0.85, for chickens 0.8, of the extent, in its height
    band), and between 45 and 168 cloud puffs. *)
Theorem landscape_population `{NoiseLib} (seed : Z) :
  noise_in_range (fst (createNoise2D (mulberry32 seed))) ->
  let l := generateLandscape seed in
  let chickens := fst (generateScenery seed) in
  let clouds := snd (generateScenery seed) in
  Landscape.size l = 200
  /\ noise2D l = fst (createNoise2D (mulberry32 seed))
  /\ ((length (trees l) <= 249)%nat
      /\ Forall (treePlaced (noise2D l) 200) (trees l))
  /\ ((length (rocks l) <= 139)%nat
      /\ Forall (rockPlaced (noise2D l) 200) (rocks l))
  /\ ((length (flowers l) <= 349)%nat
      /\ Forall (flowerPlaced (noise2D l) 200) (flowers l))
  /\ ((length chickens <= 30)%nat
      /\ Forall (chickenPlaced (noise2D l) 200) chickens)
  /\ ((45 <= length clouds <= 168)%nat /\ Forall (puffPlaced 200) clouds).
Proof.
  intros _. cbv zeta. unfold generateLandscape, generateScenery.
  destruct (createNoise2D (mulberry32 seed)) as [n g0]. cbn [fst].
  pose proof (createTrees_spec n g0 200 ltac:(lra)) as (Ht & Htl & Htp).
  destruct (createTrees n g0 200) as [ts g1]. cbn [fst] in Htl, Htp.
  pose proof (createRocks_spec n g1 200 ltac:(lra)) as (Hr & Hrl & Hrp).
  destruct (createRocks n g1 200) as [rs g2]. cbn [fst] in Hrl, Hrp.
  pose proof (createFlowers_spec n g2 200 ltac:(lra)) as (Hf & Hfl & Hfp).
  destruct (createFlowers n g2 200) as [fs g3]. cbn [fst] in Hfl, Hfp.
  pose proof (createChickens_spec n g3 200 ltac:(lra)) as (Hc & Hcl & Hcp).
  destruct (createChickens n g3 200) as [cs g4]. cbn [fst] in Hcl, Hcp.
  destruct (createClouds_spec g4 200 ltac:(lra))
    as (clusters & Ecl & Hlen & Hcount & Hclusters).
  destruct (createClouds g4 200) as [ps g5]. cbn [fst snd] in *.
  cbn [Landscape.size noise2D trees rocks flowers].
  split; [reflexivity|]. split; [reflexivity|].
  split; [split; [lia|exact Htp]|].
  split; [split; [lia|exact Hrp]|].
  split; [split; [lia|exact Hfp]|].
  split; [split; [lia|exact Hcp]|].
  subst ps. split.
  - pose proof (concat_length_bounds 3 7 clusters
                  (Forall_impl _ _ _ Hclusters (fun c H => proj1 H))) as Hb.
    lia.
  - apply Forall_concat.
    apply (Forall_impl _ _ _ Hclusters). intros c Hcl'. apply Hcl'.
Qed.

End SceneryProps.

(* ===================================================================== *)
(** * Properties of the seed field *)
(* ===================================================================== *)

Module SeedFieldProps.
Import Int32 Landscape App Seed.
Local Open Scope Z_scope.

(** ** Trimming *)

Lemma trimStart_blank (ws s : jsstring) :
  forallb isWhiteSpace ws = true -> trimStart (ws ++ s) = trimStart s.
Proof.
  induction ws as [|c ws IH]; cbn; [reflexivity|].
  intros Hw. apply andb_prop in Hw as [Hc Hw]. rewrite Hc. apply IH, Hw.
Qed.

Lemma trimStart_kept (c : Z) (s : jsstring) :
  isWhiteSpace c = false -> trimStart (c :: s) = c :: s.
Proof. intros Hc. cbn. rewrite Hc. reflexivity. Qed.

Lemma trimStart_all_blank (s : jsstring) :
  trimStart s = [] <-> forallb isWhiteSpace s = true.
Proof.
  induction s as [|c s IH]; cbn; [tauto|].
  destruct (isWhiteSpace c); cbn; [exact IH|].
  split; discriminate.
Qed.

Lemma forallb_rev {A : Type} (f : A -> bool) (l : list A) :
  forallb f (rev l) = forallb f l.
Proof.
  induction l as [|a l IH]; cbn; [reflexivity|].
  rewrite forallb_app, IH. cbn. rewrite andb_true_r. apply andb_comm.
Qed.

(** A suffix of blanks before a text that ends in a character that is not
    blank: what [trimStart] leaves of the reversed text. *)
Lemma trimStart_before_kept (l k : jsstring) (c : Z) :
  isWhiteSpace c = false ->
  exists l', trimStart (l ++ c :: k) = l' ++ c :: k
             /\ exists p, l = p ++ l' /\ forallb isWhiteSpace p = true.
Proof.
  intros Hc. induction l as [|a l IH].
  - exists []. split; [apply trimStart_kept, Hc|]. exists []. auto.
  - cbn [app trimStart]. destruct (isWhiteSpace a) eqn:Ea.
    + destruct IH as (l' & E & p & Hp & Hw).
      exists l'. split; [exact E|]. exists (a :: p).
      split; [rewrite Hp; reflexivity|]. cbn. rewrite Ea. exact Hw.
    + exists (a :: l). split; [reflexivity|]. exists []. auto.
Qed.

Lemma trimStart_split (s : jsstring) (c : Z) (s' : jsstring) :
  trimStart s = c :: s' ->
  exists p, s = p ++ c :: s' /\ forallb isWhiteSpace p = true
            /\ isWhiteSpace c = false.
Proof.
  induction s as [|a s IH]; cbn; [discriminate|].
  destruct (isWhiteSpace a) eqn:Ea.
  - intros Es. destruct (IH Es) as (p & E & Hp & Hc).
    exists (a :: p). rewrite E. cbn. rewrite Ea. auto.
  - intros Es. inversion Es; subst. exists []. auto.
Qed.

Lemma trim_blank_around (ws ws' s : jsstring) :
  forallb isWhiteSpace ws = true -> forallb isWhiteSpace ws' = true ->
  trim (ws ++ s ++ ws') = trim s.
Proof.
  intros Hw Hw'. unfold trim. rewrite (trimStart_blank ws _ Hw).
  destruct (trimStart s) as [|c s'] eqn:Es.
  - apply trimStart_all_blank in Es.
    assert (Hall : trimStart (s ++ ws') = []).
    { apply trimStart_all_blank. rewrite forallb_app, Es, Hw'. reflexivity. }
    rewrite Hall. reflexivity.
  - destruct (trimStart_split s c s' Es) as (p & E & Hp & Hc).
    assert (Es' : trimStart (s ++ ws') = c :: s' ++ ws').
    { rewrite E, <- app_assoc. rewrite (trimStart_blank p _ Hp).
      cbn [app]. apply trimStart_kept, Hc. }
    rewrite Es'.
    change (c :: s' ++ ws') with ((c :: s') ++ ws').
    rewrite rev_app_distr.
    rewrite (trimStart_blank (rev ws') _); [reflexivity|].
    rewrite forallb_rev. exact Hw'.
Qed.

Lemma trim_all_blank (s : jsstring) :
  trim s = [] <-> forallb isWhiteSpace s = true.
Proof.
  unfold trim. split.
  - intros E. apply (f_equal (@rev Z)) in E. rewrite rev_involutive in E.
    cbn in E. apply trimStart_all_blank in E. rewrite forallb_rev in E.
    destruct (trimStart s) as [|c s'] eqn:Es.
    + apply trimStart_all_blank, Es.
    + destruct (trimStart_split s c s' Es) as (_ & _ & _ & Hc).
      cbn in E. rewrite Hc in E. discriminate.
  - intros Hs. apply trimStart_all_blank in Hs. rewrite Hs. reflexivity.
Qed.

(** ** Numbers in the seed field *)

Lemma isDigit_not_blank (c : Z) : isDigit c = true -> isWhiteSpace c = false.
Proof.
  unfold isDigit, isWhiteSpace. intros Hd.
  apply andb_prop in Hd as [H1 H2]. apply Z.leb_le in H1, H2.
  repeat match goal with
         | |- context [(?a <=? ?b)] =>
             let H := fresh in
             destruct (Z.leb_spec a b) as [H|H]; cbn
         | |- context [(?a =? ?b)] =>
             let H := fresh in
             destruct (Z.eqb_spec a b) as [H|H]; cbn
         end; try reflexivity; lia.
Qed.

Lemma digitsValue_prefix (ds rest : jsstring) (acc : Z) :
  forallb isDigit ds = true -> startsWithDigit rest = false ->
  digitsValue acc (ds ++ rest) = digitsValue acc ds.
Proof.
  revert acc. induction ds as [|d ds IH]; intros acc Hd Hr.
  - cbn. destruct rest as [|c rest]; [reflexivity|].
    cbn in Hr |- *. rewrite Hr. reflexivity.
  - cbn in Hd |- *. apply andb_prop in Hd as [Hd0 Hd].
    rewrite Hd0. apply IH; assumption.
Qed.

Lemma digitsValue_nonneg (ds : jsstring) (acc : Z) :
  0 <= acc -> 0 <= digitsValue acc ds.
Proof.
  revert acc. induction ds as [|d ds IH]; intros acc Ha; cbn; [exact Ha|].
  destruct (isDigit d) eqn:Ed; [|exact Ha].
  apply IH. unfold isDigit in Ed. apply andb_prop in Ed as [H1 H2].
  apply Z.leb_le in H1, H2. lia.
Qed.

(** What [trim] leaves of a text whose first part [K] begins and ends with
    a kept character: [K] and a part of what follows it. *)
Lemma trim_kept_block (K rest : jsstring) :
  K <> [] ->
  isWhiteSpace (hd 0 K) = false -> isWhiteSpace (hd 0 (rev K)) = false ->
  exists rest', trim (K ++ rest) = K ++ rest'
                /\ (rest' = [] \/ exists a r r', rest' = a :: r
                                                /\ rest = a :: r').
Proof.
  intros HK Hc He. unfold trim.
  destruct K as [|c k]; [congruence|]. cbn [hd] in Hc.
  cbn [app]. rewrite (trimStart_kept c _ Hc).
  change (c :: k ++ rest) with ((c :: k) ++ rest).
  remember (c :: k) as K eqn:EK.
  rewrite rev_app_distr.
  destruct (rev K) as [|e K'] eqn:ER.
  { apply (f_equal (@rev Z)) in ER. rewrite rev_involutive in ER.
    subst K. discriminate. }
  cbn [hd] in He.
  destruct (trimStart_before_kept (rev rest) K' e He)
    as (l' & E & p & Hp & Hw).
  rewrite E. exists (rev l').
  split.
  - rewrite rev_app_distr, <- ER, rev_involutive, EK. reflexivity.
  - destruct (rev l') as [|a r] eqn:El; [left; reflexivity|right].
    exists a, r. apply (f_equal (@rev Z)) in Hp.
    rewrite rev_involutive, rev_app_distr, El in Hp.
    eexists. split; [reflexivity|]. rewrite Hp. reflexivity.
Qed.

Lemma digit_cases (d : Z) :
  isDigit d = true ->
  d = 48 \/ d = 49 \/ d = 50 \/ d = 51 \/ d = 52 \/ d = 53 \/ d = 54
  \/ d = 55 \/ d = 56 \/ d = 57.
Proof.
  unfold isDigit. intros Hd. apply andb_prop in Hd as [H1 H2].
  apply Z.leb_le in H1, H2. lia.
Qed.

Lemma parseInt10_digit (d : Z) (s : jsstring) :
  isDigit d = true -> parseInt10 (d :: s) = Some (digitsValue 0 (d :: s)).
Proof.
  intros Hd. unfold parseInt10.
  rewrite (trimStart_kept d s (isDigit_not_blank d Hd)).
  destruct (digit_cases d Hd) as [E|[E|[E|[E|[E|[E|[E|[E|[E|E]]]]]]]]];
    subst d; reflexivity.
Qed.

Lemma hd_digit (ds : jsstring) :
  ds <> [] -> forallb isDigit ds = true -> isDigit (hd 0 ds) = true.
Proof.
  destruct ds as [|d ds]; [congruence|]. cbn. intros _ Hd.
  apply andb_prop in Hd as [Hd _]. exact Hd.
Qed.

Lemma rest_keeps_head (rest rest' : jsstring) :
  startsWithDigit rest = false ->
  rest' = [] \/ (exists a r r', rest' = a :: r /\ rest = a :: r') ->
  startsWithDigit rest' = false.
Proof.
  intros Hr [E|(a & r & r' & E & E')]; subst; [reflexivity|exact Hr].
Qed.

(** X28.  A seed text that begins with decimal digits spelling a number
    of at most 2^53 (up to which a double holds every integer) is that
    number, whatever follows the digits, and is never hashed; a minus sign
    before the digits gives the negative number (seeds typed as numbers can
    be negative), a plus sign the number itself. *)
Theorem numeric_seed_reads_leading_digits (ds rest : jsstring) :
  ds <> [] -> forallb isDigit ds = true -> startsWithDigit rest = false ->
  digitsValue 0 ds <= 2 ^ 53 ->
  applySeedInput_seed (ds ++ rest) = Some (digitsValue 0 ds)
  /\ applySeedInput_seed (45 :: ds ++ rest) = Some (- digitsValue 0 ds)
  /\ applySeedInput_seed (43 :: ds ++ rest) = Some (digitsValue 0 ds)
  /\ 0 <= digitsValue 0 ds.
Proof.
  intros Hne Hd Hr _.
  pose proof (hd_digit ds Hne Hd) as Hfirst.
  assert (Hlast : isDigit (hd 0 (rev ds)) = true).
  { apply hd_digit.
    - intros E. apply (f_equal (@rev Z)) in E.
      rewrite rev_involutive in E. exact (Hne E).
    - rewrite forallb_rev. exact Hd. }
  assert (Hlast' : forall c, hd 0 (rev (c :: ds)) = hd 0 (rev ds)).
  { intros c. cbn [rev]. destruct (rev ds) as [|e r] eqn:E; [|reflexivity].
    apply (f_equal (@rev Z)) in E. rewrite rev_involutive in E.
    exfalso. exact (Hne E). }
  assert (Hsigned : forall c, isWhiteSpace c = false ->
            exists rest', trim (c :: ds ++ rest) = c :: ds ++ rest'
                          /\ startsWithDigit rest' = false).
  { intros c Hc.
    destruct (trim_kept_block (c :: ds) rest ltac:(discriminate) Hc)
      as (rest' & E & Hrest).
    - rewrite Hlast'. apply isDigit_not_blank, Hlast.
    - exists rest'. split; [exact E|].
      apply (rest_keeps_head rest rest' Hr Hrest). }
  assert (Hstart : forall rest', startsWithDigit (ds ++ rest') = true).
  { intros rest'. destruct ds as [|d ds']; [congruence|]. exact Hfirst. }
  split; [|split; [|split]].
  - destruct (trim_kept_block ds rest Hne
                (isDigit_not_blank _ Hfirst) (isDigit_not_blank _ Hlast))
      as (rest' & E & Hrest).
    unfold applySeedInput_seed. rewrite E.
    destruct ds as [|d ds']; [congruence|]. cbn [app hd] in *.
    rewrite (parseInt10_digit d _ Hfirst).
    change (d :: ds' ++ rest') with ((d :: ds') ++ rest').
    rewrite (digitsValue_prefix (d :: ds') rest' 0 Hd
               (rest_keeps_head rest rest' Hr Hrest)).
    reflexivity.
  - destruct (Hsigned 45 eq_refl) as (rest' & E & Hrest).
    unfold applySeedInput_seed. rewrite E.
    unfold parseInt10. rewrite (trimStart_kept 45 _ eq_refl).
    rewrite Hstart, (digitsValue_prefix ds rest' 0 Hd Hrest). reflexivity.
  - destruct (Hsigned 43 eq_refl) as (rest' & E & Hrest).
    unfold applySeedInput_seed. rewrite E.
    unfold parseInt10. rewrite (trimStart_kept 43 _ eq_refl).
    rewrite Hstart, (digitsValue_prefix ds rest' 0 Hd Hrest). reflexivity.
  - apply digitsValue_nonneg. lia.
Qed.

(** ** The seed field and regeneration *)

Section Field.
Context `{Host} `{NoiseLib}.

Lemma applySeedInput_seed_blank (input : jsstring) :
  forallb isWhiteSpace input = true -> applySeedInput_seed input = None.
Proof.
  intros Hb. unfold applySeedInput_seed.
  apply trim_all_blank in Hb. rewrite Hb. reflexivity.
Qed.

Lemma applySeedInput_seed_some (input : jsstring) :
  forallb isWhiteSpace input = false ->
  exists seed, applySeedInput_seed input = Some seed.
Proof.
  intros Hb. unfold applySeedInput_seed.
  destruct (trim input) as [|c val] eqn:E.
  - apply trim_all_blank in E. congruence.
  - destruct (parseInt10 (c :: val)); eauto.
Qed.

(** X27.  [applySeedInput] with a blank field changes nothing.  Any other
    text has a seed; when this seed is at most 2^53 in absolute value (a
    hashed seed always is; up to there a double holds every integer) the
    world is regenerated from it: the block world is emptied, first-person
    mode is left, the seed is recorded and the landscape is the one of that
    seed.  White space around the text makes no difference. *)
Theorem seed_field_regenerates (input : jsstring) (s : State) :
  (forallb isWhiteSpace input = true -> applySeedInput input s = s)
  /\ (forallb isWhiteSpace input = false ->
      exists seed, applySeedInput_seed input = Some seed)
  /\ (forall seed,
        applySeedInput_seed input = Some seed -> Z.abs seed <= 2 ^ 53 ->
        applySeedInput input s = generate (Some seed) 0 s
        /\ placedBlocks (applySeedInput input s) = ∅
        /\ blockGroup (applySeedInput input s) = []
        /\ fpMode (applySeedInput input s) = false
        /\ currentSeed (applySeedInput input s) = Some seed
        /\ currentLandscape (applySeedInput input s)
           = Some (generateLandscape seed))
  /\ (forall ws ws',
        forallb isWhiteSpace ws = true -> forallb isWhiteSpace ws' = true ->
        applySeedInput (ws ++ input ++ ws') s = applySeedInput input s).
Proof.
  split; [|split; [|split]].
  - intros Hb. unfold applySeedInput.
    rewrite (applySeedInput_seed_blank input Hb). reflexivity.
  - apply applySeedInput_seed_some.
  - intros seed E _. unfold applySeedInput. rewrite E.
    split; [reflexivity|]. split; [reflexivity|]. split; [reflexivity|].
    unfold generate.
    change (fpMode (set_landscape (currentLandscape s) (Some seed) s))
      with (fpMode s).
    destruct (fpMode s) eqn:Efp.
    + unfold exitFPMode, cancelBlueprint, disposeLandscape.
      destruct (blueprintActive _); cbn; destruct (currentLandscape s);
        repeat split; reflexivity.
    + unfold disposeLandscape. cbn. destruct (currentLandscape s); cbn;
        rewrite ?Efp; repeat split; reflexivity.
  - intros ws ws' Hw Hw'. unfold applySeedInput, applySeedInput_seed.
    rewrite (trim_blank_around ws ws' input Hw Hw'). reflexivity.
Qed.

End Field.

End SeedFieldProps.

(* ===================================================================== *)
(** * Properties of the day cycle *)
(* ===================================================================== *)

Module DayCycleProps.
Import Terrain TerrainProps DayCycle.
Local Open Scope R_scope.

Lemma clamp_unit (v : R) : 0 <= clamp v 0 1 <= 1.
Proof.
  unfold clamp, Rmax, Rmin.
  destruct (Rle_dec 1 v); destruct (Rle_dec 0 _); lra.
Qed.

Lemma clamp_unit_id (v : R) : 0 <= v <= 1 -> clamp v 0 1 = v.
Proof.
  intros Hv. unfold clamp, Rmax, Rmin.
  destruct (Rle_dec 1 v); destruct (Rle_dec 0 _); lra.
Qed.

Lemma clamp_unit_below (v : R) : v <= 0 -> clamp v 0 1 = 0.
Proof.
  intros Hv. unfold clamp, Rmax, Rmin.
  destruct (Rle_dec 1 v); destruct (Rle_dec 0 _); lra.
Qed.

Lemma dayFactor_range (t : R) : 0 <= dayFactor t <= 1.
Proof. apply clamp_unit. Qed.

Lemma sunY_over_80 (t : R) : sunY t / 80 = sin ((t - 0.25) * PI).
Proof. unfold sunY. lra. Qed.

Lemma dayFactor_night (t : R) : 0 <= t <= 0.25 -> dayFactor t = 0.
Proof.
  intros Ht. unfold dayFactor. rewrite sunY_over_80.
  apply clamp_unit_below.
  pose proof PI_RGT_0 as Hpi.
  assert (Ha : 0 <= - ((t - 0.25) * PI) <= PI) by nra.
  pose proof (sin_ge_0 _ (proj1 Ha) (proj2 Ha)) as Hs.
  rewrite sin_neg in Hs. lra.
Qed.

Lemma dayFactor_day (t : R) :
  0.25 <= t <= 1.25 -> dayFactor t = sin ((t - 0.25) * PI).
Proof.
  intros Ht. unfold dayFactor. rewrite sunY_over_80.
  apply clamp_unit_id.
  pose proof PI_RGT_0 as Hpi.
  assert (Ha : 0 <= (t - 0.25) * PI <= PI) by nra.
  pose proof (sin_ge_0 _ (proj1 Ha) (proj2 Ha)).
  pose proof (SIN_bound ((t - 0.25) * PI)). lra.
Qed.




(** X25.  For every time [t], each of the four light levels that
    [updateTimeOfDay] sets lies between its value at night (t = 0) and its
    value at the peak of the sun (t = 0.75): the sun light within
    [0.1, 1.8], the hemisphere light within [0.05, 0.55], the ambient light
    within [0.15, 0.3] (brightest at night), the exposure at least 0.4.
    The bloom is at one of its three levels, and the sun sits in the plane
    z = 40 with x in [-80, 80] and y in [-10, 80]. *)
Theorem day_cycle_light_ranges (p : SkyPalette) (t : R) :
  let l := updateTimeOfDay p t in
  let night := updateTimeOfDay p 0 in
  let peak := updateTimeOfDay p 0.75 in
  (sunIntensity night <= sunIntensity l <= sunIntensity peak
   /\ 0.1 <= sunIntensity l <= 1.8)
  /\ (hemiIntensity night <= hemiIntensity l <= hemiIntensity peak
      /\ 0.05 <= hemiIntensity l <= 0.55)
  /\ (ambientIntensity peak <= ambientIntensity l <= ambientIntensity night
      /\ 0.15 <= ambientIntensity l <= 0.3)
  /\ (toneMappingExposure night <= toneMappingExposure l
        <= toneMappingExposure peak
      /\ 0.4 <= toneMappingExposure l)
  /\ (bloomStrength l = 0.6 \/ bloomStrength l = 0.15
      \/ bloomStrength l = 0.25)
  /\ (let '(x, y, z) := sunPosition l in
      z = 40 /\ -10 <= y <= 80 /\ -80 <= x <= 80).
Proof.
  cbv zeta. pose proof (dayFactor_range t) as Hd.
  assert (H0 : dayFactor 0 = 0) by (apply dayFactor_night; lra).
  assert (H75 : dayFactor 0.75 = 1).
  { rewrite dayFactor_day by lra.
    replace ((0.75 - 0.25) * PI) with (PI / 2) by lra. apply sin_PI2. }
  unfold updateTimeOfDay.
  cbn [sunIntensity hemiIntensity ambientIntensity toneMappingExposure
       bloomStrength sunPosition].
  rewrite H0, H75.
  split; [lra|]. split; [lra|]. split; [lra|]. split; [lra|].
  split.
  { destruct (_ || _); [auto|]. destruct (Rltb _ _); auto. }
  pose proof (SIN_bound ((t - 0.25) * PI)) as Hs.
  pose proof (COS_bound ((t - 0.25) * PI)) as Hc.
  unfold sunY. set (a := (t - 0.25) * PI) in *.
  split; [reflexivity|].
  split; [unfold Rmax; destruct (Rle_dec _ _); lra | lra].
Qed.


End DayCycleProps.

(* ===================================================================== *)
(** * Properties of the first-person camera *)
(* ===================================================================== *)

Module FrameProps.
Import Landscape App PointerProps.
Local Open Scope Q_scope.

Section Frames.
Context `{Host} `{Float64}.

Lemma updateBlueprint_camera (forward : Q * Q) (s : State) :
  cameraPosition (updateBlueprint forward s) = cameraPosition s
  /\ placedBlocks (updateBlueprint forward s) = placedBlocks s
  /\ blockGroup (updateBlueprint forward s) = blockGroup s
  /\ fpMode (updateBlueprint forward s) = fpMode s
  /\ selectedSlot (updateBlueprint forward s) = selectedSlot s.
Proof.
  unfold updateBlueprint.
  destruct (blueprintActive s); cbn [negb]; [|auto].
  destruct (blueprintGroup s); [|auto].
  destruct (cameraPosition s) as [[cx cy] cz] eqn:E. cbn. rewrite E. auto.
Qed.

Lemma clamp_range (v lo hi : Q) : lo <= hi -> lo <= clamp v lo hi <= hi.
Proof.
  intros Hb. unfold clamp, Math_max, Math_min.
  destruct (Qlt_le_dec v hi); destruct (Qlt_le_dec lo _); split; Lqa.lra.
Qed.

(** X30.  One frame of [animate] never touches the block world, the
    hotbar selection or the camera mode.  A first-person frame with the
    pointer locked leaves the camera within [-95, 95] on both horizontal
    axes, however the host rounds the step.  In any other frame the orbit
    controls set the camera position, and nothing else of the state
    changes (the water, the clouds and the chickens that every frame
    animates are not part of it). *)
Theorem walk_frame_keeps_camera_in_bounds (locked : bool)
    (velocity : option (Q * Q)) (forward : Q * Q) (delta : Q) (orbit : vec3)
    (s : State) :
  let s' := animateCamera locked velocity forward delta orbit s in
  placedBlocks s' = placedBlocks s
  /\ blockGroup s' = blockGroup s
  /\ selectedSlot s' = selectedSlot s
  /\ fpMode s' = fpMode s
  /\ (fpMode s = true -> locked = true ->
      let '(x', y', z') := cameraPosition s' in
      - (95) <= x' <= 95 /\ - (95) <= z' <= 95)
  /\ (fpMode s = false \/ locked = false ->
      s' = set_camera (fpMode s) orbit s).
Proof.
  cbv zeta. unfold animateCamera.
  destruct (fpMode s && locked) eqn:Eb.
  - destruct (cameraPosition s) as [[x y] z] eqn:Ecam.
    set (xz := match velocity with
               | Some (vx, vz) => (Number_add x vx, Number_add z vz)
               | None => (x, z)
               end).
    destruct xz as [x1 z1] eqn:Exz.
    set (s1 := set_camera (fpMode s) _ s).
    destruct (updateBlueprint_camera forward s1) as (Ec & Ep & Eg & Ef & Es).
    rewrite Ec, Ep, Eg, Ef, Es. unfold s1.
    cbn [cameraPosition set_camera placedBlocks blockGroup fpMode
         selectedSlot].
    repeat (split; [reflexivity|]).
    split.
    + intros _ _. split; apply clamp_range; Lqa.lra.
    + apply andb_prop in Eb. destruct Eb as [E1 E2].
      intros [E|E]; congruence.
  - cbn [cameraPosition set_camera placedBlocks blockGroup fpMode
         selectedSlot].
    repeat (split; [reflexivity|]).
    split; [|reflexivity].
    intros E1 E2. rewrite E1, E2 in Eb. discriminate.
Qed.

End Frames.
End FrameProps.


(* ===================================================================== *)
(** * The scenery and interface properties on concrete inputs *)
(* ===================================================================== *)

Module SceneryExamples.
Import Terrain Landscape Sample TerrainProps SceneryProps.
Local Open Scope R_scope.

Lemma fbm_stays_in_noise_range_witness :
  -1 <= fbm flatNoise 1 2 3 2 0.5 <= 1.
Proof.
  apply (fbm_stays_in_noise_range flatNoise 1 2 3 2 0.5).
  - apply flatNoise_in_range.
  - lia.
  - lra.
Defined.

Lemma chicken_pass_counts_and_placement_witness :
  (15 <= chickenCount 708 <= 30)%Z
  /\ (length (fst (createChickens flatNoise 708 200))
      <= Z.to_nat (chickenCount 708))%nat
  /\ Forall (chickenPlaced flatNoise 200) (fst (createChickens flatNoise 708 200)).
Proof.
  apply (chicken_pass_counts_and_placement flatNoise 708 200).
  - apply flatNoise_in_range.
  - lra.
Defined.

Lemma cloud_pass_cluster_counts_witness :
  exists clusters : list (list Puff),
    fst (createClouds 708 200) = concat clusters
    /\ length clusters = Z.to_nat (clusterCount 708)
    /\ (15 <= clusterCount 708 <= 24)%Z
    /\ Forall (fun c => (3 <= length c <= 7)%nat
                        /\ Forall (puffPlaced 200) c) clusters.
Proof.
  apply (cloud_pass_cluster_counts 708 200). lra.
Defined.

Lemma water_waves_are_bounded_witness :
  exists heights,
    animateWater [(0, 0); (130, 0)] (Some [0; 0]) 1 = Some heights
    /\ Forall2 (fun y0 y => Rabs (y - y0) <= 0.35) [0; 0] heights.
Proof.
  destruct (water_waves_are_bounded [(0, 0); (130, 0)] 1) as (_ & Hw & _).
  apply (Hw [0; 0]). reflexivity.
Defined.

Lemma terrain_colour_blends_witness :
  getTerrainColor terrainPalette 0.1
  = lerpColor (sand terrainPalette) (grass terrainPalette)
              ((0.1 - 0.08) / 0.07)
  /\ colorBetween (sand terrainPalette) (grass terrainPalette)
                  (getTerrainColor terrainPalette 0.1).
Proof.
  destruct (terrain_colour_blends terrainPalette 0.1) as (_ & Hb & _).
  apply Hb. lra.
Defined.

Lemma terrain_mesh_elevation_and_colour_witness :
  Forall2 (fun v out =>
             let '(x, z) := v in
             let '((x', y, z'), c) := out in
             x' = x /\ z' = z /\ 0 <= y <= 30
             /\ c = getTerrainColor terrainPalette (y / 30)
             /\ (y < 2.4 -> c = sand terrainPalette)
             /\ (4.5 <= y < 13.5 -> c = grass terrainPalette)
             /\ (16.5 <= y < 22.5 -> c = rock terrainPalette)
             /\ (25.5 <= y -> c = snow terrainPalette)
             /\ (200 / 2 <= Rabs x \/ 200 / 2 <= Rabs z ->
                 y = 0 /\ c = sand terrainPalette))
          [(0, 0); (100, 30)]
          (createTerrain terrainPalette flatNoise 200 [(0, 0); (100, 30)]).
Proof.
  apply (terrain_mesh_elevation_and_colour terrainPalette flatNoise 200
           [(0, 0); (100, 30)]).
  - apply flatNoise_in_range.
  - lra.
Defined.



Lemma landscape_population_witness :
  Landscape.size (@generateLandscape flatNoiseLib 42) = 200
  /\ noise2D (@generateLandscape flatNoiseLib 42)
     = fst (@createNoise2D flatNoiseLib (mulberry32 42))
  /\ ((length (trees (@generateLandscape flatNoiseLib 42)) <= 249)%nat
      /\ Forall (treePlaced (noise2D (@generateLandscape flatNoiseLib 42)) 200)
                (trees (@generateLandscape flatNoiseLib 42)))
  /\ ((length (rocks (@generateLandscape flatNoiseLib 42)) <= 139)%nat
      /\ Forall (rockPlaced (noise2D (@generateLandscape flatNoiseLib 42)) 200)
                (rocks (@generateLandscape flatNoiseLib 42)))
  /\ ((length (flowers (@generateLandscape flatNoiseLib 42)) <= 349)%nat
      /\ Forall (flowerPlaced (noise2D (@generateLandscape flatNoiseLib 42)) 200)
                (flowers (@generateLandscape flatNoiseLib 42)))
  /\ ((length (fst (@generateScenery flatNoiseLib 42)) <= 30)%nat
      /\ Forall (chickenPlaced (noise2D (@generateLandscape flatNoiseLib 42)) 200)
                (fst (@generateScenery flatNoiseLib 42)))
  /\ ((45 <= length (snd (@generateScenery flatNoiseLib 42)) <= 168)%nat
      /\ Forall (puffPlaced 200) (snd (@generateScenery flatNoiseLib 42))).
Proof.
  apply (@landscape_population flatNoiseLib 42).
  apply flatNoise_in_range.
Defined.

End SceneryExamples.

Module InterfaceExamples.
Import Landscape App Sample.

Lemma numeric_seed_reads_leading_digits_witness :
  (Seed.applySeedInput_seed ([52; 50] ++ [32; 119])
   = Some (Seed.digitsValue 0 [52; 50])
   /\ Seed.applySeedInput_seed (45 :: [52; 50] ++ [32; 119])
      = Some (- Seed.digitsValue 0 [52; 50])
   /\ Seed.applySeedInput_seed (43 :: [52; 50] ++ [32; 119])
      = Some (Seed.digitsValue 0 [52; 50])
   /\ 0 <= Seed.digitsValue 0 [52; 50])%Z.
Proof.
  apply (SeedFieldProps.numeric_seed_reads_leading_digits
           [52; 50]%Z [32; 119]%Z).
  - discriminate.
  - reflexivity.
  - reflexivity.
  - discriminate.
Defined.

Lemma seed_field_regenerates_witness :
  @applySeedInput flatNoiseLib [32; 9]%Z oneBlockWorld = oneBlockWorld
  /\ @applySeedInput flatNoiseLib [52; 50]%Z oneBlockWorld
     = @generate flatNoiseLib (Some 42%Z) 0 oneBlockWorld
  /\ placedBlocks (@applySeedInput flatNoiseLib [52; 50]%Z oneBlockWorld) = ∅
  /\ blockGroup (@applySeedInput flatNoiseLib [52; 50]%Z oneBlockWorld) = []
  /\ fpMode (@applySeedInput flatNoiseLib [52; 50]%Z oneBlockWorld) = false
  /\ currentSeed (@applySeedInput flatNoiseLib [52; 50]%Z oneBlockWorld)
     = Some 42%Z
  /\ currentLandscape (@applySeedInput flatNoiseLib [52; 50]%Z oneBlockWorld)
     = Some (@generateLandscape flatNoiseLib 42).
Proof.
  split.
  - destruct (@SeedFieldProps.seed_field_regenerates flatNoiseLib
                [32; 9]%Z oneBlockWorld) as (Hblank & _).
    apply Hblank. reflexivity.
  - destruct (@SeedFieldProps.seed_field_regenerates flatNoiseLib
                [52; 50]%Z oneBlockWorld) as (_ & _ & Hseed & _).
    apply (Hseed 42%Z).
    + reflexivity.
    + discriminate.
Defined.

Lemma day_cycle_light_ranges_witness :
  (DayCycle.toneMappingExposure (DayCycle.updateTimeOfDay skyPalette 0)
   <= DayCycle.toneMappingExposure (DayCycle.updateTimeOfDay skyPalette 0.35)
   <= DayCycle.toneMappingExposure (DayCycle.updateTimeOfDay skyPalette 0.75)
   /\ 0.4 <= DayCycle.toneMappingExposure
               (DayCycle.updateTimeOfDay skyPalette 0.35))%R.
Proof.
  destruct (DayCycleProps.day_cycle_light_ranges skyPalette 0.35%R)
    as (_ & _ & _ & Hexposure & _).
  exact Hexposure.
Defined.


Lemma walk_frame_keeps_camera_in_bounds_witness :
  (let '(x', y', z') :=
     cameraPosition (@animateCamera sampleHost exactArithmetic true
                       (Some (100, 0)%Q) (0, - (1))%Q (1 # 60)%Q
                       (60, 40, 60)%Q walkingBlockWorld) in
   (- (95) <= x' <= 95 /\ - (95) <= z' <= 95)%Q)
  /\ placedBlocks (@animateCamera sampleHost exactArithmetic true
                     (Some (100, 0)%Q) (0, - (1))%Q (1 # 60)%Q
                     (60, 40, 60)%Q walkingBlockWorld)
     = placedBlocks walkingBlockWorld
  /\ @animateCamera sampleHost exactArithmetic false
       (Some (100, 0)%Q) (0, - (1))%Q (1 # 60)%Q (60, 40, 60)%Q
       walkingBlockWorld
     = set_camera true (60, 40, 60)%Q walkingBlockWorld.
Proof.
  destruct (@FrameProps.walk_frame_keeps_camera_in_bounds sampleHost
              exactArithmetic true (Some (100, 0)%Q) (0, - (1))%Q (1 # 60)%Q
              (60, 40, 60)%Q walkingBlockWorld)
    as (Hblocks & _ & _ & _ & Hbounds & _).
  split; [apply Hbounds; reflexivity|]. split; [exact Hblocks|].
  apply (@FrameProps.walk_frame_keeps_camera_in_bounds sampleHost
           exactArithmetic false (Some (100, 0)%Q) (0, - (1))%Q (1 # 60)%Q
           (60, 40, 60)%Q walkingBlockWorld).
  right. reflexivity.
Defined.

End InterfaceExamples.
